(** * Crank-Nicolson linearisation and joint state/parameter filtering

    A shallow embedding of the two driver scripts of the aerosol
    general-dynamic-equation solver:

    - [evolution_models/case_studies/case_study_06/evol_06.py]
      (module [Evol06]): time evolution of the size-distribution
      coefficients [alpha] by a Crank-Nicolson step linearised at the
      current state;
    - [state_identification_case_studies/case_study_12/state_iden_12_main.py]
      (module [StateIden12]): the joint Kalman filter over
      [[alpha; eta_tilde_c]], where [eta] is the unknown deposition rate,
      reduced by the continuity matrix [U_eta] and stacked by a VAR(p) model.

    NumPy arrays of floats are modelled as MathComp matrices over an
    arbitrary field [R] (exact arithmetic); 1-D arrays are column vectors.
    Slices [A[r0:r0+h, c0:c0+w]] are read and written through index
    arithmetic on natural numbers ([getslice], [setslice]), as the scripts do.
    In this exact arithmetic [numpy.linalg.inv] raises [LinAlgError] exactly
    on a singular matrix; what it does on binary64 numbers is replayed for
    2 x 2 arrays in module [Binary64].  Exceptions are threaded through the
    [result] monad. *)

From HB Require Import structures.
From mathcomp Require Import boot algebra.
From Stdlib Require ZArith Floats.

Set Implicit Arguments.
Unset Strict Implicit.
Unset Printing Implicit Defensive.

Import GRing.Theory.
Local Open Scope ring_scope.

(* ===================================================================== *)
(** * Part I: definitions                                                 *)
(* ===================================================================== *)

(** ** Exceptions *)

Inductive exn : Type := LinAlgError.

Inductive result (A : Type) : Type :=
  | Ok of A
  | Raise of exn.

Arguments Raise {A} _.

Definition bind (A B : Type) (c : result A) (k : A -> result B) : result B :=
  match c with
  | Ok a => k a
  | Raise e => Raise e
  end.

Notation "x <- c ;; k" := (bind c (fun x => k))
  (at level 100, c at next level, right associativity).
Notation "' pat <- c ;; k" := (bind c (fun x => let pat := x in k))
  (at level 100, pat pattern, c at next level, right associativity).

(** [for k in ks: s = body(s, k)], stopping at the first exception. *)
Fixpoint for_range (S : Type) (body : S -> nat -> result S)
    (ks : seq nat) (s : S) : result S :=
  match ks with
  | [::] => Ok s
  | k :: ks' => s' <- body s k ;; for_range body ks' s'
  end.

(** Python's [range(n)]. *)
Definition range (n : nat) : seq nat := iota 0 n.

(** ** The NumPy layer *)

Module NumPy.
Section Arrays.

Variable R : fieldType.

(** [np.zeros([m, n])]. *)
Definition zeros (m n : nat) : 'M[R]_(m, n) := 0.

(** [A[i, j]] at natural-number indices; the scripts never read outside
    the array, where this model returns [0]. *)
Definition at2 (m n : nat) (A : 'M[R]_(m, n)) (i j : nat) : R :=
  match (insub i : option 'I_m), (insub j : option 'I_n) with
  | Some i', Some j' => A i' j'
  | _, _ => 0
  end.

(** [v[i]] for a 1-D array. *)
Definition at1 (m : nat) (v : 'cV[R]_m) (i : nat) : R := at2 v i 0.

(** The slice [A[r0 : r0 + h, c0 : c0 + w]]. *)
Definition getslice (h w : nat) (m n : nat) (A : 'M[R]_(m, n))
    (r0 c0 : nat) : 'M[R]_(h, w) :=
  \matrix_(i < h, j < w) at2 A (r0 + i)%N (c0 + j)%N.

(** The slice assignment [A[r0 : r0 + h, c0 : c0 + w] = B], giving the
    array after the assignment. *)
Definition setslice (m n : nat) (A : 'M[R]_(m, n)) (r0 c0 : nat)
    (h w : nat) (B : 'M[R]_(h, w)) : 'M[R]_(m, n) :=
  \matrix_(i < m, j < n)
    if [&& r0 <= i, i < r0 + h, c0 <= j & j < c0 + w]%N
    then at2 B (i - r0)%N (j - c0)%N
    else A i j.

(** [v[r0 : r0 + h]] and [v[r0 : r0 + h] = b] for 1-D arrays. *)
Definition getrange (h : nat) (m : nat) (v : 'cV[R]_m) (r0 : nat) : 'cV[R]_h :=
  getslice h 1 v r0 0.

Definition setrange (m : nat) (v : 'cV[R]_m) (r0 : nat)
    (h : nat) (b : 'cV[R]_h) : 'cV[R]_m :=
  setslice v r0 0 b.

(** [A[:, k]] for an array with [m] rows, and [A[:, k] = b].  NumPy
    raises [IndexError] when [k] is not below the number of columns, where
    this assignment leaves the array as it is; the loops of the scripts
    write column [k + 1] for [k] in [range(NT - 1)] only. *)
Definition getcol (m n : nat) (A : 'M[R]_(m, n)) (k : nat) : 'cV[R]_m :=
  getslice m 1 A 0 k.

Definition setcol (m n : nat) (A : 'M[R]_(m, n)) (k : nat)
    (b : 'cV[R]_m) : 'M[R]_(m, n) :=
  setslice A 0 k b.

(** [v[i] = x] for a 1-D array. *)
Definition setitem (m : nat) (v : 'cV[R]_m) (i : nat) (x : R) : 'cV[R]_m :=
  setslice v i 0 (x%:M : 'M[R]_1).

(** [np.linalg.inv(A)].  NumPy factorises [A] by LAPACK (LU with partial
    pivoting) and raises [LinAlgError] when a pivot is exactly zero.  In
    exact arithmetic a pivot vanishes exactly when [A] is singular, which
    is this definition; on binary64 numbers rounding can leave a non-zero
    pivot in a singular matrix (module [Binary64] below). *)
Definition linalg_inv (n : nat) (A : 'M[R]_n) : result 'M[R]_n :=
  if A \in unitmx then Ok (invmx A) else Raise LinAlgError.

(** A 3-D array [np.zeros([NT, m, n])] is the sequence of its [NT]
    matrices; [G[k]] and [G[k] = B] are [nth] and [set_nth].  Every index
    written by the scripts is below [NT]; past the end NumPy raises
    [IndexError], where [set_nth] extends the sequence. *)
Definition zeros3 (NT m n : nat) : seq 'M[R]_(m, n) := nseq NT 0.

Definition getmx (m n : nat) (G : seq 'M[R]_(m, n)) (k : nat) : 'M[R]_(m, n) :=
  nth 0 G k.

Definition setmx (m n : nat) (G : seq 'M[R]_(m, n)) (k : nat)
    (B : 'M[R]_(m, n)) : seq 'M[R]_(m, n) :=
  set_nth 0 G k B.

End Arrays.
End NumPy.

Import NumPy.

(** ** [evol_06.py]: Crank-Nicolson time evolution of [alpha] *)

Module Evol06.
Section Script.

Variable R : fieldType.

(** Discretisation: [N = Ne * Np] coefficients, [NT] time steps of
    length [dt]. *)
Variables (N NT : nat) (dt : R).

(** The compiled evolution model [F.eval] and its Jacobian
    [J_F.eval_d_alpha] (class [GDE_evolution_model] and [GDE_Jacobian] of
    [evolution_models.tools]), and the projected initial condition
    [F.compute_coefficients('alpha', initial_condition)]. *)
Variable F_eval : 'cV[R]_N -> R -> 'cV[R]_N.
Variable J_F_eval_d_alpha : 'cV[R]_N -> R -> 'M[R]_N.
Variable alpha_0 : 'cV[R]_N.

(** [compute_evolution_operator(alpha_star, t_star)], lines 112-118. *)
Definition compute_evolution_operator (alpha_star : 'cV[R]_N) (t_star : R)
    : result ('M[R]_N * 'cV[R]_N) :=
  let J_star := J_F_eval_d_alpha alpha_star t_star in
  let F_star := F_eval alpha_star t_star - J_star *m alpha_star in
  matrix_multiplier <- linalg_inv (1%:M - (dt / 2%:R) *: J_star) ;;
  let F_evolution := matrix_multiplier *m (1%:M + (dt / 2%:R) *: J_star) in
  let b_evolution := matrix_multiplier *m (dt *: F_star) in
  Ok (F_evolution, b_evolution).

(** The arrays [alpha] ([N] by [NT]) and [t] ([NT]) the loop writes. *)
Record state : Type := State { alpha : 'M[R]_(N, NT); t : 'cV[R]_NT }.

(** Lines 106-107 and 124. *)
Definition init : state :=
  {| alpha := setcol (zeros R N NT) 0 alpha_0; t := zeros R NT 1 |}.

(** The body of the loop, lines 127-129. *)
Definition step (st : state) (k : nat) : result state :=
  '(F_evolution, b_evolution) <-
     compute_evolution_operator (getcol (alpha st) k) (at1 (t st) k) ;;
  let alpha' :=
    setcol (alpha st) (k + 1)%N
      (F_evolution *m getcol (alpha st) k + b_evolution) in
  let t' := setitem (t st) (k + 1)%N ((k + 1)%:R * dt) in
  Ok {| alpha := alpha'; t := t' |}.

(** The first [n] iterations of the loop, after line 125 (which computes
    the operator at the initial condition and discards it). *)
Definition run_upto (n : nat) : result state :=
  _ <- compute_evolution_operator (getcol (alpha init) 0) (at1 (t init) 0) ;;
  for_range step (range n) init.

(** Lines 125-129. *)
Definition run : result state := run_upto (NT - 1)%N.

(** Lines 87 and 152-153: the script reads the clock before and after the
    computation and prints the rounded difference.  [clock i] is what the
    [i]-th call of [tm.time()] returns and [round3] is [round(_, 3)]; the
    value returned with the arrays is the printed computation time.  When
    the computation raises, the second reading is not reached. *)
Variable round3 : R -> R.

Definition main (clock : nat -> R) : result (state * R) :=
  let initial_time := clock 0%N in
  st <- run ;;
  let computation_time := round3 (clock 1%N - initial_time) in
  Ok (st, computation_time).

End Script.
End Evol06.

(** ** [state_iden_12_main.py]: joint filtering of [alpha] and [eta] *)

Module StateIden12.
Section Script.

Variable R : fieldType.

(** Sizes from the parameter file: [N] coefficients of the size
    distribution, [N_eta] coefficients of the deposition rate on [Ne_eta]
    elements, a VAR([eta_p]) model, [NT] time steps of length [dt] and
    [M] observation channels. *)
Variables (N N_eta Ne_eta eta_p NT M : nat) (dt : R).

(** Lines 58-59. *)
Definition num_constraints_eta : nat := (Ne_eta - 1)%N.
Definition Nc_eta : nat := (N_eta - num_constraints_eta)%N.

(** Line 60: the pair returned by [compute_U] of
    [evolution_models.tools]. *)
Variable U_eta : 'M[R]_(N_eta, Nc_eta).
Variable UT_eta : 'M[R]_(Nc_eta, N_eta).

(** The autoregressive coefficient matrices [eta_A[i]] of the parameter
    file. *)
Variable eta_A : nat -> 'M[R]_N_eta.

(** The compiled model [F_alpha.eval] on [[alpha; eta]] and the two
    Jacobians [J_F_alpha.eval_d_alpha] and [J_F_alpha.eval_d_eta]. *)
Variable F_alpha_eval : 'cV[R]_(N + N_eta) -> R -> 'cV[R]_N.
Variable dF_alpha_d_alpha : 'cV[R]_(N + N_eta) -> R -> 'M[R]_N.
Variable dF_alpha_d_eta : 'cV[R]_(N + N_eta) -> R -> 'M[R]_(N, N_eta).

(** Observations [Y], noise covariances and priors computed by
    [basic_tools.compute_correlated_covariance_matrix] and
    [F_alpha.compute_coefficients]. *)
Variable Y : 'M[R]_(M, NT).
Variable Gamma_alpha_w : 'M[R]_N.
Variable Gamma_eta_w : 'M[R]_N_eta.
Variable alpha_prior : 'cV[R]_N.
Variable Gamma_alpha_prior : 'M[R]_N.
Variable eta_prior : 'cV[R]_N_eta.
Variable Gamma_eta_prior : 'M[R]_N_eta.

(** Dimension of the joint state [[alpha; eta_tilde_c]]. *)
Definition Nx : nat := (N + eta_p * Nc_eta)%N.

(** Lines 62-66: the continuity matrices for [eta_p] stacked states. *)
Definition U_eta_p : 'M[R]_(eta_p * N_eta, eta_p * Nc_eta) :=
  foldl (fun U_eta_p i => setslice U_eta_p (i * N_eta)%N (i * Nc_eta)%N U_eta)
        (zeros R _ _) (range eta_p).

Definition UT_eta_p : 'M[R]_(eta_p * Nc_eta, eta_p * N_eta) :=
  foldl (fun UT_eta_p i => setslice UT_eta_p (i * Nc_eta)%N (i * N_eta)%N UT_eta)
        (zeros R _ _) (range eta_p).

(** Lines 73-77: the evolution operator of [eta_tilde]. *)
Definition A_eta : 'M[R]_(eta_p * N_eta, eta_p * N_eta) :=
  let A_eta :=
    foldl (fun A_eta i =>
             let A_eta := setslice A_eta 0 (i * N_eta)%N (eta_A i) in
             setslice A_eta ((i + 1) * N_eta)%N (i * N_eta)%N
                      (1%:M : 'M[R]_N_eta))
          (zeros R _ _) (range (eta_p - 1)) in
  setslice A_eta 0 ((eta_p - 1) * N_eta)%N (eta_A (eta_p - 1)).

(** Lines 80-83. *)
Definition B_eta : 'M[R]_(N_eta, eta_p * N_eta) :=
  let B_eta :=
    foldl (fun B_eta i => setslice B_eta 0 (i * N_eta)%N (eta_A i))
          (zeros R _ _) (range eta_p) in
  setslice B_eta 0 0 (getslice N_eta N_eta B_eta 0 0 + 1%:M).

(** Lines 86-87. *)
Definition C_eta : 'M[R]_(Nc_eta, eta_p * Nc_eta) :=
  setslice (zeros R _ _) 0 0 (1%:M : 'M[R]_Nc_eta).

(** Lines 103-111: the unconstrained state [[alpha; eta]] at which the
    model and its Jacobians are evaluated. *)
Definition x_star_of (x_tilde_c_star : 'cV[R]_Nx) : 'cV[R]_(N + N_eta) :=
  let x_c_star := zeros R (N + Nc_eta) 1 in
  let x_c_star := setrange x_c_star 0 (getrange N x_tilde_c_star 0) in
  let x_c_star :=
    setrange x_c_star N
      (C_eta *m getrange (eta_p * Nc_eta) x_tilde_c_star N) in
  let x_star := zeros R (N + N_eta) 1 in
  let x_star := setrange x_star 0 (getrange N x_c_star 0) in
  setrange x_star N (U_eta *m getrange Nc_eta x_c_star N).

(** [compute_evolution_operator_Jacobians], lines 101-115.  Lines 106 and
    111 assign an empty slice to an empty slice. *)
Definition compute_evolution_operator_Jacobians
    (x_tilde_c_star : 'cV[R]_Nx) (t_star : R)
    : 'M[R]_N * 'M[R]_(N, N_eta) :=
  let x_c_star := zeros R (N + Nc_eta) 1 in
  let x_c_star := setrange x_c_star 0 (getrange N x_tilde_c_star 0) in
  let x_c_star :=
    setrange x_c_star N
      (C_eta *m getrange (eta_p * Nc_eta) x_tilde_c_star N) in
  let x_c_star :=
    setrange x_c_star (N + Nc_eta)
      (getrange 0 x_tilde_c_star (N + eta_p * Nc_eta)) in
  let x_star := zeros R (N + N_eta) 1 in
  let x_star := setrange x_star 0 (getrange N x_c_star 0) in
  let x_star := setrange x_star N (U_eta *m getrange Nc_eta x_c_star N) in
  let x_star :=
    setrange x_star (N + N_eta) (getrange 0 x_c_star (N + Nc_eta)) in
  let J_alpha_star := dF_alpha_d_alpha x_star t_star in
  let J_eta_star := dF_alpha_d_eta x_star t_star in
  (J_alpha_star, J_eta_star).

(** [compute_evolution_operator], lines 118-149. *)
Definition compute_evolution_operator
    (x_tilde_c_star : 'cV[R]_Nx) (t_star : R)
    (J_alpha_star : 'M[R]_N) (J_eta_star : 'M[R]_(N, N_eta))
    : result ('M[R]_Nx * 'cV[R]_Nx) :=
  let x_star := x_star_of x_tilde_c_star in
  let alpha_star := getrange N x_star 0 in
  let eta_star := getrange N_eta x_star N in
  let F_star :=
    F_alpha_eval x_star t_star - J_alpha_star *m alpha_star
    - J_eta_star *m eta_star in
  matrix_multiplier <- linalg_inv (1%:M - (dt / 2%:R) *: J_alpha_star) ;;
  let F_evol_alpha :=
    matrix_multiplier *m (1%:M + (dt / 2%:R) *: J_alpha_star) in
  let F_evol_eta := matrix_multiplier *m ((dt / 2%:R) *: J_eta_star) in
  let F_evol_eta := F_evol_eta *m B_eta in
  let F_evol_eta := F_evol_eta *m U_eta_p in
  let F_evolution := zeros R Nx Nx in
  let F_evolution := setslice F_evolution 0 0 F_evol_alpha in
  let F_evolution := setslice F_evolution 0 N F_evol_eta in
  let F_evolution :=
    setslice F_evolution N N (UT_eta_p *m (A_eta *m U_eta_p)) in
  let b_evolution := zeros R Nx 1 in
  let b_evolution :=
    setrange b_evolution 0 (matrix_multiplier *m (dt *: F_star)) in
  Ok (F_evolution, b_evolution).

(** [compute_evolution_operator_alpha_covariance], lines 152-164. *)
Definition compute_evolution_operator_alpha_covariance
    (Gamma_tilde_c_w : 'M[R]_Nx)
    (J_alpha_star : 'M[R]_N) (J_eta_star : 'M[R]_(N, N_eta))
    : result 'M[R]_N :=
  let Gamma_c_w := zeros R (N + Nc_eta) (N + Nc_eta) in
  let Gamma_c_w := setslice Gamma_c_w 0 0 (getslice N N Gamma_tilde_c_w 0 0) in
  let Gamma_c_w :=
    setslice Gamma_c_w N N (getslice Nc_eta Nc_eta Gamma_tilde_c_w N N) in
  let Gamma_alpha_w := getslice N N Gamma_c_w 0 0 in
  let Gamma_eta_w :=
    U_eta *m (getslice Nc_eta Nc_eta Gamma_c_w N N *m UT_eta) in
  matrix_multiplier <- linalg_inv (1%:M - (dt / 2%:R) *: J_alpha_star) ;;
  let Gamma_Jac_eta := J_eta_star *m (Gamma_eta_w *m J_eta_star^T) in
  Ok (Gamma_alpha_w
      + (dt ^+ 2 / 4%:R)
        *: (matrix_multiplier *m (Gamma_Jac_eta *m matrix_multiplier^T))).

(** Lines 201-208: the process-noise covariance of the joint state. *)
Definition Gamma_eta_tilde_w : 'M[R]_(eta_p * N_eta) :=
  setslice (zeros R _ _) 0 0 Gamma_eta_w.

Definition Gamma_eta_tilde_c_w : 'M[R]_(eta_p * Nc_eta) :=
  UT_eta_p *m (Gamma_eta_tilde_w *m U_eta_p).

Definition Gamma_tilde_c_w : 'M[R]_Nx :=
  let Gamma_tilde_c_w := zeros R Nx Nx in
  let Gamma_tilde_c_w := setslice Gamma_tilde_c_w 0 0 Gamma_alpha_w in
  setslice Gamma_tilde_c_w N N Gamma_eta_tilde_c_w.

(** Lines 224-231: the prior of [eta_tilde] and its reduction. *)
Definition eta_tilde_prior : 'cV[R]_(eta_p * N_eta) :=
  foldl (fun eta_tilde_prior i =>
           setrange eta_tilde_prior (i * N_eta)%N eta_prior)
        (zeros R _ _) (range eta_p).

Definition Gamma_eta_tilde_prior : 'M[R]_(eta_p * N_eta) :=
  foldl (fun Gamma_eta_tilde_prior i =>
           setslice Gamma_eta_tilde_prior (i * N_eta)%N (i * N_eta)%N
                    Gamma_eta_prior)
        (zeros R _ _) (range eta_p).

Definition eta_tilde_c_prior : 'cV[R]_(eta_p * Nc_eta) :=
  UT_eta_p *m eta_tilde_prior.

Definition Gamma_eta_tilde_c_prior : 'M[R]_(eta_p * Nc_eta) :=
  UT_eta_p *m (Gamma_eta_tilde_prior *m U_eta_p).

(** Lines 234-239. *)
Definition x_tilde_c_prior : 'cV[R]_Nx :=
  let x_tilde_c_prior := zeros R Nx 1 in
  let x_tilde_c_prior := setrange x_tilde_c_prior 0 alpha_prior in
  setrange x_tilde_c_prior N eta_tilde_c_prior.

Definition Gamma_tilde_c_prior : 'M[R]_Nx :=
  let Gamma_tilde_c_prior := zeros R Nx Nx in
  let Gamma_tilde_c_prior := setslice Gamma_tilde_c_prior 0 0 Gamma_alpha_prior in
  setslice Gamma_tilde_c_prior N N Gamma_eta_tilde_c_prior.

(** The fields of the [Kalman_filter] object the loop assigns; its
    observation operator, observation noise and bias correction are fixed
    at construction. *)
Record Kalman_filter : Type := KalmanFilter {
  model_F : 'M[R]_Nx;
  additive_evolution_vector : 'cV[R]_Nx;
  Gamma_w : 'M[R]_Nx
}.

(** [model.predict(x, Gamma, k)] and [model.update(x, Gamma, y, k)] of
    [basic_tools.Kalman_filter]: they read the fields of the filter and
    return a mean and a covariance, or raise. *)
Variable predict :
  Kalman_filter -> 'cV[R]_Nx -> 'M[R]_Nx -> nat -> result ('cV[R]_Nx * 'M[R]_Nx).
Variable update :
  Kalman_filter -> 'cV[R]_Nx -> 'M[R]_Nx -> 'cV[R]_M -> nat ->
  result ('cV[R]_Nx * 'M[R]_Nx).

(** The arrays and the filter object of the main loop. *)
Record state : Type := State {
  x_tilde_c : 'M[R]_(Nx, NT);
  Gamma_tilde_c : seq 'M[R]_Nx;
  x_tilde_c_predict : 'M[R]_(Nx, NT);
  Gamma_tilde_c_predict : seq 'M[R]_Nx;
  F : seq 'M[R]_Nx;
  b : 'M[R]_(Nx, NT);
  t : 'cV[R]_NT;
  model : Kalman_filter
}.

(** Lines 244-255, 265 and 271. *)
Definition init : state :=
  let F := zeros3 R NT Nx Nx in
  let b := zeros R Nx NT in
  {| x_tilde_c := setcol (zeros R Nx NT) 0 x_tilde_c_prior;
     Gamma_tilde_c := setmx (zeros3 R NT Nx Nx) 0 Gamma_tilde_c_prior;
     x_tilde_c_predict := setcol (zeros R Nx NT) 0 x_tilde_c_prior;
     Gamma_tilde_c_predict := setmx (zeros3 R NT Nx Nx) 0 Gamma_tilde_c_prior;
     F := F;
     b := b;
     t := zeros R NT 1;
     model := {| model_F := getmx F 0;
                 additive_evolution_vector := getcol b 0;
                 Gamma_w := Gamma_tilde_c_w |} |}.

(** The body of the filter loop, lines 273-279. *)
Definition step (st : state) (k : nat) : result state :=
  let '(J_alpha_star, J_eta_star) :=
    compute_evolution_operator_Jacobians (getcol (x_tilde_c st) k) (at1 (t st) k) in
  '(F_k, b_k) <-
     compute_evolution_operator (getcol (x_tilde_c st) k) (at1 (t st) k)
       J_alpha_star J_eta_star ;;
  let F' := setmx (F st) k F_k in
  let b' := setcol (b st) k b_k in
  let model1 :=
    {| model_F := getmx F' k;
       additive_evolution_vector := getcol b' k;
       Gamma_w := Gamma_w (model st) |} in
  Gamma_alpha <-
     compute_evolution_operator_alpha_covariance (Gamma_w model1)
       J_alpha_star J_eta_star ;;
  let model2 :=
    {| model_F := model_F model1;
       additive_evolution_vector := additive_evolution_vector model1;
       Gamma_w := setslice (Gamma_w model1) 0 0 Gamma_alpha |} in
  '(x_predict, Gamma_predict) <-
     predict model2 (getcol (x_tilde_c st) k) (getmx (Gamma_tilde_c st) k) k ;;
  let x_tilde_c_predict' := setcol (x_tilde_c_predict st) (k + 1)%N x_predict in
  let Gamma_tilde_c_predict' :=
    setmx (Gamma_tilde_c_predict st) (k + 1)%N Gamma_predict in
  '(x_update, Gamma_update) <-
     update model2 (getcol x_tilde_c_predict' (k + 1)%N)
       (getmx Gamma_tilde_c_predict' (k + 1)%N) (getcol Y (k + 1)%N) k ;;
  Ok {| x_tilde_c := setcol (x_tilde_c st) (k + 1)%N x_update;
        Gamma_tilde_c := setmx (Gamma_tilde_c st) (k + 1)%N Gamma_update;
        x_tilde_c_predict := x_tilde_c_predict';
        Gamma_tilde_c_predict := Gamma_tilde_c_predict';
        F := F';
        b := b';
        t := setitem (t st) (k + 1)%N ((k + 1)%:R * dt);
        model := model2 |}.

(** The first [n] iterations of the loop of line 272. *)
Definition run_upto (n : nat) : result state := for_range step (range n) init.

(** Lines 272-279. *)
Definition run : result state := run_upto (NT - 1)%N.

(** Lines 291-297: the current state [x_c] extracted from the stacked
    state, for a trajectory [x_tilde_c], [Gamma_tilde_c]. *)
Definition x_c_Gamma_c (x_tilde_c : 'M[R]_(Nx, NT)) (Gamma_tilde_c : seq 'M[R]_Nx)
    : 'M[R]_(N + Nc_eta, NT) * seq 'M[R]_(N + Nc_eta) :=
  foldl (fun '(x_c, Gamma_c) k =>
           let x_c := setslice x_c 0 k (getslice N 1 x_tilde_c 0 k) in
           let x_c := setslice x_c N k (getslice Nc_eta 1 x_tilde_c N k) in
           let Gamma_c :=
             setmx Gamma_c k
               (setslice (getmx Gamma_c k) 0 0
                  (getslice N N (getmx Gamma_tilde_c k) 0 0)) in
           let Gamma_c :=
             setmx Gamma_c k
               (setslice (getmx Gamma_c k) N N
                  (getslice Nc_eta Nc_eta (getmx Gamma_tilde_c k) N N)) in
           (x_c, Gamma_c))
        (zeros R _ _, zeros3 R NT _ _) (range NT).

(** Lines 302-308: the unconstrained state and its covariance. *)
Definition x_Gamma (x_c : 'M[R]_(N + Nc_eta, NT)) (Gamma_c : seq 'M[R]_(N + Nc_eta))
    : 'M[R]_(N + N_eta, NT) * seq 'M[R]_(N + N_eta) :=
  foldl (fun '(x, Gamma) k =>
           let x := setslice x 0 k (getslice N 1 x_c 0 k) in
           let x := setslice x N k (U_eta *m getslice Nc_eta 1 x_c N k) in
           let Gamma :=
             setmx Gamma k
               (setslice (getmx Gamma k) 0 0
                  (getslice N N (getmx Gamma_c k) 0 0)) in
           let Gamma :=
             setmx Gamma k
               (setslice (getmx Gamma k) N N
                  (U_eta *m (getslice Nc_eta Nc_eta (getmx Gamma_c k) N N
                             *m UT_eta))) in
           (x, Gamma))
        (zeros R _ _, zeros3 R NT _ _) (range NT).

(** Lines 313-316. *)
Definition eta_of (x : 'M[R]_(N + N_eta, NT)) : 'M[R]_(N_eta, NT) :=
  getslice N_eta NT x N 0.

Definition Gamma_eta_of (Gamma : seq 'M[R]_(N + N_eta)) : seq 'M[R]_N_eta :=
  [seq getslice N_eta N_eta G N N | G <- Gamma].

(** Lines 36 and 361-362: the script reads the clock before and after the
    computation and prints the rounded difference.  [clock i] is what the
    [i]-th call of [tm.time()] returns and [round3] is [round(_, 3)]; the
    value returned with the arrays of the filter loop is the printed
    computation time.  When the loop raises, the second reading is not
    reached. *)
Variable round3 : R -> R.

Definition main (clock : nat -> R) : result (state * R) :=
  let initial_time := clock 0%N in
  st <- run ;;
  let computation_time := round3 (clock 1%N - initial_time) in
  Ok (st, computation_time).

End Script.
End StateIden12.

(** ** The observation model of [state_iden_12_main.py] *)

Module StateIden12Obs.
Section Script.

Variable R : fieldType.
Variables (N N_eta Ne_eta eta_p NT M : nat).

Local Notation Nx := (StateIden12.Nx N N_eta Ne_eta eta_p).

(** The operator from [alpha] to the observed channels:
    [compute_alpha_to_z_operator(...)] (line 172) or [H_alpha.H_phi]
    (line 177). *)
Variable H_alpha : 'M[R]_(M, N).

(** Lines 173-174 and 178-179. *)
Definition H : 'M[R]_(M, Nx) :=
  let H := zeros R M Nx in
  setslice H 0 0 H_alpha.

(** The observations and the noise parameters of the parameter file. *)
Variable Y : 'M[R]_(M, NT).
Variables sigma_Y_multiplier sigma_v : R.

(** Lines 184-188; [np.diag] of the 1-D array [Y[:, k]] is the diagonal
    matrix of its entries. *)
Definition Gamma_v : seq 'M[R]_M :=
  foldl (fun Gamma_v k =>
           let Gamma_Y_multiplier :=
             (sigma_Y_multiplier ^+ 2) *: diag_mx (getcol Y k)^T in
           let Gamma_v_additive := (sigma_v ^+ 2) *: (1%:M : 'M[R]_M) in
           setmx Gamma_v k (Gamma_Y_multiplier + Gamma_v_additive))
        (zeros3 R NT M M) (range NT).

End Script.
End StateIden12Obs.

(** Modelled from the spec: [compute_U] of [evolution_models.tools] and
    the element basis it reads ([F_alpha.phi_eta],
    [F_alpha.x_boundaries_eta]) are not among the sources.  The data model
    asks of the pair [(U, UT)] it returns that [UT] is the transpose of [U]
    ("its transpose U^T as the forward reduction"), that the columns of [U]
    are orthonormal ("U^T U = I") and that [eta = U eta_c] "spans exactly
    the continuous subspace"; [continuous] is the predicate of that
    subspace. *)
Definition compute_U_contract (R : fieldType) (N_eta Nc_eta : nat)
    (continuous : 'cV[R]_N_eta -> Prop)
    (U : 'M[R]_(N_eta, Nc_eta)) (UT : 'M[R]_(Nc_eta, N_eta)) : Prop :=
  [/\ UT = U^T, UT *m U = 1%:M
    & forall w, continuous w <-> exists v, w = U *m v].

(** Modelled from the spec: [Kalman_filter.predict] of [basic_tools] is not
    among the sources.  The Kalman estimator, "given the current affine
    transition [F_evolution, b_evolution] and process-noise covariance,
    computes [mean_predict = F·mean + b], [cov_predict = F·cov·F^T + Q]" and
    "optionally adds a fixed bias-and-covariance correction"
    ([mean_epsilon], [Gamma_epsilon]; zero when the filter is built without
    one, line 265), read from the fields [F], [additive_evolution_vector]
    and [Gamma_w] the loop assigns. *)
Definition predict_contract (R : fieldType) (N N_eta Ne_eta eta_p : nat)
    (mean_epsilon : 'cV[R]_(StateIden12.Nx N N_eta Ne_eta eta_p))
    (Gamma_epsilon : 'M[R]_(StateIden12.Nx N N_eta Ne_eta eta_p))
    (predict :
       StateIden12.Kalman_filter R N N_eta Ne_eta eta_p ->
       'cV[R]_(StateIden12.Nx N N_eta Ne_eta eta_p) ->
       'M[R]_(StateIden12.Nx N N_eta Ne_eta eta_p) -> nat ->
       result ('cV[R]_(StateIden12.Nx N N_eta Ne_eta eta_p)
               * 'M[R]_(StateIden12.Nx N N_eta Ne_eta eta_p))) : Prop :=
  forall m x G k,
    predict m x G k
    = Ok (StateIden12.model_F m *m x
          + StateIden12.additive_evolution_vector m + mean_epsilon,
          StateIden12.model_F m *m G *m (StateIden12.model_F m)^T
          + StateIden12.Gamma_w m + Gamma_epsilon).

(** ** [np.linalg.inv] as it runs: binary64 arithmetic

    The arrays of the scripts hold binary64 numbers and [np.linalg.inv]
    calls LAPACK's [dgesv]: an LU factorisation with partial pivoting
    ([dgetrf]), which reports a singular matrix only when a pivot is
    exactly zero; NumPy raises [LinAlgError] on that report and on
    nothing else.  This module replays the factorisation of a 2 x 2 array
    on Rocq's primitive binary64 numbers.  The multiplier of the
    elimination is either the quotient by the pivot or the product with
    its reciprocal, and the update of the last entry is either a rounded
    product followed by a rounded difference or one fused operation:
    LAPACK implementations differ in both, so both are parameters. *)
Module Binary64.

Import ZArith Floats.

(** A 2 x 2 array of binary64 numbers, by rows. *)
Record mx2 : Type := Mx2 { a11 : float; a12 : float; a21 : float; a22 : float }.

(** [np.eye(2) - (dt / 2) * J_star], lines 115 of [evol_06.py] and 133 of
    [state_iden_12_main.py]. *)
Definition implicit_matrix (dt : float) (J_star : mx2) : mx2 :=
  let h := (dt / 2)%float in
  {| a11 := (1 - h * a11 J_star)%float; a12 := (0 - h * a12 J_star)%float;
     a21 := (0 - h * a21 J_star)%float; a22 := (1 - h * a22 J_star)%float |}.










(** A step [dt = 2] and a Jacobian for which [I - (dt/2) J] is
    [[27, 99], [99, 363]], of determinant [27 * 363 - 99 * 99 = 0]. *)
Definition dt : float := 2%float.
Definition J_star : mx2 :=
  Mx2 (-26)%float (-99)%float (-99)%float (-362)%float.

End Binary64.

(* ===================================================================== *)
(** * Part II: properties                                                 *)
(* ===================================================================== *)

From Stdlib Require Import Lia.

(** Arithmetic on array indices: from [ssrnat]'s boolean comparisons to
    linear arithmetic. *)
Ltac nat_norm :=
  repeat match goal with
  | H : is_true (_ && _) |- _ =>
      let H1 := fresh H in let H2 := fresh H in
      move/andP: H => [H1 H2]
  | H : is_true (leq _ _) |- _ => move/leP: H => H
  | H : is_true (~~ leq _ _) |- _ => rewrite -ltnNge in H
  | H : leq _ _ = false |- _ => move/negbT: H => H
  | H : leq _ _ = true |- _ => move/leP: H => H
  | H : is_true (@eq_op nat _ _) |- _ => move/eqP: H => H
  | H : is_true (~~ @eq_op nat _ _) |- _ => move/eqP: H => H
  | H : @eq_op nat _ _ = false |- _ => move/eqP: H => H
  end.

Ltac nat_lia :=
  nat_norm;
  try (apply/leP); try (apply/eqP);
  rewrite -?plusE -?minusE -?multE;
  repeat match goal with
  | H : context [addn] |- _ => rewrite -plusE in H
  | H : context [subn] |- _ => rewrite -minusE in H
  | H : context [muln] |- _ => rewrite -multE in H
  end;
  lia.

Section NumPyTheory.

Variable R : fieldType.

Lemma at2_ord (m n : nat) (A : 'M[R]_(m, n)) (i : 'I_m) (j : 'I_n) :
  at2 A i j = A i j.
Proof. by rewrite /at2 !valK. Qed.

Lemma at2_lt (m n : nat) (A : 'M[R]_(m, n)) (i j : nat)
    (Hi : (i < m)%N) (Hj : (j < n)%N) :
  at2 A i j = A (Ordinal Hi) (Ordinal Hj).
Proof. exact: (at2_ord A (Ordinal Hi) (Ordinal Hj)). Qed.

Lemma at2_row_out (m n : nat) (A : 'M[R]_(m, n)) (i j : nat) :
  (m <= i)%N -> at2 A i j = 0.
Proof. by move=> Hi; rewrite /at2 insubF // ltnNge Hi. Qed.

Lemma at2_col_out (m n : nat) (A : 'M[R]_(m, n)) (i j : nat) :
  (n <= j)%N -> at2 A i j = 0.
Proof.
move=> Hj; rewrite /at2 [insub j]insubF ?ltnNge ?Hj //.
by case: (insub i).
Qed.

Lemma at2_ext (m n : nat) (A B : 'M[R]_(m, n)) :
  (forall i j, (i < m)%N -> (j < n)%N -> at2 A i j = at2 B i j) -> A = B.
Proof.
move=> H; apply/matrixP => i j.
by rewrite -!at2_ord H.
Qed.

Lemma at2_zeros (m n i j : nat) : at2 (zeros R m n) i j = 0.
Proof.
rewrite /at2; case: (insub i) => // i'; case: (insub j) => // j'.
by rewrite mxE.
Qed.

Lemma at2_getslice (h w m n : nat) (A : 'M[R]_(m, n)) (r0 c0 i j : nat) :
  at2 (getslice h w A r0 c0) i j =
  if (i < h)%N && (j < w)%N then at2 A (r0 + i)%N (c0 + j)%N else 0.
Proof.
case: (ltnP i h) => Hi /=; last by rewrite at2_row_out.
case: (ltnP j w) => Hj /=; last by rewrite at2_col_out.
by rewrite (at2_lt _ Hi Hj) mxE.
Qed.

Lemma at2_setslice (m n : nat) (A : 'M[R]_(m, n)) (r0 c0 h w : nat)
    (B : 'M[R]_(h, w)) (i j : nat) :
  (i < m)%N -> (j < n)%N ->
  at2 (setslice A r0 c0 B) i j =
  if [&& r0 <= i, i < r0 + h, c0 <= j & j < c0 + w]%N
  then at2 B (i - r0)%N (j - c0)%N else at2 A i j.
Proof.
move=> Hi Hj; rewrite !(at2_lt _ Hi Hj) mxE /=.
by [].
Qed.

(** Reading back the slice that was written. *)
Lemma getslice_setslice (m n : nat) (A : 'M[R]_(m, n)) (r0 c0 h w : nat)
    (B : 'M[R]_(h, w)) :
  (r0 + h <= m)%N -> (c0 + w <= n)%N ->
  getslice h w (setslice A r0 c0 B) r0 c0 = B.
Proof.
move=> Hr Hc; apply/matrixP => i j; rewrite mxE.
have Hi : (r0 + i < m)%N by apply: leq_trans Hr; rewrite ltn_add2l.
have Hj : (c0 + j < n)%N by apply: leq_trans Hc; rewrite ltn_add2l.
rewrite at2_setslice // !leq_addr !ltn_add2l !ltn_ord /=.
by rewrite !addKn at2_ord.
Qed.

(** A slice that does not meet the written one is unchanged. *)
Lemma getslice_setslice_disjoint (m n : nat) (A : 'M[R]_(m, n))
    (r0 c0 h w : nat) (B : 'M[R]_(h, w)) (h' w' r1 c1 : nat) :
  [|| r1 + h' <= r0, r0 + h <= r1, c1 + w' <= c0 | c0 + w <= c1]%N ->
  getslice h' w' (setslice A r0 c0 B) r1 c1 = getslice h' w' A r1 c1.
Proof.
move=> Hd; apply/matrixP => i j; rewrite !mxE.
case: (ltnP (r1 + i) m) => Hi; last by rewrite !at2_row_out.
case: (ltnP (c1 + j) n) => Hj; last by rewrite !at2_col_out.
rewrite at2_setslice //.
case: ifP => // /and4P [H1 H2 H3 H4]; exfalso.
have Hih := ltn_ord i; have Hjw := ltn_ord j.
case/or4P: Hd => Hd; nat_lia.
Qed.

Lemma getslice_zeros (h w m n r0 c0 : nat) :
  getslice h w (zeros R m n) r0 c0 = 0.
Proof. by apply/matrixP => i j; rewrite !mxE at2_zeros. Qed.

End NumPyTheory.

(** ** Loops and exceptions *)

Section Loops.

Variables (S : Type) (body : S -> nat -> result S).

Lemma bind_Ok_inv (A B : Type) (c : result A) (k : A -> result B) (y : B) :
  bind c k = Ok y -> exists2 a, c = Ok a & k a = Ok y.
Proof. by case: c => [a|e] //= Hk; exists a. Qed.

Lemma for_range_cat (ks1 ks2 : seq nat) (s : S) :
  for_range body (ks1 ++ ks2) s =
  (s' <- for_range body ks1 s ;; for_range body ks2 s').
Proof.
elim: ks1 s => [|k ks1 IH] s //=.
by case: (body s k) => [s1|e] //=.
Qed.

Lemma range_split (k n : nat) :
  (k < n)%N -> range n = range k ++ k :: iota k.+1 (n - k.+1).
Proof.
move=> Hk; rewrite /range -[in LHS](subnKC (ltnW Hk)) iotaD add0n.
by rewrite -(subnSK Hk).
Qed.

Lemma for_range_S (n : nat) (s : S) :
  for_range body (range n.+1) s =
  (s' <- for_range body (range n) s ;; body s' n).
Proof.
rewrite (@range_split n n.+1) // subnn for_range_cat /=.
by case: (for_range body (range n) s) => //= s'; case: (body s' n).
Qed.


(** The loop up to [n] succeeded, so did every shorter one. *)
Lemma for_range_prefix (n k : nat) (s sn : S) :
  (k <= n)%N -> for_range body (range n) s = Ok sn ->
  exists sk, for_range body (range k) s = Ok sk.
Proof.
move=> Hk; rewrite /range -(subnKC Hk) iotaD for_range_cat.
by case: (for_range body (iota 0 k) s) => // sk _; exists sk.
Qed.

End Loops.


(** ** [numpy.linalg.inv] *)

Section Inverse.

Variables (R : fieldType) (n : nat).
Implicit Types A M : 'M[R]_n.

Lemma linalg_inv_unit A : A \in unitmx -> linalg_inv A = Ok (invmx A).
Proof. by rewrite /linalg_inv => ->. Qed.

Lemma linalg_inv_singular A :
  A \notin unitmx -> linalg_inv A = Raise LinAlgError.
Proof. by rewrite /linalg_inv => /negbTE ->. Qed.

Lemma linalg_inv_Ok A M :
  linalg_inv A = Ok M -> [/\ A \in unitmx, M *m A = 1%:M & A *m M = 1%:M].
Proof.
rewrite /linalg_inv; case: ifP => // HA [<-].
by split; rewrite ?mulVmx ?mulmxV.
Qed.

(** A two-sided inverse is the one [linalg_inv] returns. *)
Lemma linalg_inv_uniq A M :
  M *m A = 1%:M -> A *m M = 1%:M -> linalg_inv A = Ok M.
Proof.
move=> HMA HAM.
have HA : A \in unitmx by case: (mulmx1_unit HAM).
by rewrite linalg_inv_unit // -[invmx A]mulmx1 -HAM mulKmx.
Qed.

End Inverse.

(** ** Columns of trajectories and items of 1-D arrays *)

Section Columns.

Variable R : fieldType.

Lemma getcol_setcol (m n : nat) (A : 'M[R]_(m, n)) (k : nat) (v : 'cV[R]_m) :
  (k < n)%N -> getcol (setcol A k v) k = v.
Proof.
by move=> Hk; rewrite /getcol /setcol getslice_setslice // addn1.
Qed.

Lemma getcol_setcol_other (m n : nat) (A : 'M[R]_(m, n)) (k k' : nat)
    (v : 'cV[R]_m) :
  k' != k -> getcol (setcol A k v) k' = getcol A k'.
Proof.
move=> Hk; rewrite /getcol /setcol getslice_setslice_disjoint //.
rewrite !addn1 neq_ltn in Hk *.
by case/orP: Hk => ->; rewrite ?orbT.
Qed.

Lemma at1_setitem (m : nat) (v : 'cV[R]_m) (i j : nat) (x : R) :
  (j < m)%N -> at1 (setitem v i x) j = if j == i then x else at1 v j.
Proof.
move=> Hj; rewrite /at1 /setitem at2_setslice //= !addn1 ltnS andbT.
rewrite andbC -eqn_leq; case: eqP => // ->.
by rewrite subnn (@at2_lt _ _ _ _ 0 0) // mxE eqxx.
Qed.

Lemma at1_zeros (m i : nat) : at1 (zeros R m 1) i = 0.
Proof. exact: at2_zeros. Qed.

Lemma getmx_setmx (m n : nat) (G : seq 'M[R]_(m, n)) (k k' : nat)
    (B : 'M[R]_(m, n)) :
  getmx (setmx G k B) k' = if k' == k then B else getmx G k'.
Proof. by rewrite /getmx /setmx nth_set_nth. Qed.

End Columns.

(** ** [evol_06.py] *)

Section Evol06Theory.

Variable R : fieldType.
Variables (N NT : nat) (dt : R).
Variable F_eval : 'cV[R]_N -> R -> 'cV[R]_N.
Variable J_F_eval_d_alpha : 'cV[R]_N -> R -> 'M[R]_N.
Variable alpha_0 : 'cV[R]_N.

Local Notation compute_evolution_operator :=
  (Evol06.compute_evolution_operator dt F_eval J_F_eval_d_alpha).
Local Notation step := (@Evol06.step R N NT dt F_eval J_F_eval_d_alpha).
Local Notation init := (@Evol06.init R N NT alpha_0).
Local Notation run_upto :=
  (@Evol06.run_upto R N NT dt F_eval J_F_eval_d_alpha alpha_0).
Local Notation run := (@Evol06.run R N NT dt F_eval J_F_eval_d_alpha alpha_0).
Local Notation alpha := (@Evol06.alpha R N NT).
Local Notation t := (@Evol06.t R N NT).

(** The matrix [I - (dt/2) J] inverted by the linearisation at
    [(alpha_star, t_star)]. *)
Definition evol06_implicit_matrix (alpha_star : 'cV[R]_N) (t_star : R) : 'M[R]_N :=
  1%:M - (dt / 2%:R) *: J_F_eval_d_alpha alpha_star t_star.

Lemma evol06_operator_unit (alpha_star : 'cV[R]_N) (t_star : R) :
  evol06_implicit_matrix alpha_star t_star \in unitmx ->
  let J := J_F_eval_d_alpha alpha_star t_star in
  let M := invmx (evol06_implicit_matrix alpha_star t_star) in
  compute_evolution_operator alpha_star t_star =
  Ok (M *m (1%:M + (dt / 2%:R) *: J),
      M *m (dt *: (F_eval alpha_star t_star - J *m alpha_star))).
Proof.
rewrite /evol06_implicit_matrix /Evol06.compute_evolution_operator => HA /=.
by rewrite linalg_inv_unit.
Qed.

Lemma evol06_operator_singular (alpha_star : 'cV[R]_N) (t_star : R) :
  evol06_implicit_matrix alpha_star t_star \notin unitmx ->
  compute_evolution_operator alpha_star t_star = Raise LinAlgError.
Proof.
rewrite /evol06_implicit_matrix /Evol06.compute_evolution_operator => HA /=.
by rewrite linalg_inv_singular.
Qed.

Lemma evol06_operator_Ok (alpha_star : 'cV[R]_N) (t_star : R) Fb :
  compute_evolution_operator alpha_star t_star = Ok Fb ->
  evol06_implicit_matrix alpha_star t_star \in unitmx.
Proof.
case: (boolP (_ \in unitmx)) => // /evol06_operator_singular -> //.
Qed.

Lemma evol06_run_upto_S (n : nat) :
  run_upto n.+1 = (st <- run_upto n ;; step st n).
Proof.
rewrite /Evol06.run_upto for_range_S.
by case: (compute_evolution_operator _ _).
Qed.

(** What [n] iterations of the loop have established. *)
Definition evol06_inv (n : nat) (st : Evol06.state R N NT) : Prop :=
  [/\ forall j, (j <= n)%N -> at1 (t st) j = j%:R * dt
    & forall k, (k < n)%N ->
      exists F_evolution b_evolution,
        compute_evolution_operator (getcol (alpha st) k) (k%:R * dt)
          = Ok (F_evolution, b_evolution)
        /\ getcol (alpha st) (k + 1)
           = F_evolution *m getcol (alpha st) k + b_evolution].

Lemma evol06_step_inv (n : nat) (st st' : Evol06.state R N NT) :
  (n.+1 < NT)%N -> evol06_inv n st -> step st n = Ok st' ->
  evol06_inv n.+1 st'.
Proof.
move=> Hn [Ht Ha]; rewrite /Evol06.step.
move=> Hst; have [[F_evolution b_evolution] Hop /= [<-]] := bind_Ok_inv Hst.
rewrite addn1 in Hop *; rewrite Ht // in Hop.
split=> [j Hj|k Hk] /=.
  rewrite at1_setitem ?(leq_ltn_trans Hj Hn) //.
  by case: eqP => [->|/eqP Hne] //; rewrite Ht // -ltnS ltn_neqAle Hne.
have Hcol j : (j <= n)%N ->
    getcol (setcol (alpha st) n.+1
              (F_evolution *m getcol (alpha st) n + b_evolution)) j
    = getcol (alpha st) j.
  by move=> Hj; rewrite getcol_setcol_other // neq_ltn ltnS Hj.
rewrite (Hcol _ Hk).
move: Hk; rewrite ltnS leq_eqVlt => /orP [/eqP ->|Hk].
  exists F_evolution, b_evolution; split=> //.
  by rewrite addn1 getcol_setcol.
have [F1 [b1 [H1 H2]]] := Ha _ Hk.
by rewrite addn1 in H2 *; exists F1, b1; rewrite (Hcol _ Hk).
Qed.

Lemma evol06_run_upto_inv (n : nat) (st : Evol06.state R N NT) :
  (n < NT)%N -> run_upto n = Ok st -> evol06_inv n st.
Proof.
elim: n st => [|n IH] st Hn.
  rewrite /Evol06.run_upto /=; case: (compute_evolution_operator _ _) => //= _.
  case=> <-; split=> [j|k] //=.
  by rewrite leqn0 => /eqP ->; rewrite at1_zeros mul0r.
rewrite evol06_run_upto_S => Hst; have [st0 Hst0 Hstep] := bind_Ok_inv Hst.
exact: evol06_step_inv Hn (IH _ (ltnW Hn) Hst0) Hstep.
Qed.

(** The loop returns whenever every matrix it inverts is invertible. *)
Lemma evol06_run_upto_total (n : nat) :
  (forall a s, evol06_implicit_matrix a s \in unitmx) ->
  exists st, run_upto n = Ok st.
Proof.
move=> Hunit; elim: n => [|n [st Hst]].
  rewrite /Evol06.run_upto evol06_operator_unit //=.
  by exists init.
rewrite evol06_run_upto_S Hst /= /Evol06.step evol06_operator_unit //=.
by eexists.
Qed.



End Evol06Theory.

(** ** Products and transposes of sliced arrays *)

Section Blocks.

Variable R : fieldType.

Lemma at2_mulmx (m n p : nat) (A : 'M[R]_(m, n)) (B : 'M[R]_(n, p))
    (i j : nat) :
  (i < m)%N -> (j < p)%N ->
  at2 (A *m B) i j = \sum_(0 <= k < n) at2 A i k * at2 B k j.
Proof.
move=> Hi Hj; rewrite (at2_lt _ Hi Hj) mxE big_mkord.
apply: eq_bigr => k _.
by rewrite (at2_ord A (Ordinal Hi) k) (at2_ord B k (Ordinal Hj)).
Qed.

Lemma at2_trmx (m n : nat) (A : 'M[R]_(m, n)) (i j : nat) :
  at2 A^T i j = at2 A j i.
Proof.
rewrite /at2; case: (insub i) => [i'|]; case: (insub j) => [j'|] //.
by rewrite mxE.
Qed.

Lemma at2_scalar_mx (n : nat) (a : R) (i j : nat) :
  (i < n)%N -> (j < n)%N -> at2 (a%:M : 'M[R]_n) i j = a *+ (i == j).
Proof. by move=> Hi Hj; rewrite (at2_lt _ Hi Hj) mxE. Qed.

Lemma trmx_getslice (h w m n : nat) (A : 'M[R]_(m, n)) (r0 c0 : nat) :
  (getslice h w A r0 c0)^T = getslice w h A^T c0 r0.
Proof. by apply/matrixP => i j; rewrite !mxE at2_trmx. Qed.

Lemma trmx_setslice (m n : nat) (A : 'M[R]_(m, n)) (r0 c0 h w : nat)
    (B : 'M[R]_(h, w)) :
  (setslice A r0 c0 B)^T = setslice A^T c0 r0 B^T.
Proof.
apply/matrixP => i j; rewrite !mxE at2_trmx.
by case: (r0 <= j)%N; case: (j < r0 + h)%N; case: (c0 <= i)%N;
   case: (i < c0 + w)%N.
Qed.

(** A sum over [q] consecutive blocks of width [w]. *)
Lemma sum_nat_blocks (q w : nat) (g : nat -> R) :
  \sum_(0 <= k < q * w) g k =
  \sum_(0 <= j < q) \sum_(0 <= l < w) g (j * w + l)%N.
Proof.
rewrite big_nat_mul; apply: eq_bigr => j _.
rewrite -[X in index_iota X _]add0n big_addn mulSn addnK.
by apply: eq_bigr => l _; rewrite addnC.
Qed.

Lemma sum_nat_split (n1 n2 : nat) (g : nat -> R) :
  \sum_(0 <= k < n1 + n2) g k =
  \sum_(0 <= k < n1) g k + \sum_(0 <= l < n2) g (n1 + l)%N.
Proof.
rewrite (@big_cat_nat _ _ _ n1) ?leq_addr //=; congr (_ + _).
rewrite -[X in index_iota X _]add0n big_addn addKn.
by apply: eq_bigr => l _; rewrite addnC.
Qed.

(** Rows [r0 : r0 + h] of a product, the inner dimension cut in [q]
    blocks of width [w]. *)
Lemma getslice_mulmx_blocks (m q w c h : nat) (A : 'M[R]_(m, q * w))
    (B : 'M[R]_(q * w, c)) (r0 : nat) :
  (r0 + h <= m)%N ->
  getslice h c (A *m B) r0 0 =
  \sum_(0 <= j < q)
     getslice h w A r0 (j * w) *m getslice w c B (j * w) 0.
Proof.
move=> Hr; apply/matrixP => a b; rewrite mxE add0n summxE.
have Ha : (r0 + a < m)%N by apply: leq_trans Hr; rewrite ltn_add2l.
rewrite at2_mulmx // sum_nat_blocks; apply: eq_bigr => j _.
rewrite mxE big_mkord; apply: eq_bigr => l _.
by rewrite !mxE add0n.
Qed.

(** The same with the inner dimension cut in two. *)
Lemma getslice_mulmx_split (m n1 n2 c h : nat) (A : 'M[R]_(m, n1 + n2))
    (B : 'M[R]_(n1 + n2, c)) (r0 : nat) :
  (r0 + h <= m)%N ->
  getslice h c (A *m B) r0 0 =
  getslice h n1 A r0 0 *m getslice n1 c B 0 0
  + getslice h n2 A r0 n1 *m getslice n2 c B n1 0.
Proof.
move=> Hr; apply/matrixP => a b; rewrite !mxE add0n.
have Ha : (r0 + a < m)%N by apply: leq_trans Hr; rewrite ltn_add2l.
rewrite at2_mulmx // sum_nat_split !big_mkord; congr (_ + _).
  by apply: eq_bigr => l _; rewrite !mxE !add0n.
by apply: eq_bigr => l _; rewrite !mxE !add0n.
Qed.

(** Two blocks of the same grid are equal or do not meet. *)
Lemma block_rows_disjoint (h i i' : nat) :
  i != i' -> [|| i' * h + h <= i * h | i * h + h <= i' * h]%N.
Proof.
rewrite neq_ltn => /orP [Hlt|Hlt]; apply/orP; [right|left];
  by rewrite addnC -mulSn leq_mul2r Hlt orbT.
Qed.

Lemma block_in_range (h i p : nat) : (i < p)%N -> (i * h + h <= p * h)%N.
Proof. by move=> Hi; rewrite addnC -mulSn leq_mul2r Hi orbT. Qed.

Lemma getblock_setblock (p q h w : nat) (A : 'M[R]_(p * h, q * w))
    (B : 'M[R]_(h, w)) (i j : nat) :
  (i < p)%N -> (j < q)%N ->
  getslice h w (setslice A (i * h) (j * w) B) (i * h) (j * w) = B.
Proof. by move=> Hi Hj; apply: getslice_setslice; apply: block_in_range. Qed.

Lemma getblock_setblock_other (m n h w : nat) (A : 'M[R]_(m, n))
    (B : 'M[R]_(h, w)) (i j i' j' : nat) :
  (i' != i) || (j' != j) ->
  getslice h w (setslice A (i * h) (j * w) B) (i' * h) (j' * w) =
  getslice h w A (i' * h) (j' * w).
Proof.
move=> Hne; rewrite getslice_setslice_disjoint //.
by case/orP: Hne => [/(block_rows_disjoint h)|/(block_rows_disjoint w)]
  /orP [] ->; rewrite ?orbT.
Qed.

End Blocks.

(** ** [state_iden_12_main.py]: the VAR(p) and continuity matrices *)

Lemma range_rcons (n : nat) : range n.+1 = rcons (range n) n.
Proof. by rewrite (@range_split n n.+1) // subnn cats1. Qed.

Section StackedMatrices.

Variable R : fieldType.
Variables (N_eta Ne_eta eta_p : nat).

Local Notation Nc_eta := (StateIden12.Nc_eta N_eta Ne_eta).

Variable U_eta : 'M[R]_(N_eta, Nc_eta).
Variable UT_eta : 'M[R]_(Nc_eta, N_eta).
Variable eta_A : nat -> 'M[R]_N_eta.

Local Notation A_eta := (StateIden12.A_eta eta_p eta_A).
Local Notation B_eta := (StateIden12.B_eta eta_p eta_A).
Local Notation U_eta_p := (StateIden12.U_eta_p eta_p U_eta).
Local Notation UT_eta_p := (StateIden12.UT_eta_p eta_p UT_eta).

(** Block [(i, j)] of a matrix of [N_eta] by [N_eta] blocks. *)
Definition block_eta (m n : nat) (A : 'M[R]_(m, n)) (i j : nat) : 'M[R]_N_eta :=
  getslice N_eta N_eta A (i * N_eta) (j * N_eta).

(** The loop of lines 74-76 after [n] iterations. *)
Definition A_eta_loop (n : nat) : 'M[R]_(eta_p * N_eta, eta_p * N_eta) :=
  foldl (fun A_eta i =>
           let A_eta := setslice A_eta 0 (i * N_eta)%N (eta_A i) in
           setslice A_eta ((i + 1) * N_eta)%N (i * N_eta)%N
                    (1%:M : 'M[R]_N_eta))
        (zeros R _ _) (range n).

Lemma A_eta_loop_blocks (n i j : nat) :
  (n < eta_p)%N -> (i < eta_p)%N -> (j < eta_p)%N ->
  block_eta (A_eta_loop n) i j =
  if i == 0%N then (if (j < n)%N then eta_A j else 0)
  else if (i == j.+1) && (j < n)%N then 1%:M else 0.
Proof.
rewrite /block_eta; elim: n => [|n IH] Hn Hi Hj.
  by rewrite /A_eta_loop /= getslice_zeros ltn0 andbF; case: ifP.
rewrite /A_eta_loop range_rcons -cats1 foldl_cat /= -/(A_eta_loop n).
have E0 : 0%N = (0 * N_eta)%N by rewrite mul0n.
rewrite addn1 [X in setslice _ X _ (eta_A _)]E0.
have [Hin|Hin] := boolP ((i == n.+1) && (j == n)).
  have /andP [/eqP -> /eqP ->] := Hin.
  by rewrite getblock_setblock ?(ltnW Hn) //= eqxx ltnSn.
rewrite getblock_setblock_other; first by rewrite -negb_and.
have [H0|H0] := boolP ((i == 0%N) && (j == n)).
  have /andP [/eqP -> /eqP ->] := H0.
  by rewrite getblock_setblock ?(ltnW Hn) ?(leq_ltn_trans _ Hn) //= ?ltnSn ?leqnn.
rewrite getblock_setblock_other; first by rewrite -negb_and.
have -> : (j < n.+1)%N = (j == n) || (j < n)%N by rewrite ltnS leq_eqVlt.
rewrite IH ?(ltnW Hn) //.
move: Hin H0; case: (i == 0%N) => /=; first by move=> _ /negbTE ->.
case Hjn: (j == n) => /=; last by [].
by rewrite (eqP Hjn) ltnn !andbT => /negbTE ->.
Qed.

(** Lines 73-77: the top block-row of [A_eta] holds the autoregressive
    coefficients, the block sub-diagonal holds identities, and every other
    block is zero. *)
Lemma A_eta_blocks (i j : nat) :
  (i < eta_p)%N -> (j < eta_p)%N ->
  block_eta A_eta i j =
  if i == 0%N then eta_A j else if i == j.+1 then 1%:M else 0.
Proof.
move=> Hi Hj; have Hp : (0 < eta_p)%N by apply: leq_ltn_trans Hi.
have Hp1 : (eta_p - 1 < eta_p)%N by rewrite subn1 ltn_predL.
rewrite /block_eta /StateIden12.A_eta -/(A_eta_loop (eta_p - 1)).
have E0 : 0%N = (0 * N_eta)%N by rewrite mul0n.
rewrite [X in setslice _ X _ (eta_A _)]E0.
have [H0|H0] := boolP ((i == 0%N) && (j == (eta_p - 1)%N)).
  have /andP [/eqP -> /eqP ->] := H0.
  by rewrite getblock_setblock.
rewrite getblock_setblock_other; first by rewrite -negb_and.
rewrite -/(block_eta _ i j) A_eta_loop_blocks //.
have Hjp : (j < eta_p - 1)%N = (j != (eta_p - 1)%N).
  by rewrite ltn_neqAle subn1 -ltnS prednK // Hj andbT.
rewrite Hjp; move: H0; case: (i == 0%N) => /=.
  by move=> ->.
move=> _; case Hij: (i == j.+1) => //=.
rewrite -Hjp subn1 -ltnS prednK // -(eqP Hij) Hi //.
Qed.

(** Block row [i] of [A_eta *m v], for any stacked vector [v]. *)
Lemma A_eta_mul_block (c : nat) (v : 'M[R]_(eta_p * N_eta, c)) (i : nat) :
  (i < eta_p)%N ->
  getslice N_eta c (A_eta *m v) (i * N_eta) 0 =
  \sum_(0 <= j < eta_p) block_eta A_eta i j *m getslice N_eta c v (j * N_eta) 0.
Proof.
by move=> Hi; rewrite getslice_mulmx_blocks // block_in_range.
Qed.

(** The shift: below the top block, [A_eta] moves block [i - 1] of its
    argument to block [i]. *)
Lemma A_eta_shift (c : nat) (v : 'M[R]_(eta_p * N_eta, c)) (i : nat) :
  (0 < i)%N -> (i < eta_p)%N ->
  getslice N_eta c (A_eta *m v) (i * N_eta) 0 =
  getslice N_eta c v ((i - 1) * N_eta) 0.
Proof.
move=> Hi0 Hi; rewrite A_eta_mul_block //.
have Eterm j : (0 <= j < eta_p)%N ->
    block_eta A_eta i j *m getslice N_eta c v (j * N_eta) 0 =
    if j == (i - 1)%N then getslice N_eta c v (j * N_eta) 0 else 0.
  move=> /andP [_ Hj]; rewrite A_eta_blocks //.
  rewrite -[i in LHS]prednK // -[i in RHS]prednK //= eqSS subn1 /= eq_sym.
  by case: eqP => _; rewrite ?mul1mx ?mul0mx.
rewrite (eq_big_nat _ _ Eterm) -big_mkcond big_nat1_eq /= subn1.
by rewrite (leq_ltn_trans (leq_pred i) Hi).
Qed.

(** The top block of [A_eta *m v] is the autoregression. *)
Lemma A_eta_top (c : nat) (v : 'M[R]_(eta_p * N_eta, c)) :
  (0 < eta_p)%N ->
  getslice N_eta c (A_eta *m v) 0 0 =
  \sum_(0 <= j < eta_p) eta_A j *m getslice N_eta c v (j * N_eta) 0.
Proof.
move=> Hp; rewrite -[X in getslice _ _ _ X 0](mul0n N_eta) A_eta_mul_block //.
by apply: eq_big_nat => j /andP [_ Hj]; rewrite A_eta_blocks.
Qed.

(** Lines 80-82 after [n] iterations, and the blocks of [B_eta]. *)
Definition B_eta_loop (n : nat) : 'M[R]_(N_eta, eta_p * N_eta) :=
  foldl (fun B_eta i => setslice B_eta 0 (i * N_eta)%N (eta_A i))
        (zeros R _ _) (range n).

Lemma B_eta_loop_blocks (n j : nat) :
  (n <= eta_p)%N -> (j < eta_p)%N ->
  getslice N_eta N_eta (B_eta_loop n) 0 (j * N_eta) =
  if (j < n)%N then eta_A j else 0.
Proof.
elim: n => [|n IH] Hn Hj; first by rewrite /B_eta_loop /= getslice_zeros.
rewrite /B_eta_loop range_rcons -cats1 foldl_cat /= -/(B_eta_loop n).
rewrite ltnS leq_eqVlt; case: eqP => [->|/eqP Hjn] /=.
  by rewrite getslice_setslice // ?add0n // block_in_range.
rewrite getslice_setslice_disjoint ?IH ?(ltnW Hn) //.
by have /orP [] := block_rows_disjoint N_eta Hjn => ->; rewrite ?orbT.
Qed.

Lemma B_eta_blocks (j : nat) :
  (j < eta_p)%N ->
  getslice N_eta N_eta B_eta 0 (j * N_eta) =
  if j == 0%N then eta_A 0 + 1%:M else eta_A j.
Proof.
move=> Hj; have Hp : (0 < eta_p)%N by apply: leq_ltn_trans Hj.
rewrite /StateIden12.B_eta -/(B_eta_loop eta_p).
have H0 := @B_eta_loop_blocks eta_p 0 (leqnn _) Hp.
rewrite mul0n Hp in H0; rewrite H0.
case: eqP => [->|/eqP Hj0].
  rewrite mul0n getslice_setslice // ?add0n //.
  by rewrite -{1}[N_eta]mul1n leq_mul2r Hp orbT.
rewrite getslice_setslice_disjoint ?B_eta_loop_blocks ?Hj //.
have /orP [H|H] := block_rows_disjoint N_eta Hj0; rewrite mul0n in H.
  by rewrite add0n in H; rewrite add0n H !orbT.
by rewrite H !orbT.
Qed.

(** Transposing the stacked continuity matrices. *)
Lemma trmx_foldl_setslice (m n h w : nat) (B : 'M[R]_(h, w))
    (r c : nat -> nat) (ks : seq nat) (A0 : 'M[R]_(m, n)) :
  (foldl (fun A i => setslice A (r i) (c i) B) A0 ks)^T =
  foldl (fun A i => setslice A (c i) (r i) B^T) A0^T ks.
Proof. by elim: ks A0 => [|k ks IH] A0 //=; rewrite IH trmx_setslice. Qed.

Lemma trmx_U_eta_p : UT_eta = U_eta^T -> U_eta_p^T = UT_eta_p.
Proof.
move=> ->; rewrite /StateIden12.U_eta_p /StateIden12.UT_eta_p.
by rewrite trmx_foldl_setslice /zeros trmx0.
Qed.

End StackedMatrices.

(** ** [state_iden_12_main.py]: the linearisation of the joint state *)

Section SliceAlgebra.

Variable R : fieldType.

Lemma getslice_full (m n : nat) (A : 'M[R]_(m, n)) : getslice m n A 0 0 = A.
Proof. by apply/matrixP => i j; rewrite mxE !add0n at2_ord. Qed.

Lemma at2_add (m n : nat) (A B : 'M[R]_(m, n)) (i j : nat) :
  at2 (A + B) i j = at2 A i j + at2 B i j.
Proof.
rewrite /at2; case: (insub i) => [i'|]; last by rewrite addr0.
by case: (insub j) => [j'|]; rewrite ?mxE ?addr0.
Qed.

Lemma getslice_add (h w m n : nat) (A B : 'M[R]_(m, n)) (r0 c0 : nat) :
  getslice h w (A + B) r0 c0 = getslice h w A r0 c0 + getslice h w B r0 c0.
Proof. by apply/matrixP => i j; rewrite !mxE at2_add. Qed.

(** Entries of a slice that was never written are those of the array. *)
Lemma at1_getrange (h m : nat) (v : 'cV[R]_m) (r0 i : nat) :
  (i < h)%N -> at1 (getrange h v r0) i = at1 v (r0 + i).
Proof. by move=> Hi; rewrite /at1 /getrange at2_getslice Hi /= addn0. Qed.

End SliceAlgebra.

Section JointLinearizer.

Variable R : fieldType.
Variables (N N_eta Ne_eta eta_p : nat) (dt : R).

Local Notation Nc_eta := (StateIden12.Nc_eta N_eta Ne_eta).
Local Notation Nx := (StateIden12.Nx N N_eta Ne_eta eta_p).

Variable U_eta : 'M[R]_(N_eta, Nc_eta).
Variable UT_eta : 'M[R]_(Nc_eta, N_eta).
Variable eta_A : nat -> 'M[R]_N_eta.
Variable F_alpha_eval : 'cV[R]_(N + N_eta) -> R -> 'cV[R]_N.

Local Notation A_eta := (StateIden12.A_eta eta_p eta_A).
Local Notation B_eta := (StateIden12.B_eta eta_p eta_A).
Local Notation C_eta := (StateIden12.C_eta R N_eta Ne_eta eta_p).
Local Notation U_eta_p := (StateIden12.U_eta_p eta_p U_eta).
Local Notation UT_eta_p := (StateIden12.UT_eta_p eta_p UT_eta).
Local Notation x_star_of := (@StateIden12.x_star_of R N N_eta Ne_eta eta_p U_eta).
Local Notation compute_evolution_operator :=
  (@StateIden12.compute_evolution_operator R N N_eta Ne_eta eta_p dt
     U_eta UT_eta eta_A F_alpha_eval).

(** [C_eta] extracts the current lag of a stacked reduced vector. *)
Lemma C_eta_current (c : nat) (w : 'M[R]_(eta_p * Nc_eta, c)) :
  (0 < eta_p)%N -> C_eta *m w = getslice Nc_eta c w 0 0.
Proof.
move=> Hp; rewrite -[LHS]getslice_full getslice_mulmx_blocks ?add0n //.
rewrite big_ltn // mul0n big1_seq ?addr0 => [j /=|].
  rewrite mem_index_iota => /andP [Hj _].
  rewrite /StateIden12.C_eta getslice_setslice_disjoint.
    by rewrite !add0n leq_pmull ?orbT.
  by rewrite getslice_zeros mul0mx.
rewrite /StateIden12.C_eta getslice_setslice ?add0n ?mul1mx //.
by rewrite leq_pmull.
Qed.

(** Lines 120-126: the unconstrained state has the [alpha] of the joint
    state and the expansion [U_eta *m eta_c] of its current lag. *)
Lemma x_star_alpha (x : 'cV[R]_Nx) :
  getrange N (x_star_of x) 0 = getrange N x 0.
Proof.
rewrite /StateIden12.x_star_of /getrange /setrange.
rewrite getslice_setslice_disjoint ?add0n ?leqnn ?orbT //.
rewrite getslice_setslice ?add0n ?leq_addr //.
rewrite getslice_setslice_disjoint ?add0n ?leqnn ?orbT //.
by rewrite getslice_setslice ?add0n ?leq_addr.
Qed.

Lemma x_star_eta (x : 'cV[R]_Nx) :
  (0 < eta_p)%N ->
  getrange N_eta (x_star_of x) N = U_eta *m getrange Nc_eta x N.
Proof.
move=> Hp; rewrite /StateIden12.x_star_of /getrange /setrange.
rewrite getslice_setslice ?leqnn // getslice_setslice ?leqnn //.
rewrite C_eta_current //; congr (_ *m _).
apply/matrixP => i j; rewrite !mxE !add0n at2_getslice ltn_ord andbT.
suff -> : (i < eta_p * Nc_eta)%N by [].
by apply: leq_trans (ltn_ord i) _; rewrite leq_pmull.
Qed.

(** The bias [eval(x, t) - J_alpha alpha - J_eta eta] of the
    linearisation at [x_tilde_c_star]. *)
Definition joint_bias (x_tilde_c_star : 'cV[R]_Nx) (t_star : R)
    (J_alpha_star : 'M[R]_N) (J_eta_star : 'M[R]_(N, N_eta)) : 'cV[R]_N :=
  let x_star := x_star_of x_tilde_c_star in
  F_alpha_eval x_star t_star - J_alpha_star *m getrange N x_star 0
  - J_eta_star *m getrange N_eta x_star N.

(** Lines 141-145 and 147-148: the arrays assembled from the multiplier
    [M], written here as functions of [M]. *)
Definition joint_F_evolution (matrix_multiplier : 'M[R]_N)
    (J_alpha_star : 'M[R]_N) (J_eta_star : 'M[R]_(N, N_eta)) : 'M[R]_Nx :=
  let F_evol_alpha :=
    matrix_multiplier *m (1%:M + (dt / 2%:R) *: J_alpha_star) in
  let F_evol_eta :=
    matrix_multiplier *m ((dt / 2%:R) *: J_eta_star) *m B_eta *m U_eta_p in
  setslice
    (setslice (setslice (zeros R Nx Nx) 0 0 F_evol_alpha) 0 N F_evol_eta)
    N N (UT_eta_p *m (A_eta *m U_eta_p)).

Definition joint_b_evolution (matrix_multiplier : 'M[R]_N)
    (F_star : 'cV[R]_N) : 'cV[R]_Nx :=
  setrange (zeros R Nx 1) 0 (matrix_multiplier *m (dt *: F_star)).

Lemma joint_operator_unit (x : 'cV[R]_Nx) (t_star : R)
    (J_alpha_star : 'M[R]_N) (J_eta_star : 'M[R]_(N, N_eta)) :
  1%:M - (dt / 2%:R) *: J_alpha_star \in unitmx ->
  let M := invmx (1%:M - (dt / 2%:R) *: J_alpha_star) in
  compute_evolution_operator x t_star J_alpha_star J_eta_star =
  Ok (joint_F_evolution M J_alpha_star J_eta_star,
      joint_b_evolution M (joint_bias x t_star J_alpha_star J_eta_star)).
Proof.
by move=> HA; rewrite /StateIden12.compute_evolution_operator linalg_inv_unit.
Qed.

Lemma joint_operator_singular (x : 'cV[R]_Nx) (t_star : R)
    (J_alpha_star : 'M[R]_N) (J_eta_star : 'M[R]_(N, N_eta)) :
  1%:M - (dt / 2%:R) *: J_alpha_star \notin unitmx ->
  compute_evolution_operator x t_star J_alpha_star J_eta_star =
  Raise LinAlgError.
Proof.
move=> HA; rewrite /StateIden12.compute_evolution_operator.
by rewrite linalg_inv_singular.
Qed.

Lemma joint_operator_Ok (x : 'cV[R]_Nx) (t_star : R)
    (J_alpha_star : 'M[R]_N) (J_eta_star : 'M[R]_(N, N_eta)) Fb :
  compute_evolution_operator x t_star J_alpha_star J_eta_star = Ok Fb ->
  1%:M - (dt / 2%:R) *: J_alpha_star \in unitmx.
Proof.
by case: (boolP (_ \in unitmx)) => // /(joint_operator_singular x t_star) ->.
Qed.

(** The four blocks of [F_evolution]. *)
Section Blocks.

Variables (M J_alpha_star : 'M[R]_N) (J_eta_star : 'M[R]_(N, N_eta)).

Local Notation F_evolution := (joint_F_evolution M J_alpha_star J_eta_star).

Lemma joint_F_alpha_alpha :
  getslice N N F_evolution 0 0 = M *m (1%:M + (dt / 2%:R) *: J_alpha_star).
Proof.
rewrite /joint_F_evolution.
rewrite getslice_setslice_disjoint ?add0n ?leqnn ?orbT //.
rewrite getslice_setslice_disjoint ?add0n ?leqnn ?orbT //.
by rewrite getslice_setslice ?add0n ?leq_addr.
Qed.

Lemma joint_F_alpha_eta :
  getslice N (eta_p * Nc_eta) F_evolution 0 N =
  M *m ((dt / 2%:R) *: J_eta_star) *m B_eta *m U_eta_p.
Proof.
rewrite /joint_F_evolution.
rewrite getslice_setslice_disjoint ?add0n ?leqnn ?orbT //.
by rewrite getslice_setslice ?add0n ?leq_addr ?leqnn.
Qed.

Lemma joint_F_eta_alpha : getslice (eta_p * Nc_eta) N F_evolution N 0 = 0.
Proof.
rewrite /joint_F_evolution.
rewrite getslice_setslice_disjoint ?add0n ?leqnn ?orbT //.
rewrite getslice_setslice_disjoint ?add0n ?leqnn ?orbT //.
rewrite getslice_setslice_disjoint ?add0n ?leqnn ?orbT //.
by rewrite getslice_zeros.
Qed.

Lemma joint_F_eta_eta :
  getslice (eta_p * Nc_eta) (eta_p * Nc_eta) F_evolution N N =
  UT_eta_p *m (A_eta *m U_eta_p).
Proof. by rewrite /joint_F_evolution getslice_setslice ?leqnn. Qed.

(** One product with [F_evolution] propagates both blocks. *)
Lemma joint_F_mul_alpha (x : 'cV[R]_Nx) :
  getrange N (F_evolution *m x) 0 =
  M *m (1%:M + (dt / 2%:R) *: J_alpha_star) *m getrange N x 0
  + M *m ((dt / 2%:R) *: J_eta_star) *m B_eta *m U_eta_p
    *m getrange (eta_p * Nc_eta) x N.
Proof.
rewrite /getrange (@getslice_mulmx_split _ _ N (eta_p * Nc_eta)) ?add0n ?leq_addr //.
by rewrite joint_F_alpha_alpha joint_F_alpha_eta.
Qed.

Lemma joint_F_mul_eta (x : 'cV[R]_Nx) :
  getrange (eta_p * Nc_eta) (F_evolution *m x) N =
  UT_eta_p *m (A_eta *m U_eta_p) *m getrange (eta_p * Nc_eta) x N.
Proof.
rewrite /getrange (@getslice_mulmx_split _ _ N (eta_p * Nc_eta)) ?leqnn //.
by rewrite joint_F_eta_alpha joint_F_eta_eta mul0mx add0r.
Qed.

End Blocks.

(** The two blocks of [b_evolution]. *)
Lemma joint_b_alpha (M : 'M[R]_N) (F_star : 'cV[R]_N) :
  getrange N (joint_b_evolution M F_star) 0 = M *m (dt *: F_star).
Proof.
by rewrite /joint_b_evolution /getrange /setrange getslice_setslice
     ?add0n ?leq_addr.
Qed.

Lemma joint_b_eta (M : 'M[R]_N) (F_star : 'cV[R]_N) :
  getrange (eta_p * Nc_eta) (joint_b_evolution M F_star) N = 0.
Proof.
rewrite /joint_b_evolution /getrange /setrange.
by rewrite getslice_setslice_disjoint ?add0n ?leqnn ?orbT // getslice_zeros.
Qed.

End JointLinearizer.

(** ** [state_iden_12_main.py]: the filter loop *)


Lemma bind_Ok (A B : Type) (a : A) (k : A -> result B) : bind (Ok a) k = k a.
Proof. by []. Qed.

Section FilterLoop.

Variable R : fieldType.
Variables (N N_eta Ne_eta eta_p NT M : nat) (dt : R).

Local Notation Nc_eta := (StateIden12.Nc_eta N_eta Ne_eta).
Local Notation Nx := (StateIden12.Nx N N_eta Ne_eta eta_p).

Variable U_eta : 'M[R]_(N_eta, Nc_eta).
Variable UT_eta : 'M[R]_(Nc_eta, N_eta).
Variable eta_A : nat -> 'M[R]_N_eta.
Variable F_alpha_eval : 'cV[R]_(N + N_eta) -> R -> 'cV[R]_N.
Variable dF_alpha_d_alpha : 'cV[R]_(N + N_eta) -> R -> 'M[R]_N.
Variable dF_alpha_d_eta : 'cV[R]_(N + N_eta) -> R -> 'M[R]_(N, N_eta).
Variable Y : 'M[R]_(M, NT).
Variable Gamma_alpha_w : 'M[R]_N.
Variable Gamma_eta_w : 'M[R]_N_eta.
Variable alpha_prior : 'cV[R]_N.
Variable Gamma_alpha_prior : 'M[R]_N.
Variable eta_prior : 'cV[R]_N_eta.
Variable Gamma_eta_prior : 'M[R]_N_eta.

Local Notation Kalman_filter := (StateIden12.Kalman_filter R N N_eta Ne_eta eta_p).
Local Notation state := (StateIden12.state R N N_eta Ne_eta eta_p NT).

Variable predict :
  Kalman_filter -> 'cV[R]_Nx -> 'M[R]_Nx -> nat -> result ('cV[R]_Nx * 'M[R]_Nx).
Variable update :
  Kalman_filter -> 'cV[R]_Nx -> 'M[R]_Nx -> 'cV[R]_M -> nat ->
  result ('cV[R]_Nx * 'M[R]_Nx).

Local Notation Jacobians :=
  (@StateIden12.compute_evolution_operator_Jacobians R N N_eta Ne_eta eta_p
     U_eta dF_alpha_d_alpha dF_alpha_d_eta).
Local Notation compute_evolution_operator :=
  (@StateIden12.compute_evolution_operator R N N_eta Ne_eta eta_p dt
     U_eta UT_eta eta_A F_alpha_eval).
Local Notation alpha_covariance :=
  (@StateIden12.compute_evolution_operator_alpha_covariance R N N_eta Ne_eta
     eta_p dt U_eta UT_eta).
Local Notation Gamma_tilde_c_w :=
  (@StateIden12.Gamma_tilde_c_w R N N_eta Ne_eta eta_p U_eta UT_eta
     Gamma_alpha_w Gamma_eta_w).
Local Notation step :=
  (@StateIden12.step R N N_eta Ne_eta eta_p NT M dt U_eta UT_eta eta_A
     F_alpha_eval dF_alpha_d_alpha dF_alpha_d_eta Y predict update).
Local Notation init :=
  (@StateIden12.init R N N_eta Ne_eta eta_p NT U_eta UT_eta Gamma_alpha_w
     Gamma_eta_w alpha_prior Gamma_alpha_prior eta_prior Gamma_eta_prior).
Local Notation run_upto :=
  (@StateIden12.run_upto R N N_eta Ne_eta eta_p NT M dt U_eta UT_eta eta_A
     F_alpha_eval dF_alpha_d_alpha dF_alpha_d_eta Y Gamma_alpha_w Gamma_eta_w
     alpha_prior Gamma_alpha_prior eta_prior Gamma_eta_prior predict update).
Local Notation run :=
  (@StateIden12.run R N N_eta Ne_eta eta_p NT M dt U_eta UT_eta eta_A
     F_alpha_eval dF_alpha_d_alpha dF_alpha_d_eta Y Gamma_alpha_w Gamma_eta_w
     alpha_prior Gamma_alpha_prior eta_prior Gamma_eta_prior predict update).

Local Notation x_tilde_c := (@StateIden12.x_tilde_c R N N_eta Ne_eta eta_p NT).
Local Notation Gamma_tilde_c :=
  (@StateIden12.Gamma_tilde_c R N N_eta Ne_eta eta_p NT).
Local Notation x_tilde_c_predict :=
  (@StateIden12.x_tilde_c_predict R N N_eta Ne_eta eta_p NT).
Local Notation Gamma_tilde_c_predict :=
  (@StateIden12.Gamma_tilde_c_predict R N N_eta Ne_eta eta_p NT).
Local Notation F := (@StateIden12.F R N N_eta Ne_eta eta_p NT).
Local Notation b := (@StateIden12.b R N N_eta Ne_eta eta_p NT).
Local Notation t := (@StateIden12.t R N N_eta Ne_eta eta_p NT).
Local Notation model := (@StateIden12.model R N N_eta Ne_eta eta_p NT).
Local Notation Gamma_w := (@StateIden12.Gamma_w R N N_eta Ne_eta eta_p).
Local Notation model_F := (@StateIden12.model_F R N N_eta Ne_eta eta_p).
Local Notation additive_evolution_vector :=
  (@StateIden12.additive_evolution_vector R N N_eta Ne_eta eta_p).

(** The matrix [I - (dt/2) J_alpha] inverted at [(x, t)]. *)
Definition joint_implicit_matrix (x : 'cV[R]_Nx) (t_star : R) : 'M[R]_N :=
  1%:M - (dt / 2%:R) *: (Jacobians x t_star).1.

(** The term [(dt^2/4) M (J_eta Gamma_eta J_eta^T) M^T] that an iteration
    at [(x, t)] adds to the [alpha] block of the process noise [G]. *)
Definition eta_induced_covariance (G : 'M[R]_Nx) (x : 'cV[R]_Nx) (t_star : R)
    : 'M[R]_N :=
  let J_eta_star := (Jacobians x t_star).2 in
  let matrix_multiplier := invmx (joint_implicit_matrix x t_star) in
  let Gamma_eta := U_eta *m (getslice Nc_eta Nc_eta G N N *m UT_eta) in
  (dt ^+ 2 / 4%:R)
  *: (matrix_multiplier
      *m (J_eta_star *m (Gamma_eta *m J_eta_star^T) *m matrix_multiplier^T)).

Lemma alpha_covariance_unit (G : 'M[R]_Nx) (x : 'cV[R]_Nx) (t_star : R) :
  joint_implicit_matrix x t_star \in unitmx ->
  alpha_covariance G (Jacobians x t_star).1 (Jacobians x t_star).2 =
  Ok (getslice N N G 0 0 + eta_induced_covariance G x t_star).
Proof.
rewrite /joint_implicit_matrix => HA.
rewrite /StateIden12.compute_evolution_operator_alpha_covariance.
rewrite (linalg_inv_unit HA) bind_Ok /eta_induced_covariance
  /joint_implicit_matrix.
cbv zeta.
have Hd : [|| (0 + N <= N)%N, (N + Nc_eta <= 0)%N, (0 + N <= N)%N
            | (N + Nc_eta <= 0)%N] by rewrite add0n leqnn.
rewrite (getslice_setslice_disjoint _ _ Hd).
rewrite (getslice_setslice _ _ (leq_addr _ _ : (0 + N <= N + Nc_eta)%N)
           (leq_addr _ _ : (0 + N <= N + Nc_eta)%N)).
by rewrite (getslice_setslice _ _ (leqnn (N + Nc_eta)) (leqnn (N + Nc_eta))).
Qed.

(** What one iteration of the loop computes, from its success. *)
Record step_spec (st : state) (k : nat) (st' : state) : Prop := StepSpec {
  step_unit : joint_implicit_matrix (getcol (x_tilde_c st) k) (at1 (t st) k)
                \in unitmx;
  step_operator :
    let x_k := getcol (x_tilde_c st) k in
    let t_k := at1 (t st) k in
    exists F_k b_k,
      [/\ compute_evolution_operator x_k t_k (Jacobians x_k t_k).1
            (Jacobians x_k t_k).2 = Ok (F_k, b_k),
          F st' = setmx (F st) k F_k & b st' = setcol (b st) k b_k];
  step_model :
    model_F (model st') = getmx (F st') k
    /\ additive_evolution_vector (model st') = getcol (b st') k;
  step_Gamma_w :
    Gamma_w (model st') =
    setslice (Gamma_w (model st)) 0 0
      (getslice N N (Gamma_w (model st)) 0 0
       + eta_induced_covariance (Gamma_w (model st))
           (getcol (x_tilde_c st) k) (at1 (t st) k));
  step_predict :
    exists x_predict Gamma_predict,
      [/\ predict (model st') (getcol (x_tilde_c st) k)
            (getmx (Gamma_tilde_c st) k) k = Ok (x_predict, Gamma_predict),
          x_tilde_c_predict st'
            = setcol (x_tilde_c_predict st) (k + 1) x_predict
        & Gamma_tilde_c_predict st'
            = setmx (Gamma_tilde_c_predict st) (k + 1) Gamma_predict];
  step_update :
    exists x_update Gamma_update,
      [/\ update (model st') (getcol (x_tilde_c_predict st') (k + 1))
            (getmx (Gamma_tilde_c_predict st') (k + 1))
            (getcol Y (k + 1)) k = Ok (x_update, Gamma_update),
          x_tilde_c st' = setcol (x_tilde_c st) (k + 1) x_update
        & Gamma_tilde_c st' = setmx (Gamma_tilde_c st) (k + 1) Gamma_update];
  step_t : t st' = setitem (t st) (k + 1) ((k + 1)%:R * dt)
}.

Lemma step_Ok (st st' : state) (k : nat) :
  step st k = Ok st' -> step_spec st k st'.
Proof.
rewrite /StateIden12.step.
set x_k := getcol (x_tilde_c st) k; set t_k := at1 (t st) k.
rewrite [Jacobians x_k t_k]surjective_pairing.
move=> H1; have [[F_k b_k] Hop /= {H1}H2] := bind_Ok_inv H1.
have Hunit := joint_operator_Ok Hop.
move: H2; rewrite alpha_covariance_unit //= => H2.
have [[x_predict Gamma_predict] Hpred /= {H2}H3] := bind_Ok_inv H2.
have [[x_update Gamma_update] Hupd /= [<-]] := bind_Ok_inv H3.
split=> //=.
- by exists F_k, b_k.
- by exists x_predict, Gamma_predict.
- by exists x_update, Gamma_update.
Qed.

Lemma run_upto_S (n : nat) :
  run_upto n.+1 = (st <- run_upto n ;; step st n).
Proof. exact: for_range_S. Qed.



(** Iteration [n] writes column [n + 1] of the trajectories and entry [n]
    of the operators: what earlier iterations wrote is kept. *)
Lemma step_frame (st st' : state) (n : nat) :
  step_spec st n st' ->
  [/\ forall k, (k <= n)%N ->
        [/\ getcol (x_tilde_c st') k = getcol (x_tilde_c st) k,
            getmx (Gamma_tilde_c st') k = getmx (Gamma_tilde_c st) k,
            getcol (x_tilde_c_predict st') k = getcol (x_tilde_c_predict st) k,
            getmx (Gamma_tilde_c_predict st') k
              = getmx (Gamma_tilde_c_predict st) k
          & (k < NT)%N -> at1 (t st') k = at1 (t st) k]
    & forall k, (k < n)%N ->
        getmx (F st') k = getmx (F st) k /\ getcol (b st') k = getcol (b st) k].
Proof.
case=> _ [F_k [b_k [_ HF Hb]]] _ _ [xp [Gp [_ Hxp HGp]]] [xu [Gu [_ Hxu HGu]]] Ht.
split=> k Hk.
  have Hne : k != (n + 1)%N by rewrite addn1 neq_ltn ltnS Hk.
  rewrite Hxu HGu Hxp HGp Ht !getcol_setcol_other // !getmx_setmx.
  by rewrite (negbTE Hne); split=> // Hlt; rewrite at1_setitem // (negbTE Hne).
have Hne : k != n by rewrite neq_ltn Hk.
by rewrite HF Hb getmx_setmx (negbTE Hne) getcol_setcol_other.
Qed.

(** Iteration [k] as recorded in the arrays: the operator stored in
    [F[k]], [b[:, k]] is the linearisation at the filtered state
    [x_tilde_c[:, k]] and time [k dt], and a filter holding it produced
    the prediction and the update of index [k + 1]. *)
Definition step_done (st : state) (k : nat) : Prop :=
  let x_k := getcol (x_tilde_c st) k in
  let t_k := k%:R * dt in
  [/\ joint_implicit_matrix x_k t_k \in unitmx,
      compute_evolution_operator x_k t_k (Jacobians x_k t_k).1
        (Jacobians x_k t_k).2 = Ok (getmx (F st) k, getcol (b st) k)
    & exists m : Kalman_filter,
        [/\ model_F m = getmx (F st) k,
            additive_evolution_vector m = getcol (b st) k,
            predict m x_k (getmx (Gamma_tilde_c st) k) k
              = Ok (getcol (x_tilde_c_predict st) (k + 1),
                    getmx (Gamma_tilde_c_predict st) (k + 1))
          & update m (getcol (x_tilde_c_predict st) (k + 1))
              (getmx (Gamma_tilde_c_predict st) (k + 1))
              (getcol Y (k + 1)) k
              = Ok (getcol (x_tilde_c st) (k + 1),
                    getmx (Gamma_tilde_c st) (k + 1))]].

Lemma eta_induced_covariance_eta_block (G G' : 'M[R]_Nx) (x : 'cV[R]_Nx)
    (t_star : R) :
  getslice Nc_eta Nc_eta G N N = getslice Nc_eta Nc_eta G' N N ->
  eta_induced_covariance G x t_star = eta_induced_covariance G' x t_star.
Proof. by rewrite /eta_induced_covariance => ->. Qed.

(** What [n] iterations of the filter loop have established. *)
Definition filter_inv (n : nat) (st : state) : Prop :=
  [/\ forall j, (j <= n)%N -> at1 (t st) j = j%:R * dt,
      forall k, (k < n)%N -> step_done st k,
      getslice Nc_eta Nc_eta (Gamma_w (model st)) N N
        = getslice Nc_eta Nc_eta Gamma_tilde_c_w N N
    & getslice N N (Gamma_w (model st)) 0 0
        = Gamma_alpha_w
          + \sum_(0 <= k < n)
              eta_induced_covariance Gamma_tilde_c_w
                (getcol (x_tilde_c st) k) (k%:R * dt)].

Lemma filter_inv_init : filter_inv 0 init.
Proof.
split=> [j|k|//|] //=.
- by rewrite leqn0 => /eqP ->; rewrite at1_zeros mul0r.
- rewrite big_geq // addr0 /StateIden12.Gamma_tilde_c_w.
  rewrite getslice_setslice_disjoint ?add0n ?leqnn ?orbT //.
  by rewrite getslice_setslice ?add0n ?leq_addr.
Qed.

Lemma filter_inv_step (n : nat) (st st' : state) :
  (n.+1 < NT)%N -> filter_inv n st -> step_spec st n st' ->
  filter_inv n.+1 st'.
Proof.
move=> Hn [Ht Hdone HGeta HGalpha] Hspec.
have [Hkeep HkeepF] := step_frame Hspec.
have [Hunit [F_k [b_k [Hop HF Hb]]] [HmF Hmb] HGw
      [xp [Gp [Hpred Hxp HGp]]] [xu [Gu [Hupd Hxu HGu]]] Hst] := Hspec.
have Hn' : (n < NT)%N := ltnW Hn.
rewrite (Ht n (leqnn n)) in Hunit Hop HGw.
split.
- move=> j; rewrite leq_eqVlt ltnS => /orP [/eqP ->|Hj].
    by rewrite Hst at1_setitem // addn1 eqxx.
  have [_ _ _ _ Hat] := Hkeep j Hj.
  by rewrite Hat ?(leq_ltn_trans Hj Hn') // Ht.
- move=> k; rewrite ltnS leq_eqVlt => /orP [/eqP ->|Hk]; last first.
    have [Hu Hc [m [H1 H2 H3 H4]]] := Hdone k Hk.
    have [Ex EG _ _ _] := Hkeep k (ltnW Hk).
    have Hk1 : (k + 1 <= n)%N by rewrite addn1.
    have [Ex1 EG1 Exp EGp _] := Hkeep (k + 1)%N Hk1.
    have [EF Eb] := HkeepF k Hk.
    rewrite /step_done Ex EG Ex1 EG1 Exp EGp EF Eb; split=> //.
    by exists m.
  have [Ex EG _ _ _] := Hkeep n (leqnn n).
  rewrite /step_done Ex EG; split=> //.
    by rewrite HF Hb getmx_setmx eqxx getcol_setcol.
  have Hn1 : (n + 1 < NT)%N by rewrite addn1.
  exists (model st'); split=> //.
    by rewrite Hxp HGp getcol_setcol // getmx_setmx eqxx.
  by rewrite [in RHS]Hxu [in RHS]HGu getcol_setcol // getmx_setmx eqxx.
- rewrite HGw getslice_setslice_disjoint ?add0n ?leqnn ?orbT //.
- rewrite HGw (getslice_setslice _ _ (leq_addr _ _ : (0 + N <= Nx)%N)
                  (leq_addr _ _ : (0 + N <= Nx)%N)).
  rewrite HGalpha (big_nat_recr _ _ _ (leq0n n)).
  have Hsum :
    \sum_(0 <= k < n)
       eta_induced_covariance Gamma_tilde_c_w (getcol (x_tilde_c st') k)
         (k%:R * dt)
    = \sum_(0 <= k < n)
       eta_induced_covariance Gamma_tilde_c_w (getcol (x_tilde_c st) k)
         (k%:R * dt).
    apply: eq_big_nat => k /andP [_ Hk].
    by have [-> _ _ _ _] := Hkeep k (ltnW Hk).
  have [Hxn _ _ _ _] := Hkeep n (leqnn n).
  rewrite [in RHS]Hsum [in RHS]Hxn.
  by rewrite (eta_induced_covariance_eta_block _ _ HGeta) addrA.
Qed.

Lemma run_upto_inv (n : nat) (st : state) :
  (n < NT)%N -> run_upto n = Ok st -> filter_inv n st.
Proof.
elim: n st => [|n IH] st Hn; first by case=> <-; exact: filter_inv_init.
rewrite run_upto_S => Hst; have [st0 Hst0 Hstep] := bind_Ok_inv Hst.
exact: filter_inv_step Hn (IH _ (ltnW Hn) Hst0) (step_Ok Hstep).
Qed.

(** The loop returns whenever every linearisation is regular and the
    filter's prediction and update return. *)
Lemma run_upto_total (n : nat) :
  (forall x s, joint_implicit_matrix x s \in unitmx) ->
  (forall m x G k, exists r, predict m x G k = Ok r) ->
  (forall m x G y k, exists r, update m x G y k = Ok r) ->
  exists st, run_upto n = Ok st.
Proof.
move=> Hunit Hpred Hupd; elim: n => [|n [st Hst]]; first by exists init.
rewrite run_upto_S Hst /= /StateIden12.step.
set x_k := getcol (x_tilde_c st) n; set t_k := at1 (t st) n.
rewrite [Jacobians x_k t_k]surjective_pairing.
have HA := Hunit x_k t_k.
rewrite joint_operator_unit //= alpha_covariance_unit //=.
set m := StateIden12.KalmanFilter _ _ _.
have [[xp Gp] ->] /= := Hpred m x_k (getmx (Gamma_tilde_c st) n) n.
set xp' := getcol _ _; set Gp' := getmx _ _.
have [[xu Gu] ->] /= := Hupd m xp' Gp' (getcol Y (n + 1)) n.
by eexists.
Qed.

(** Every iteration of a run that returned is recorded in its arrays. *)
Lemma run_steps (st : state) :
  run = Ok st -> forall k, (k + 1 < NT)%N -> step_done st k.
Proof.
move=> Hrun k; rewrite addn1 => Hk.
have HNT : (NT - 1 < NT)%N by rewrite subn1 ltn_predL (leq_trans _ Hk).
have [_ Hdone _ _] := run_upto_inv HNT Hrun.
by apply: Hdone; rewrite subn1 -ltnS prednK // (leq_trans _ Hk).
Qed.

(** One iteration adds its term to the block left by the previous one. *)
Lemma step_alpha_block (st st' : state) (n : nat) :
  step st n = Ok st' ->
  getslice N N (Gamma_w (model st')) 0 0
  = getslice N N (Gamma_w (model st)) 0 0
    + eta_induced_covariance (Gamma_w (model st))
        (getcol (x_tilde_c st) n) (at1 (t st) n).
Proof.
move=> /step_Ok [_ _ _ -> _ _ _].
by rewrite getslice_setslice ?add0n ?leq_addr.
Qed.

(** The other three blocks of the process noise are never written. *)
Lemma step_other_blocks (st st' : state) (n : nat) :
  step st n = Ok st' ->
  [/\ getslice N (eta_p * Nc_eta) (Gamma_w (model st')) 0 N
        = getslice N (eta_p * Nc_eta) (Gamma_w (model st)) 0 N,
      getslice (eta_p * Nc_eta) N (Gamma_w (model st')) N 0
        = getslice (eta_p * Nc_eta) N (Gamma_w (model st)) N 0
    & getslice (eta_p * Nc_eta) (eta_p * Nc_eta) (Gamma_w (model st')) N N
        = getslice (eta_p * Nc_eta) (eta_p * Nc_eta) (Gamma_w (model st)) N N].
Proof.
move=> /step_Ok [_ _ _ -> _ _ _].
by split; rewrite getslice_setslice_disjoint ?add0n ?leqnn ?orbT.
Qed.

Lemma run_upto_alpha_block (n : nat) (st : state) :
  (n < NT)%N -> run_upto n = Ok st ->
  getslice N N (Gamma_w (model st)) 0 0
  = Gamma_alpha_w
    + \sum_(0 <= k < n)
        eta_induced_covariance Gamma_tilde_c_w
          (getcol (x_tilde_c st) k) (k%:R * dt).
Proof. by move=> Hn /(run_upto_inv Hn) []. Qed.

End FilterLoop.

(** ** Runs on equal inputs *)

Section Evol06Extensional.

Variable R : fieldType.
Variables (N NT : nat) (dt : R).
Variables F_eval F_eval' : 'cV[R]_N -> R -> 'cV[R]_N.
Variables J_F_eval_d_alpha J_F_eval_d_alpha' : 'cV[R]_N -> R -> 'M[R]_N.
Variable alpha_0 : 'cV[R]_N.

Hypothesis F_eval_ext : forall a s, F_eval a s = F_eval' a s.
Hypothesis J_F_ext : forall a s, J_F_eval_d_alpha a s = J_F_eval_d_alpha' a s.




End Evol06Extensional.

Section FilterExtensional.

Variable R : fieldType.
Variables (N N_eta Ne_eta eta_p NT M : nat) (dt : R).

Local Notation Nc_eta := (StateIden12.Nc_eta N_eta Ne_eta).
Local Notation Nx := (StateIden12.Nx N N_eta Ne_eta eta_p).

Variable U_eta : 'M[R]_(N_eta, Nc_eta).
Variable UT_eta : 'M[R]_(Nc_eta, N_eta).
Variable eta_A : nat -> 'M[R]_N_eta.
Variables F_alpha_eval F_alpha_eval' : 'cV[R]_(N + N_eta) -> R -> 'cV[R]_N.
Variables dF_alpha_d_alpha dF_alpha_d_alpha' :
  'cV[R]_(N + N_eta) -> R -> 'M[R]_N.
Variables dF_alpha_d_eta dF_alpha_d_eta' :
  'cV[R]_(N + N_eta) -> R -> 'M[R]_(N, N_eta).
Variable Y : 'M[R]_(M, NT).
Variable Gamma_alpha_w : 'M[R]_N.
Variable Gamma_eta_w : 'M[R]_N_eta.
Variable alpha_prior : 'cV[R]_N.
Variable Gamma_alpha_prior : 'M[R]_N.
Variable eta_prior : 'cV[R]_N_eta.
Variable Gamma_eta_prior : 'M[R]_N_eta.

Local Notation Kalman_filter := (StateIden12.Kalman_filter R N N_eta Ne_eta eta_p).

Variables predict predict' :
  Kalman_filter -> 'cV[R]_Nx -> 'M[R]_Nx -> nat -> result ('cV[R]_Nx * 'M[R]_Nx).
Variables update update' :
  Kalman_filter -> 'cV[R]_Nx -> 'M[R]_Nx -> 'cV[R]_M -> nat ->
  result ('cV[R]_Nx * 'M[R]_Nx).

Hypothesis F_alpha_ext : forall x s, F_alpha_eval x s = F_alpha_eval' x s.
Hypothesis dF_alpha_ext :
  forall x s, dF_alpha_d_alpha x s = dF_alpha_d_alpha' x s.
Hypothesis dF_eta_ext : forall x s, dF_alpha_d_eta x s = dF_alpha_d_eta' x s.
Hypothesis predict_ext : forall m x G k, predict m x G k = predict' m x G k.
Hypothesis update_ext : forall m x G y k, update m x G y k = update' m x G y k.

Local Notation step_with F_eval dF_a dF_e pred upd :=
  (@StateIden12.step R N N_eta Ne_eta eta_p NT M dt U_eta UT_eta eta_A
     F_eval dF_a dF_e Y pred upd).
Local Notation run_upto_with F_eval dF_a dF_e pred upd :=
  (@StateIden12.run_upto R N N_eta Ne_eta eta_p NT M dt U_eta UT_eta eta_A
     F_eval dF_a dF_e Y Gamma_alpha_w Gamma_eta_w alpha_prior
     Gamma_alpha_prior eta_prior Gamma_eta_prior pred upd).



End FilterExtensional.

(** ** [state_iden_12_main.py]: priors, noise and the returned trajectory *)

Section Assembly.

Variable R : fieldType.
Variables (N N_eta Ne_eta eta_p NT : nat).

Local Notation Nc_eta := (StateIden12.Nc_eta N_eta Ne_eta).
Local Notation Nx := (StateIden12.Nx N N_eta Ne_eta eta_p).

Variable U_eta : 'M[R]_(N_eta, Nc_eta).
Variable UT_eta : 'M[R]_(Nc_eta, N_eta).
Variable Gamma_alpha_w : 'M[R]_N.
Variable Gamma_eta_w : 'M[R]_N_eta.
Variable alpha_prior : 'cV[R]_N.
Variable Gamma_alpha_prior : 'M[R]_N.
Variable eta_prior : 'cV[R]_N_eta.
Variable Gamma_eta_prior : 'M[R]_N_eta.

Local Notation U_eta_p := (StateIden12.U_eta_p eta_p U_eta).
Local Notation UT_eta_p := (StateIden12.UT_eta_p eta_p UT_eta).
Local Notation x_tilde_c_prior :=
  (@StateIden12.x_tilde_c_prior R N N_eta Ne_eta eta_p UT_eta alpha_prior
     eta_prior).
Local Notation Gamma_tilde_c_prior :=
  (@StateIden12.Gamma_tilde_c_prior R N N_eta Ne_eta eta_p U_eta UT_eta
     Gamma_alpha_prior Gamma_eta_prior).
Local Notation Gamma_tilde_c_w :=
  (@StateIden12.Gamma_tilde_c_w R N N_eta Ne_eta eta_p U_eta UT_eta
     Gamma_alpha_w Gamma_eta_w).
Local Notation eta_tilde_prior := (StateIden12.eta_tilde_prior eta_p eta_prior).
Local Notation Gamma_eta_tilde_prior :=
  (StateIden12.Gamma_eta_tilde_prior eta_p Gamma_eta_prior).
Local Notation Gamma_eta_tilde_w :=
  (StateIden12.Gamma_eta_tilde_w eta_p Gamma_eta_w).

Lemma two_block_eta (A : 'M[R]_N) (B : 'M[R]_(eta_p * Nc_eta)) :
  getslice (eta_p * Nc_eta) (eta_p * Nc_eta)
    (setslice (setslice (zeros R Nx Nx) 0 0 A) N N B) N N = B.
Proof.
exact: (getslice_setslice _ _ (leqnn _ : (N + eta_p * Nc_eta <= Nx)%N)
          (leqnn _ : (N + eta_p * Nc_eta <= Nx)%N)).
Qed.

Lemma two_block_alpha (A : 'M[R]_N) (B : 'M[R]_(eta_p * Nc_eta)) :
  getslice N N (setslice (setslice (zeros R Nx Nx) 0 0 A) N N B) 0 0 = A.
Proof.
have Hd : [|| (0 + N <= N)%N, (N + eta_p * Nc_eta <= 0)%N, (0 + N <= N)%N
            | (N + eta_p * Nc_eta <= 0)%N] by rewrite add0n leqnn.
rewrite (getslice_setslice_disjoint _ _ Hd).
exact: (getslice_setslice _ _ (leq_addr _ _ : (0 + N <= Nx)%N)
          (leq_addr _ _ : (0 + N <= Nx)%N)).
Qed.

Lemma prior_mean_eta :
  getrange (eta_p * Nc_eta) x_tilde_c_prior N = UT_eta_p *m eta_tilde_prior.
Proof.
rewrite /StateIden12.x_tilde_c_prior /StateIden12.eta_tilde_c_prior.
rewrite /getrange /setrange.
by rewrite (getslice_setslice _ _ (leqnn _ : (N + eta_p * Nc_eta <= Nx)%N)
              (leqnn _ : (0 + 1 <= 1)%N)).
Qed.

Lemma prior_mean_alpha : getrange N x_tilde_c_prior 0 = alpha_prior.
Proof.
rewrite /StateIden12.x_tilde_c_prior /getrange /setrange.
have Hd : [|| (0 + N <= N)%N, (N + eta_p * Nc_eta <= 0)%N, (0 + 1 <= 0)%N
            | (0 + 1 <= 0)%N] by rewrite add0n leqnn.
rewrite (getslice_setslice_disjoint _ _ Hd).
by rewrite (getslice_setslice _ _ (leq_addr _ _ : (0 + N <= Nx)%N)
              (leqnn _ : (0 + 1 <= 1)%N)).
Qed.

Lemma prior_cov_eta :
  getslice (eta_p * Nc_eta) (eta_p * Nc_eta) Gamma_tilde_c_prior N N =
  UT_eta_p *m (Gamma_eta_tilde_prior *m U_eta_p).
Proof. exact: two_block_eta. Qed.

Lemma noise_cov_eta :
  getslice (eta_p * Nc_eta) (eta_p * Nc_eta) Gamma_tilde_c_w N N =
  UT_eta_p *m (Gamma_eta_tilde_w *m U_eta_p).
Proof. exact: two_block_eta. Qed.

(** Lines 304-308 after [n] iterations. *)
Definition x_Gamma_loop (x_c : 'M[R]_(N + Nc_eta, NT))
    (Gamma_c : seq 'M[R]_(N + Nc_eta)) (n : nat)
    : 'M[R]_(N + N_eta, NT) * seq 'M[R]_(N + N_eta) :=
  foldl (fun '(x, Gamma) k =>
           let x := setslice x 0 k (getslice N 1 x_c 0 k) in
           let x := setslice x N k (U_eta *m getslice Nc_eta 1 x_c N k) in
           let Gamma :=
             setmx Gamma k
               (setslice (getmx Gamma k) 0 0
                  (getslice N N (getmx Gamma_c k) 0 0)) in
           let Gamma :=
             setmx Gamma k
               (setslice (getmx Gamma k) N N
                  (U_eta *m (getslice Nc_eta Nc_eta (getmx Gamma_c k) N N
                             *m UT_eta))) in
           (x, Gamma))
        (zeros R _ _, zeros3 R NT _ _) (range n).

(** Column [k] of the unconstrained trajectory and its covariance, once
    the loop has passed [k]. *)
Definition expanded_at (x_c : 'M[R]_(N + Nc_eta, NT))
    (Gamma_c : seq 'M[R]_(N + Nc_eta))
    (xG : 'M[R]_(N + N_eta, NT) * seq 'M[R]_(N + N_eta)) (k : nat) : Prop :=
  [/\ getslice N 1 xG.1 0 k = getslice N 1 x_c 0 k,
      getslice N_eta 1 xG.1 N k = U_eta *m getslice Nc_eta 1 x_c N k,
      getslice N N (getmx xG.2 k) 0 0 = getslice N N (getmx Gamma_c k) 0 0
    & getslice N_eta N_eta (getmx xG.2 k) N N
      = U_eta *m (getslice Nc_eta Nc_eta (getmx Gamma_c k) N N *m UT_eta)].

Lemma x_Gamma_loop_expanded (x_c : 'M[R]_(N + Nc_eta, NT))
    (Gamma_c : seq 'M[R]_(N + Nc_eta)) (n k : nat) :
  (n <= NT)%N -> (k < n)%N ->
  expanded_at x_c Gamma_c (x_Gamma_loop x_c Gamma_c n) k.
Proof.
elim: n => [|n IH] // Hn; rewrite ltnS => Hk.
rewrite /x_Gamma_loop range_rcons foldl_rcons -/(x_Gamma_loop x_c Gamma_c n).
case E: (x_Gamma_loop x_c Gamma_c n) => [x Gamma].
move: Hk; rewrite leq_eqVlt => /orP [/eqP Hkn|Hkn].
  rewrite Hkn; split; cbv zeta beta; rewrite /fst /snd ?getmx_setmx ?eqxx.
  - have Hd : [|| (0 + N <= N)%N, (N + N_eta <= 0)%N, (n + 1 <= n)%N
                | (n + 1 <= n)%N] by rewrite add0n leqnn.
    rewrite (getslice_setslice_disjoint _ _ Hd).
    have Hc : (n + 1 <= NT)%N by rewrite addn1.
    exact: (getslice_setslice _ _ (leq_addr _ _ : (0 + N <= N + N_eta)%N) Hc).
  - have Hc : (n + 1 <= NT)%N by rewrite addn1.
    exact: (getslice_setslice _ _ (leqnn (N + N_eta)) Hc).
  - have Hd : [|| (0 + N <= N)%N, (N + N_eta <= 0)%N, (0 + N <= N)%N
                | (N + N_eta <= 0)%N] by rewrite add0n leqnn.
    rewrite (getslice_setslice_disjoint _ _ Hd).
    exact: (getslice_setslice _ _ (leq_addr _ _ : (0 + N <= N + N_eta)%N)
              (leq_addr _ _ : (0 + N <= N + N_eta)%N)).
  - exact: (getslice_setslice _ _ (leqnn (N + N_eta)) (leqnn (N + N_eta))).
have [H1 H2 H3 H4] := IH (ltnW Hn) Hkn; rewrite E /= in H1 H2 H3 H4.
have Hne : k != n by rewrite neq_ltn Hkn.
have Hd r h h' r' : [|| (r' + h' <= r)%N, (r + h <= r')%N, (k + 1 <= n)%N
                      | (n + 1 <= k)%N] by rewrite addn1 Hkn !orbT.
split; cbv zeta beta; rewrite /fst /snd ?getmx_setmx ?(negbTE Hne) //.
- by rewrite !(getslice_setslice_disjoint _ _ (Hd _ _ _ _)).
- by rewrite !(getslice_setslice_disjoint _ _ (Hd _ _ _ _)).
Qed.

(** Lines 293-297 after [n] iterations. *)
Definition x_c_Gamma_c_loop (x_tilde_c : 'M[R]_(Nx, NT))
    (Gamma_tilde_c : seq 'M[R]_Nx) (n : nat)
    : 'M[R]_(N + Nc_eta, NT) * seq 'M[R]_(N + Nc_eta) :=
  foldl (fun '(x_c, Gamma_c) k =>
           let x_c := setslice x_c 0 k (getslice N 1 x_tilde_c 0 k) in
           let x_c := setslice x_c N k (getslice Nc_eta 1 x_tilde_c N k) in
           let Gamma_c :=
             setmx Gamma_c k
               (setslice (getmx Gamma_c k) 0 0
                  (getslice N N (getmx Gamma_tilde_c k) 0 0)) in
           let Gamma_c :=
             setmx Gamma_c k
               (setslice (getmx Gamma_c k) N N
                  (getslice Nc_eta Nc_eta (getmx Gamma_tilde_c k) N N)) in
           (x_c, Gamma_c))
        (zeros R _ _, zeros3 R NT _ _) (range n).

(** The current lag of the mean and of the covariance is the same range
    [N : N + Nc_eta] of the stacked state. *)
Definition current_at (x_tilde_c : 'M[R]_(Nx, NT))
    (Gamma_tilde_c : seq 'M[R]_Nx)
    (xG : 'M[R]_(N + Nc_eta, NT) * seq 'M[R]_(N + Nc_eta)) (k : nat) : Prop :=
  [/\ getslice N 1 xG.1 0 k = getslice N 1 x_tilde_c 0 k,
      getslice Nc_eta 1 xG.1 N k = getslice Nc_eta 1 x_tilde_c N k,
      getslice N N (getmx xG.2 k) 0 0
        = getslice N N (getmx Gamma_tilde_c k) 0 0
    & getslice Nc_eta Nc_eta (getmx xG.2 k) N N
        = getslice Nc_eta Nc_eta (getmx Gamma_tilde_c k) N N].

Lemma x_c_Gamma_c_loop_current (x_tilde_c : 'M[R]_(Nx, NT))
    (Gamma_tilde_c : seq 'M[R]_Nx) (n k : nat) :
  (n <= NT)%N -> (k < n)%N ->
  current_at x_tilde_c Gamma_tilde_c
    (x_c_Gamma_c_loop x_tilde_c Gamma_tilde_c n) k.
Proof.
elim: n => [|n IH] // Hn; rewrite ltnS => Hk.
rewrite /x_c_Gamma_c_loop range_rcons foldl_rcons
  -/(x_c_Gamma_c_loop x_tilde_c Gamma_tilde_c n).
case E: (x_c_Gamma_c_loop x_tilde_c Gamma_tilde_c n) => [x Gamma].
move: Hk; rewrite leq_eqVlt => /orP [/eqP Hkn|Hkn].
  rewrite Hkn; split; cbv zeta beta; rewrite /fst /snd ?getmx_setmx ?eqxx.
  - have Hd : [|| (0 + N <= N)%N, (N + Nc_eta <= 0)%N, (n + 1 <= n)%N
                | (n + 1 <= n)%N] by rewrite add0n leqnn.
    rewrite (getslice_setslice_disjoint _ _ Hd).
    have Hc : (n + 1 <= NT)%N by rewrite addn1.
    exact: (getslice_setslice _ _ (leq_addr _ _ : (0 + N <= N + Nc_eta)%N) Hc).
  - have Hc : (n + 1 <= NT)%N by rewrite addn1.
    exact: (getslice_setslice _ _ (leqnn (N + Nc_eta)) Hc).
  - have Hd : [|| (0 + N <= N)%N, (N + Nc_eta <= 0)%N, (0 + N <= N)%N
                | (N + Nc_eta <= 0)%N] by rewrite add0n leqnn.
    rewrite (getslice_setslice_disjoint _ _ Hd).
    exact: (getslice_setslice _ _ (leq_addr _ _ : (0 + N <= N + Nc_eta)%N)
              (leq_addr _ _ : (0 + N <= N + Nc_eta)%N)).
  - exact: (getslice_setslice _ _ (leqnn (N + Nc_eta)) (leqnn (N + Nc_eta))).
have [H1 H2 H3 H4] := IH (ltnW Hn) Hkn; rewrite E /= in H1 H2 H3 H4.
have Hne : k != n by rewrite neq_ltn Hkn.
have Hd r h h' r' : [|| (r' + h' <= r)%N, (r + h <= r')%N, (k + 1 <= n)%N
                      | (n + 1 <= k)%N] by rewrite addn1 Hkn !orbT.
split; cbv zeta beta; rewrite /fst /snd ?getmx_setmx ?(negbTE Hne) //.
- by rewrite !(getslice_setslice_disjoint _ _ (Hd _ _ _ _)).
- by rewrite !(getslice_setslice_disjoint _ _ (Hd _ _ _ _)).
Qed.

End Assembly.

Lemma x_Gamma_loop_NT (R : fieldType) (N N_eta Ne_eta NT : nat)
    (U_eta : 'M[R]_(N_eta, StateIden12.Nc_eta N_eta Ne_eta))
    (UT_eta : 'M[R]_(StateIden12.Nc_eta N_eta Ne_eta, N_eta))
    (x_c : 'M[R]_(N + StateIden12.Nc_eta N_eta Ne_eta, NT))
    (Gamma_c : seq 'M[R]_(N + StateIden12.Nc_eta N_eta Ne_eta)) :
  StateIden12.x_Gamma U_eta UT_eta x_c Gamma_c
  = x_Gamma_loop U_eta UT_eta x_c Gamma_c NT.
Proof. by []. Qed.

Lemma x_c_Gamma_c_loop_NT (R : fieldType) (N N_eta Ne_eta eta_p NT : nat)
    (x_tilde_c : 'M[R]_(StateIden12.Nx N N_eta Ne_eta eta_p, NT))
    (Gamma_tilde_c : seq 'M[R]_(StateIden12.Nx N N_eta Ne_eta eta_p)) :
  StateIden12.x_c_Gamma_c x_tilde_c Gamma_tilde_c
  = x_c_Gamma_c_loop x_tilde_c Gamma_tilde_c NT.
Proof. by []. Qed.

(** ** The continuity reduction *)

Section Continuity.

Variable R : fieldType.
Variables (n c : nat).
Variable continuous : 'cV[R]_n -> Prop.
Variable U : 'M[R]_(n, c).
Variable UT : 'M[R]_(c, n).

Hypothesis contract : compute_U_contract continuous U UT.

Lemma reduce_expand (m : nat) (v : 'M[R]_(c, m)) : UT *m (U *m v) = v.
Proof. by case: contract => _ HUU _; rewrite mulmxA HUU mul1mx. Qed.

Lemma projection_idempotent : (U *m UT) *m (U *m UT) = U *m UT.
Proof. by rewrite -mulmxA reduce_expand. Qed.

Lemma projection_symmetric : (U *m UT)^T = U *m UT.
Proof. by case: contract => -> _ _; rewrite trmx_mul trmxK. Qed.

Lemma projection_continuous (w : 'cV[R]_n) : continuous (U *m UT *m w).
Proof.
case: contract => _ _ Hspan; apply/Hspan.
by exists (UT *m w); rewrite mulmxA.
Qed.

Lemma projection_fixes (w : 'cV[R]_n) : continuous w -> U *m UT *m w = w.
Proof.
case: contract => _ _ Hspan /Hspan [v ->].
by rewrite -mulmxA reduce_expand.
Qed.

Lemma full_column_rank : \rank U = c.
Proof.
apply/eqP; rewrite eqn_leq rank_leq_col /=.
case: contract => _ HUU _.
by rewrite -[X in (X <= _)%N](mxrank1 R c) -HUU mxrankM_maxr.
Qed.

Lemma projection_rank : \rank (U *m UT) = c.
Proof.
apply/eqP; rewrite eqn_leq.
apply/andP; split.
  by rewrite -[X in (_ <= X)%N]full_column_rank mxrankM_maxl.
have Hc : \rank (UT *m (U *m UT *m U)) = c.
  by rewrite -!mulmxA !reduce_expand; case: contract => _ -> _; rewrite mxrank1.
rewrite -[X in (X <= _)%N]Hc.
by apply: leq_trans (mxrankM_maxr _ _) (mxrankM_maxl _ _).
Qed.

End Continuity.

(* ===================================================================== *)
(** * Part III: the linearisation, the filter loop and the parameter model *)
(* ===================================================================== *)

Section Claims.

Variable R : fieldType.
Variables (N NT : nat) (dt : R).

(** [evol_06.py]. *)
Variable F_eval : 'cV[R]_N -> R -> 'cV[R]_N.
Variable J_F_eval_d_alpha : 'cV[R]_N -> R -> 'M[R]_N.
Variable alpha_0 : 'cV[R]_N.

(** [state_iden_12_main.py]. *)
Variables (N_eta Ne_eta eta_p M : nat).

Local Notation Nc_eta := (StateIden12.Nc_eta N_eta Ne_eta).
Local Notation Nx := (StateIden12.Nx N N_eta Ne_eta eta_p).

Variable U_eta : 'M[R]_(N_eta, Nc_eta).
Variable UT_eta : 'M[R]_(Nc_eta, N_eta).
Variable eta_A : nat -> 'M[R]_N_eta.
Variable F_alpha_eval : 'cV[R]_(N + N_eta) -> R -> 'cV[R]_N.
Variable dF_alpha_d_alpha : 'cV[R]_(N + N_eta) -> R -> 'M[R]_N.
Variable dF_alpha_d_eta : 'cV[R]_(N + N_eta) -> R -> 'M[R]_(N, N_eta).
Variable Y : 'M[R]_(M, NT).
Variable Gamma_alpha_w : 'M[R]_N.
Variable Gamma_eta_w : 'M[R]_N_eta.
Variable alpha_prior : 'cV[R]_N.
Variable Gamma_alpha_prior : 'M[R]_N.
Variable eta_prior : 'cV[R]_N_eta.
Variable Gamma_eta_prior : 'M[R]_N_eta.

Local Notation Kalman_filter := (StateIden12.Kalman_filter R N N_eta Ne_eta eta_p).
Local Notation state := (StateIden12.state R N N_eta Ne_eta eta_p NT).

Variable predict :
  Kalman_filter -> 'cV[R]_Nx -> 'M[R]_Nx -> nat -> result ('cV[R]_Nx * 'M[R]_Nx).
Variable update :
  Kalman_filter -> 'cV[R]_Nx -> 'M[R]_Nx -> 'cV[R]_M -> nat ->
  result ('cV[R]_Nx * 'M[R]_Nx).

Local Notation evol_operator :=
  (Evol06.compute_evolution_operator dt F_eval J_F_eval_d_alpha).
Local Notation evol_run_upto :=
  (@Evol06.run_upto R N NT dt F_eval J_F_eval_d_alpha alpha_0).
Local Notation evol_run :=
  (@Evol06.run R N NT dt F_eval J_F_eval_d_alpha alpha_0).

Local Notation A_eta := (StateIden12.A_eta eta_p eta_A).
Local Notation B_eta := (StateIden12.B_eta eta_p eta_A).
Local Notation U_eta_p := (StateIden12.U_eta_p eta_p U_eta).
Local Notation UT_eta_p := (StateIden12.UT_eta_p eta_p UT_eta).
Local Notation x_star_of :=
  (@StateIden12.x_star_of R N N_eta Ne_eta eta_p U_eta).
Local Notation Jacobians :=
  (@StateIden12.compute_evolution_operator_Jacobians R N N_eta Ne_eta eta_p
     U_eta dF_alpha_d_alpha dF_alpha_d_eta).
Local Notation joint_operator :=
  (@StateIden12.compute_evolution_operator R N N_eta Ne_eta eta_p dt
     U_eta UT_eta eta_A F_alpha_eval).
Local Notation alpha_covariance :=
  (@StateIden12.compute_evolution_operator_alpha_covariance R N N_eta Ne_eta
     eta_p dt U_eta UT_eta).
Local Notation Gamma_tilde_c_w :=
  (@StateIden12.Gamma_tilde_c_w R N N_eta Ne_eta eta_p U_eta UT_eta
     Gamma_alpha_w Gamma_eta_w).
Local Notation x_tilde_c_prior :=
  (@StateIden12.x_tilde_c_prior R N N_eta Ne_eta eta_p UT_eta alpha_prior
     eta_prior).
Local Notation Gamma_tilde_c_prior :=
  (@StateIden12.Gamma_tilde_c_prior R N N_eta Ne_eta eta_p U_eta UT_eta
     Gamma_alpha_prior Gamma_eta_prior).
Local Notation eta_tilde_prior := (StateIden12.eta_tilde_prior eta_p eta_prior).
Local Notation Gamma_eta_tilde_prior :=
  (StateIden12.Gamma_eta_tilde_prior eta_p Gamma_eta_prior).
Local Notation Gamma_eta_tilde_w :=
  (StateIden12.Gamma_eta_tilde_w eta_p Gamma_eta_w).
Local Notation filter_step :=
  (@StateIden12.step R N N_eta Ne_eta eta_p NT M dt U_eta UT_eta eta_A
     F_alpha_eval dF_alpha_d_alpha dF_alpha_d_eta Y predict update).
Local Notation filter_run_upto :=
  (@StateIden12.run_upto R N N_eta Ne_eta eta_p NT M dt U_eta UT_eta eta_A
     F_alpha_eval dF_alpha_d_alpha dF_alpha_d_eta Y Gamma_alpha_w Gamma_eta_w
     alpha_prior Gamma_alpha_prior eta_prior Gamma_eta_prior predict update).
Local Notation filter_run :=
  (@StateIden12.run R N N_eta Ne_eta eta_p NT M dt U_eta UT_eta eta_A
     F_alpha_eval dF_alpha_d_alpha dF_alpha_d_eta Y Gamma_alpha_w Gamma_eta_w
     alpha_prior Gamma_alpha_prior eta_prior Gamma_eta_prior predict update).
Local Notation filter_step_done :=
  (@step_done R N N_eta Ne_eta eta_p NT M dt U_eta UT_eta eta_A F_alpha_eval
     dF_alpha_d_alpha dF_alpha_d_eta Y predict update).
Local Notation x_tilde_c := (@StateIden12.x_tilde_c R N N_eta Ne_eta eta_p NT).
Local Notation filter_t := (@StateIden12.t R N N_eta Ne_eta eta_p NT).
Local Notation model := (@StateIden12.model R N N_eta Ne_eta eta_p NT).
Local Notation Gamma_w := (@StateIden12.Gamma_w R N N_eta Ne_eta eta_p).

(** C1.  Crank-Nicolson linearisation.  Whenever [I - (dt/2) J] is
    invertible, with inverse [Mi], [evol_06.py]'s
    [compute_evolution_operator] returns
    [(Mi (I + (dt/2) J), Mi (dt bias))] with [bias = eval(x, t) - J x] and
    [J] the Jacobian at [(x, t)]; the joint linearizer of
    [state_iden_12_main.py] returns an [F_evolution] whose [alpha] block is
    [Mi (I + (dt/2) J_alpha)] and a [b_evolution] whose [alpha] entries are
    [Mi (dt bias)] with [bias = eval - J_alpha alpha - J_eta eta], where
    [Mi] inverts [I - (dt/2) J_alpha], built from the [alpha] Jacobian
    only. *)
Theorem crank_nicolson_affine_pair :
  (forall (alpha_star : 'cV[R]_N) (t_star : R),
     let J := J_F_eval_d_alpha alpha_star t_star in
     1%:M - (dt / 2%:R) *: J \in unitmx ->
     exists Mi : 'M[R]_N,
       [/\ Mi *m (1%:M - (dt / 2%:R) *: J) = 1%:M,
           (1%:M - (dt / 2%:R) *: J) *m Mi = 1%:M
         & evol_operator alpha_star t_star =
           Ok (Mi *m (1%:M + (dt / 2%:R) *: J),
               Mi *m (dt *: (F_eval alpha_star t_star - J *m alpha_star)))])
  /\
  (forall (x : 'cV[R]_Nx) (t_star : R) (J_alpha : 'M[R]_N)
          (J_eta : 'M[R]_(N, N_eta)),
     (0 < eta_p)%N ->
     1%:M - (dt / 2%:R) *: J_alpha \in unitmx ->
     let alpha := getrange N x 0 in
     let eta := U_eta *m getrange Nc_eta x N in
     let bias :=
       F_alpha_eval (x_star_of x) t_star - J_alpha *m alpha - J_eta *m eta in
     exists (Mi : 'M[R]_N) (F_evolution : 'M[R]_Nx) (b_evolution : 'cV[R]_Nx),
       [/\ Mi *m (1%:M - (dt / 2%:R) *: J_alpha) = 1%:M,
           (1%:M - (dt / 2%:R) *: J_alpha) *m Mi = 1%:M,
           joint_operator x t_star J_alpha J_eta
             = Ok (F_evolution, b_evolution),
           getslice N N F_evolution 0 0
             = Mi *m (1%:M + (dt / 2%:R) *: J_alpha)
         & getrange N b_evolution 0 = Mi *m (dt *: bias)]).
Proof.
split=> [alpha_star t_star J HA|x t_star J_alpha J_eta Hp HA alpha eta bias].
  exists (invmx (1%:M - (dt / 2%:R) *: J)).
  by rewrite (mulVmx HA) (mulmxV HA) (evol06_operator_unit F_eval HA).
exists (invmx (1%:M - (dt / 2%:R) *: J_alpha)).
rewrite (joint_operator_unit U_eta UT_eta eta_A F_alpha_eval x t_star J_eta HA).
eexists; eexists; split; [exact: mulVmx|exact: mulmxV|reflexivity| |].
  exact: joint_F_alpha_alpha.
by rewrite joint_b_alpha /joint_bias x_star_alpha x_star_eta.
Qed.

(** C4.  Means and covariances go through the same continuity transform.
    With [UT_eta] the transpose of [U_eta]: the prior mean of the
    parameter stack is [UT_eta_p eta_tilde_prior] and its covariance the
    congruence [UT_eta_p Gamma UT_eta_p^T]; so is the process-noise
    covariance; the linearisation expands the current lag by [U_eta] and
    its covariance by [U_eta Gamma_c U_eta^T]; and for every trajectory
    the returned [eta] is [U_eta eta_c] with covariance
    [U_eta Gamma_c U_eta^T]. *)
Theorem continuity_transform_consistent :
  UT_eta = U_eta^T ->
  [/\ getrange (eta_p * Nc_eta) x_tilde_c_prior N
        = UT_eta_p *m eta_tilde_prior
      /\ getslice (eta_p * Nc_eta) (eta_p * Nc_eta) Gamma_tilde_c_prior N N
        = UT_eta_p *m Gamma_eta_tilde_prior *m UT_eta_p^T,
      getslice (eta_p * Nc_eta) (eta_p * Nc_eta) Gamma_tilde_c_w N N
        = UT_eta_p *m Gamma_eta_tilde_w *m UT_eta_p^T,
      forall x : 'cV[R]_Nx, (0 < eta_p)%N ->
        getrange N_eta (x_star_of x) N = U_eta *m getrange Nc_eta x N,
      forall (G : 'M[R]_Nx) (x : 'cV[R]_Nx) (t_star : R),
        1%:M - (dt / 2%:R) *: (Jacobians x t_star).1 \in unitmx ->
        let J_eta := (Jacobians x t_star).2 in
        let Mi := invmx (1%:M - (dt / 2%:R) *: (Jacobians x t_star).1) in
        alpha_covariance G (Jacobians x t_star).1 J_eta
        = Ok (getslice N N G 0 0
              + (dt ^+ 2 / 4%:R)
                *: (Mi *m (J_eta
                           *m (U_eta *m (getslice Nc_eta Nc_eta G N N
                                         *m U_eta^T) *m J_eta^T)
                           *m Mi^T)))
    & forall (x_tilde_c : 'M[R]_(Nx, NT)) (Gamma_tilde_c : seq 'M[R]_Nx) k,
        (k < NT)%N ->
        let x_c := (StateIden12.x_c_Gamma_c x_tilde_c Gamma_tilde_c).1 in
        let Gamma_c := (StateIden12.x_c_Gamma_c x_tilde_c Gamma_tilde_c).2 in
        let x := (StateIden12.x_Gamma U_eta UT_eta x_c Gamma_c).1 in
        let Gamma := (StateIden12.x_Gamma U_eta UT_eta x_c Gamma_c).2 in
        getslice N_eta 1 x N k = U_eta *m getslice Nc_eta 1 x_tilde_c N k
        /\ getslice N_eta N_eta (getmx Gamma k) N N
           = U_eta *m (getslice Nc_eta Nc_eta (getmx Gamma_tilde_c k) N N
                       *m U_eta^T)].
Proof.
move=> HUT.
have HUTp : UT_eta_p^T = U_eta_p by rewrite -(trmx_U_eta_p eta_p HUT) trmxK.
split.
- by rewrite prior_mean_eta prior_cov_eta HUTp mulmxA.
- by rewrite noise_cov_eta HUTp mulmxA.
- by move=> x Hp; exact: x_star_eta.
- move=> G x t_star HA J_eta Mi.
  by rewrite (alpha_covariance_unit UT_eta G HA) /eta_induced_covariance HUT.
- move=> x_tilde_c Gamma_tilde_c k Hk x_c Gamma_c x Gamma.
  have [_ H2 _ H4] :=
    x_Gamma_loop_expanded U_eta UT_eta x_c Gamma_c (leqnn NT) Hk.
  have [_ H2' _ H4'] :=
    x_c_Gamma_c_loop_current x_tilde_c Gamma_tilde_c (leqnn NT) Hk.
  by rewrite /x /Gamma !x_Gamma_loop_NT H2 H4 /x_c /Gamma_c
       !x_c_Gamma_c_loop_NT H2' H4' HUT.
Qed.

(** C6.  [A_eta] is block companion: its top block-row holds the
    autoregressive coefficients [eta_A[j]], its block sub-diagonal holds
    identities and its other blocks are zero, so at every step of
    [eta_tilde_(k+1) = A_eta eta_tilde_k] block [i >= 1] of the new stack
    is block [i - 1] of the old one. *)
Theorem A_eta_block_companion :
  [/\ forall j, (j < eta_p)%N -> block_eta N_eta A_eta 0 j = eta_A j,
      forall i j, (0 < i)%N -> (i < eta_p)%N -> (j < eta_p)%N ->
        block_eta N_eta A_eta i j = if i == j.+1 then 1%:M else 0
    & forall (eta_tilde_0 : 'cV[R]_(eta_p * N_eta)) (k i : nat),
        (0 < i)%N -> (i < eta_p)%N ->
        let eta_tilde := fun k => iter k (mulmx A_eta) eta_tilde_0 in
        getrange N_eta (eta_tilde k.+1) (i * N_eta)
        = getrange N_eta (eta_tilde k) ((i - 1) * N_eta)].
Proof.
split=> [j Hj|i j Hi0 Hi Hj|eta_tilde_0 k i Hi0 Hi eta_tilde].
- have Hp : (0 < eta_p)%N by apply: leq_ltn_trans Hj.
  by rewrite A_eta_blocks.
- by rewrite A_eta_blocks // -[i == 0%N]/(i == 0)%N eqn0Ngt Hi0.
- by rewrite /eta_tilde iterS /getrange A_eta_shift.
Qed.

(** C9.  The additive vector of the joint linearizer is zero on the
    parameter block: entries [N .. N + eta_p Nc_eta - 1] of [b_evolution]
    are [0], so the parameter stack of [F_evolution y + b_evolution] is
    [UT_eta_p A_eta U_eta_p] applied to the parameter stack of [y]. *)
Theorem b_evolution_parameter_block_zero :
  forall (x : 'cV[R]_Nx) (t_star : R) (J_alpha : 'M[R]_N)
         (J_eta : 'M[R]_(N, N_eta)) (F_evolution : 'M[R]_Nx)
         (b_evolution : 'cV[R]_Nx),
    joint_operator x t_star J_alpha J_eta = Ok (F_evolution, b_evolution) ->
    (forall i, (N <= i)%N -> (i < N + eta_p * Nc_eta)%N ->
       at1 b_evolution i = 0)
    /\ (forall y : 'cV[R]_Nx,
          getrange (eta_p * Nc_eta) (F_evolution *m y + b_evolution) N
          = UT_eta_p *m (A_eta *m U_eta_p) *m getrange (eta_p * Nc_eta) y N).
Proof.
move=> x t_star J_alpha J_eta F_evolution b_evolution Hop.
have HA := joint_operator_Ok Hop.
move: Hop.
rewrite (joint_operator_unit U_eta UT_eta eta_A F_alpha_eval x t_star J_eta HA).
move=> [<- <-]; split=> [i HNi Hi|y].
  have := joint_b_eta N_eta Ne_eta eta_p dt
            (invmx (1%:M - (dt / 2%:R) *: J_alpha))
            (joint_bias U_eta F_alpha_eval x t_star J_alpha J_eta).
  move=> /(congr1 (fun v => at1 v (i - N))).
  rewrite at1_getrange ?subnKC ?at1_zeros //.
  by rewrite -(ltn_add2l N) subnKC.
by rewrite /getrange getslice_add -!/(getrange _ _ _) joint_F_mul_eta
     joint_b_eta addr0.
Qed.

End Claims.

Section ContinuityClaim.

Variable R : fieldType.
Variables (N_eta Ne_eta : nat).

Local Notation Nc_eta := (StateIden12.Nc_eta N_eta Ne_eta).

Variable continuous : 'cV[R]_N_eta -> Prop.
Variable U_eta : 'M[R]_(N_eta, Nc_eta).
Variable UT_eta : 'M[R]_(Nc_eta, N_eta).

(** C5.  The continuity matrix under the contract of [compute_U]: [U_eta]
    has full column rank, reducing after expanding is the identity,
    [U_eta UT_eta] is idempotent, maps every vector into the continuous
    subspace and fixes that subspace, whose dimension is
    [N_eta - (Ne_eta - 1)]. *)
Theorem continuity_reduction_round_trip :
  compute_U_contract continuous U_eta UT_eta ->
  [/\ \rank U_eta = Nc_eta,
      forall v : 'cV[R]_Nc_eta, UT_eta *m (U_eta *m v) = v,
      (U_eta *m UT_eta) *m (U_eta *m UT_eta) = U_eta *m UT_eta,
      (forall w : 'cV[R]_N_eta, continuous (U_eta *m UT_eta *m w))
      /\ (forall w : 'cV[R]_N_eta,
            continuous w -> U_eta *m UT_eta *m w = w)
    & \rank (U_eta *m UT_eta) = (N_eta - (Ne_eta - 1))%N].
Proof.
move=> Hc; split.
- exact: full_column_rank Hc.
- by move=> v; exact: reduce_expand Hc _ v.
- exact: projection_idempotent Hc.
- by split=> w; [exact: projection_continuous|exact: projection_fixes].
- exact: projection_rank Hc.
Qed.

End ContinuityClaim.

(* ===================================================================== *)
(** * Part IV: a pure-deposition instance                                 *)
(* ===================================================================== *)

(** One coefficient decaying at unit rate, [d alpha / dt = - alpha], over
    the rationals: [eval(alpha, t) = - alpha] with Jacobian [-I], time step
    [dt = 1], and for the filter one parameter coefficient on one element
    with a VAR(1) model. *)
Module Example.

Definition dt : rat := 1.

Definition F_eval : 'cV[rat]_1 -> rat -> 'cV[rat]_1 := fun alpha _ => - alpha.
Definition J_F_eval_d_alpha : 'cV[rat]_1 -> rat -> 'M[rat]_1 :=
  fun _ _ => - 1%:M.
Definition alpha_0 : 'cV[rat]_1 := 1%:M.

Definition U_eta : 'M[rat]_(1, StateIden12.Nc_eta 1 1) := 1%:M.
Definition UT_eta : 'M[rat]_(StateIden12.Nc_eta 1 1, 1) := 1%:M.
Definition eta_A : nat -> 'M[rat]_1 := fun _ => 0.

Definition F_alpha_eval : 'cV[rat]_(1 + 1) -> rat -> 'cV[rat]_1 :=
  fun x _ => - getrange 1 x 0.
Definition dF_alpha_d_alpha : 'cV[rat]_(1 + 1) -> rat -> 'M[rat]_1 :=
  fun _ _ => - 1%:M.
Definition dF_alpha_d_eta : 'cV[rat]_(1 + 1) -> rat -> 'M[rat]_(1, 1) :=
  fun _ _ => 0.

Definition Y : 'M[rat]_(1, 2) := 0.
Definition Gamma_alpha_w : 'M[rat]_1 := 1%:M.
Definition Gamma_eta_w : 'M[rat]_1 := 1%:M.
Definition alpha_prior : 'cV[rat]_1 := 1%:M.
Definition Gamma_alpha_prior : 'M[rat]_1 := 1%:M.
Definition eta_prior : 'cV[rat]_1 := 1%:M.
Definition Gamma_eta_prior : 'M[rat]_1 := 1%:M.

(** A filter whose prediction is [F x + b], [F Gamma F^T + Gamma_w] and
    whose update keeps the prediction. *)
Definition predict (m : StateIden12.Kalman_filter rat 1 1 1 1)
    (x : 'cV[rat]_(StateIden12.Nx 1 1 1 1))
    (G : 'M[rat]_(StateIden12.Nx 1 1 1 1)) (k : nat)
    : result ('cV[rat]_(StateIden12.Nx 1 1 1 1)
              * 'M[rat]_(StateIden12.Nx 1 1 1 1)) :=
  Ok (StateIden12.model_F m *m x + StateIden12.additive_evolution_vector m,
      StateIden12.model_F m *m G *m (StateIden12.model_F m)^T
      + StateIden12.Gamma_w m).

Definition update (m : StateIden12.Kalman_filter rat 1 1 1 1)
    (x : 'cV[rat]_(StateIden12.Nx 1 1 1 1))
    (G : 'M[rat]_(StateIden12.Nx 1 1 1 1)) (y : 'cV[rat]_1) (k : nat)
    : result ('cV[rat]_(StateIden12.Nx 1 1 1 1)
              * 'M[rat]_(StateIden12.Nx 1 1 1 1)) :=
  Ok (x, G).

(** The two runs on these inputs: two time steps. *)
Definition evol_run_upto (n : nat) : result (Evol06.state rat 1 2) :=
  Evol06.run_upto 2 dt F_eval J_F_eval_d_alpha alpha_0 n.

Definition filter_run_upto (n : nat)
    : result (StateIden12.state rat 1 1 1 1 2) :=
  @StateIden12.run_upto rat 1 1 1 1 2 1 dt U_eta UT_eta eta_A F_alpha_eval
    dF_alpha_d_alpha dF_alpha_d_eta Y Gamma_alpha_w Gamma_eta_w alpha_prior
    Gamma_alpha_prior eta_prior Gamma_eta_prior predict update n.


(** Four piecewise-constant elements: the continuous vectors are the
    constant ones, spanned by the unit vector [(1/2, 1/2, 1/2, 1/2)]. *)
Definition U4 : 'M[rat]_(4, StateIden12.Nc_eta 4 4) := const_mx (1 / 2%:R).
Definition constant4 (w : 'cV[rat]_4) : Prop := forall i j, w i 0 = w j 0.

End Example.

Section ExampleFacts.

Lemma example_unit (n : nat) (J : 'M[rat]_n) :
  J = - 1%:M -> 1%:M - (Example.dt / 2%:R) *: J \in unitmx.
Proof.
move=> ->; rewrite scalerN opprK scalemx1 -raddfD /= unitmxE det_scalar.
by rewrite unitfE expf_neq0.
Qed.


Lemma example_transpose : Example.UT_eta = Example.U_eta^T.
Proof. by rewrite /Example.UT_eta /Example.U_eta trmx1. Qed.

Lemma example_evol_total (n : nat) :
  exists st, Example.evol_run_upto n = Ok st.
Proof.
by apply: evol06_run_upto_total => a s; exact: example_unit.
Qed.

Lemma example_filter_total (n : nat) :
  exists st, Example.filter_run_upto n = Ok st.
Proof.
apply: run_upto_total => [x s|m x G k|m x G y k].
- exact: example_unit.
- by eexists.
- by eexists.
Qed.

Lemma example_contract :
  compute_U_contract Example.constant4 Example.U4 Example.U4^T.
Proof.
split=> //.
  apply/matrixP => i j; rewrite !mxE !big_ord_recl big_ord0 !mxE !ord1 /=.
  by [].
move=> w; split=> [Hw|[v ->] i j].
  exists ((2%:R * w ord0 0)%:M); apply/matrixP => i j.
  rewrite !mxE big_ord_recl big_ord0 !mxE !ord1 /= addr0 mulr1n.
  by rewrite mulrA div1r mulVf // mul1r; exact: Hw.
by rewrite !mxE; apply: eq_bigr => k _; rewrite !mxE.
Qed.

End ExampleFacts.

(** ** The theorems at the instance *)

Lemma crank_nicolson_affine_pair_witness :
  (exists Mi : 'M[rat]_1,
     Evol06.compute_evolution_operator Example.dt Example.F_eval
       Example.J_F_eval_d_alpha Example.alpha_0 0
     = Ok (Mi *m (1%:M + (Example.dt / 2%:R) *: (- 1%:M)),
           Mi *m (Example.dt
                  *: (Example.F_eval Example.alpha_0 0
                      - (- 1%:M) *m Example.alpha_0))))
  /\ (exists (Mi : 'M[rat]_1) F_evolution b_evolution,
        StateIden12.compute_evolution_operator Example.dt Example.U_eta
          Example.UT_eta Example.eta_A Example.F_alpha_eval
          (0 : 'cV[rat]_(StateIden12.Nx 1 1 1 1)) 0 (- 1%:M) 0
        = Ok (F_evolution, b_evolution)
        /\ getslice 1 1 F_evolution 0 0
           = Mi *m (1%:M + (Example.dt / 2%:R) *: (- 1%:M))).
Proof.
have [H1 H2] :=
  crank_nicolson_affine_pair Example.dt Example.F_eval
    Example.J_F_eval_d_alpha 1 Example.U_eta Example.UT_eta Example.eta_A
    Example.F_alpha_eval.
split.
  have [Mi [_ _ H]] := H1 Example.alpha_0 0 (example_unit (erefl _)).
  by exists Mi.
have [Mi [F_evolution [b_evolution [_ _ H HF _]]]] :=
  H2 0 0 (- 1%:M) 0 (ltn0Sn 0) (example_unit (erefl _)).
by exists Mi, F_evolution, b_evolution.
Defined.

Lemma continuity_transform_consistent_witness :
  Example.UT_eta = Example.U_eta^T
  /\ getslice (1 * StateIden12.Nc_eta 1 1) (1 * StateIden12.Nc_eta 1 1)
       (StateIden12.Gamma_tilde_c_prior 1 Example.U_eta Example.UT_eta
          Example.Gamma_alpha_prior Example.Gamma_eta_prior) 1 1
     = StateIden12.UT_eta_p 1 Example.UT_eta
       *m StateIden12.Gamma_eta_tilde_prior 1 Example.Gamma_eta_prior
       *m (StateIden12.UT_eta_p 1 Example.UT_eta)^T.
Proof.
split; first exact: example_transpose.
have [[_ H] _ _ _ _] :=
  continuity_transform_consistent 2 Example.dt 1 Example.dF_alpha_d_alpha
    Example.dF_alpha_d_eta Example.Gamma_alpha_w Example.Gamma_eta_w
    Example.alpha_prior Example.Gamma_alpha_prior Example.eta_prior
    Example.Gamma_eta_prior example_transpose.
exact: H.
Defined.

Lemma continuity_reduction_round_trip_witness :
  compute_U_contract Example.constant4 Example.U4 Example.U4^T
  /\ \rank Example.U4 = 1%N
  /\ (forall v : 'cV[rat]_(StateIden12.Nc_eta 4 4),
        Example.U4^T *m (Example.U4 *m v) = v)
  /\ \rank (Example.U4 *m Example.U4^T) = (4 - (4 - 1))%N.
Proof.
have [H1 H2 _ _ H5] := continuity_reduction_round_trip example_contract.
by split; [exact: example_contract|split; [exact: H1|split]].
Defined.

Lemma A_eta_block_companion_witness :
  getrange 1
    (StateIden12.A_eta 2 (fun _ => 1%:M) *m (const_mx 1 : 'cV[rat]_(2 * 1)))
    (1 * 1)
  = getrange 1 (const_mx 1 : 'cV[rat]_(2 * 1)) ((1 - 1) * 1).
Proof.
have [_ _ H] := A_eta_block_companion 2 (fun _ => (1%:M : 'M[rat]_1)).
exact: H (const_mx 1) 0 1 (erefl _) (erefl _).
Defined.


Lemma b_evolution_parameter_block_zero_witness :
  exists F_evolution b_evolution,
    StateIden12.compute_evolution_operator Example.dt Example.U_eta
      Example.UT_eta Example.eta_A Example.F_alpha_eval
      (0 : 'cV[rat]_(StateIden12.Nx 1 1 1 1)) 0 (- 1%:M) 0
    = Ok (F_evolution, b_evolution)
    /\ at1 b_evolution 1 = 0.
Proof.
have Hop :=
  joint_operator_unit Example.U_eta Example.UT_eta Example.eta_A
    Example.F_alpha_eval (0 : 'cV[rat]_(StateIden12.Nx 1 1 1 1)) 0 0
    (example_unit (erefl (- 1%:M))).
eexists; eexists; split; first exact: Hop.
have [H _] := b_evolution_parameter_block_zero Hop.
exact: H 1%N (erefl _) (erefl _).
Defined.

(* ===================================================================== *)
(** * Part V: further properties of the two scripts                       *)
(* ===================================================================== *)

(** ** [evol_06.py]: what the time loop computes *)

Lemma trapezoid_algebra (R : fieldType) (n : nat) (dt : R)
    (a a1 E Ja Ja1 : 'cV[R]_n) :
  2%:R != 0 :> R ->
  a1 - (dt / 2%:R) *: Ja1 = a + (dt / 2%:R) *: Ja + dt *: (E - Ja) ->
  a1 - a = dt *: E + (dt / 2%:R) *: (Ja1 - Ja).
Proof.
move=> H2 /matrixP H; apply/matrixP => i j; have := H i j.
have Hdt : dt = dt / 2%:R + dt / 2%:R.
  by rewrite -mulrDr -[X in X + X]mul1r -mulrDl -[1 + 1]/(2%:R) divff ?mulr1.
rewrite !mxE; move: (dt / 2%:R) Hdt => h -> Hij.
rewrite -[a1 i j](subrK (h * Ja1 i j)) Hij.
by ring.
Qed.

Section Evol06Steps.

Variable R : fieldType.
Variables (N NT : nat) (dt : R).
Variable F_eval : 'cV[R]_N -> R -> 'cV[R]_N.
Variable J_F_eval_d_alpha : 'cV[R]_N -> R -> 'M[R]_N.
Variable alpha_0 : 'cV[R]_N.

Local Notation compute_evolution_operator :=
  (Evol06.compute_evolution_operator dt F_eval J_F_eval_d_alpha).
Local Notation step := (@Evol06.step R N NT dt F_eval J_F_eval_d_alpha).
Local Notation init := (@Evol06.init R N NT alpha_0).
Local Notation run_upto :=
  (@Evol06.run_upto R N NT dt F_eval J_F_eval_d_alpha alpha_0).
Local Notation run := (@Evol06.run R N NT dt F_eval J_F_eval_d_alpha alpha_0).
Local Notation alpha := (@Evol06.alpha R N NT).
Local Notation t := (@Evol06.t R N NT).
Local Notation implicit_matrix := (evol06_implicit_matrix dt J_F_eval_d_alpha).

(** Column [0] is written once, before the loop. *)
Lemma evol06_run_upto_col0 (n : nat) (st : Evol06.state R N NT) :
  (0 < NT)%N -> run_upto n = Ok st -> getcol (alpha st) 0 = alpha_0.
Proof.
move=> HNT; elim: n st => [|n IH] st.
  rewrite /Evol06.run_upto; case: (compute_evolution_operator _ _) => //= _.
  by case=> <-; rewrite /= getcol_setcol.
rewrite evol06_run_upto_S => Hst; have [st0 Hst0 Hstep] := bind_Ok_inv Hst.
move: Hstep; rewrite /Evol06.step => Hstep.
have [[F_evolution b_evolution] _ /= [<-]] := bind_Ok_inv Hstep.
by rewrite /= getcol_setcol_other ?addn1 // (IH _ Hst0).
Qed.

(** In a run that returned, every step is the Crank-Nicolson step of the
    inverse of its own matrix. *)
Lemma evol06_run_next (st : Evol06.state R N NT) (k : nat) :
  run = Ok st -> (k + 1 < NT)%N ->
  let alpha_k := getcol (alpha st) k in
  let t_k := k%:R * dt in
  let J_k := J_F_eval_d_alpha alpha_k t_k in
  implicit_matrix alpha_k t_k \in unitmx
  /\ getcol (alpha st) (k + 1)
     = invmx (implicit_matrix alpha_k t_k)
       *m ((1%:M + (dt / 2%:R) *: J_k) *m alpha_k
           + dt *: (F_eval alpha_k t_k - J_k *m alpha_k)).
Proof.
move=> Hrun Hk alpha_k t_k J_k.
have HkNT : (k.+1 < NT)%N by rewrite -addn1.
have HNT : (NT - 1 < NT)%N by rewrite subn1 ltn_predL (leq_trans _ HkNT).
have [_ Hsteps] := evol06_run_upto_inv HNT Hrun.
have Hk1 : (k < NT - 1)%N by rewrite subn1 -ltnS prednK // (leq_trans _ HkNT).
have [F_evolution [b_evolution [Hop Hnext]]] := Hsteps k Hk1.
have HA := evol06_operator_Ok Hop; split=> //.
move: Hop; rewrite (evol06_operator_unit F_eval HA) => -[HF Hb].
by rewrite Hnext -HF -Hb [RHS]mulmxDr [in RHS]mulmxA.
Qed.

(** The times of a run that returned. *)
Lemma evol06_time_grid (st : Evol06.state R N NT) (k : nat) :
  run = Ok st -> (k < NT)%N -> at1 (t st) k = k%:R * dt.
Proof.
move=> Hrun Hk.
have HNT : (NT - 1 < NT)%N by rewrite subn1 ltn_predL (leq_trans _ Hk).
have [Ht _] := evol06_run_upto_inv HNT Hrun.
by apply: Ht; rewrite subn1 -ltnS prednK // (leq_trans _ Hk).
Qed.

Lemma evol06_increment (st : Evol06.state R N NT) (k : nat) :
  2%:R != 0 :> R ->
  run = Ok st -> (k + 1 < NT)%N ->
  let alpha_k := getcol (alpha st) k in
  let alpha_k1 := getcol (alpha st) (k + 1) in
  let t_k := k%:R * dt in
  alpha_k1 - alpha_k
  = dt *: F_eval alpha_k t_k
    + (dt / 2%:R) *: (J_F_eval_d_alpha alpha_k t_k *m (alpha_k1 - alpha_k)).
Proof.
move=> H2 Hrun Hk alpha_k alpha_k1 t_k.
have [HA Hnext] := evol06_run_next Hrun Hk.
set J := J_F_eval_d_alpha alpha_k t_k in Hnext *.
have Himp : implicit_matrix alpha_k t_k *m alpha_k1
    = (1%:M + (dt / 2%:R) *: J) *m alpha_k
      + dt *: (F_eval alpha_k t_k - J *m alpha_k).
  by rewrite /alpha_k1 Hnext mulKVmx.
move: Himp; rewrite /evol06_implicit_matrix -/J mulmxBl mulmxDl !mul1mx.
rewrite -!scalemxAl mulmxBr.
exact: trapezoid_algebra.
Qed.

(** X1.  The trapezoidal rule linearised at the current state: the increment
    of a step is [dt] times the model at the current state plus
    [(dt/2) J] times the increment. *)
Theorem evol06_step_trapezoid (st : Evol06.state R N NT) (k : nat) :
  2%:R != 0 :> R ->
  run = Ok st -> (k + 1 < NT)%N ->
  let alpha_k := getcol (alpha st) k in
  let alpha_k1 := getcol (alpha st) (k + 1) in
  let t_k := k%:R * dt in
  alpha_k1 - alpha_k
  = dt *: F_eval alpha_k t_k
    + (dt / 2%:R) *: (J_F_eval_d_alpha alpha_k t_k *m (alpha_k1 - alpha_k)).
Proof. exact: evol06_increment. Qed.

(** X2.  A steady state of the model is kept: when the model vanishes at the
    initial coefficients at all times, every column of the trajectory is
    the initial column. *)
Theorem evol06_steady_state (st : Evol06.state R N NT) :
  2%:R != 0 :> R ->
  (forall s, F_eval alpha_0 s = 0) ->
  run = Ok st ->
  forall k, (k < NT)%N -> getcol (alpha st) k = alpha_0.
Proof.
move=> H2 Hsteady Hrun; elim=> [|k IH] Hk.
  exact: evol06_run_upto_col0 Hk Hrun.
have Hk1 : (k + 1 < NT)%N by rewrite addn1.
have Hak := IH (ltnW Hk).
have [HA _] := evol06_run_next Hrun Hk1.
have := evol06_increment H2 Hrun Hk1.
rewrite /= addn1 Hak Hsteady scaler0 add0r in HA * => Hinc.
have Hzero : implicit_matrix alpha_0 (k%:R * dt)
             *m (getcol (alpha st) k.+1 - alpha_0) = 0.
  rewrite /evol06_implicit_matrix mulmxBl mul1mx -scalemxAl.
  by rewrite [X in X - _]Hinc subrr.
have := congr1 (mulmx (invmx (implicit_matrix alpha_0 (k%:R * dt)))) Hzero.
by rewrite mulKmx // mulmx0 => /eqP; rewrite subr_eq0 => /eqP.
Qed.

(** X3.  A linear model: with [eval(alpha, t) = L alpha] and Jacobian [L]
    every operator the script computes has a zero additive vector and the
    Cayley transform [(I - (dt/2) L)^-1 (I + (dt/2) L)] as its matrix, so
    column [k] of a run that returned is the [k]-th power of that transform
    applied to the initial column. *)
Theorem evol06_linear_model (L : 'M[R]_N) (st : Evol06.state R N NT) :
  (forall a s, F_eval a s = L *m a) ->
  (forall a s, J_F_eval_d_alpha a s = L) ->
  run = Ok st ->
  (forall a s F_evolution b_evolution,
     compute_evolution_operator a s = Ok (F_evolution, b_evolution) ->
     F_evolution
     = invmx (1%:M - (dt / 2%:R) *: L) *m (1%:M + (dt / 2%:R) *: L)
     /\ b_evolution = 0)
  /\ forall k, (k < NT)%N ->
       getcol (alpha st) k
       = iter k (mulmx (invmx (1%:M - (dt / 2%:R) *: L)
                        *m (1%:M + (dt / 2%:R) *: L))) alpha_0.
Proof.
move=> HF HJ Hrun; split=> [a s F_evolution b_evolution Hop|].
  have HA := evol06_operator_Ok Hop; move: Hop.
  rewrite (evol06_operator_unit F_eval HA) /evol06_implicit_matrix !HJ HF.
  rewrite subrr scaler0 mulmx0.
  by case=> <- <-.
elim=> [|k IH] Hk.
  exact: evol06_run_upto_col0 Hk Hrun.
have Hk1 : (k + 1 < NT)%N by rewrite addn1.
have [_] := evol06_run_next Hrun Hk1.
rewrite /= addn1 /evol06_implicit_matrix !HJ HF subrr scaler0 addr0 => ->.
by rewrite -(IH (ltnW Hk)) mulmxA.
Qed.

(** X4.  Line 125 computes the operator at the initial condition and discards
    it: as soon as the loop runs once, the run is the loop alone. *)
Theorem evol06_line_125_redundant (n : nat) :
  (0 < n)%N -> run_upto n = for_range step (range n) init.
Proof.
case: n => // n _; rewrite /Evol06.run_upto /range /= /Evol06.step.
by case: (compute_evolution_operator _ _) => [[F_evolution b_evolution]|e].
Qed.

(** X5.  With a single time step the loop body never runs, yet the run
    still calls [np.linalg.inv] on [I - (dt/2) J] at the initial condition
    (line 125): it returns the initial arrays when that call returns and
    raises what that call raises. *)
Theorem evol06_single_time_step :
  NT = 1%N ->
  run = (_ <- linalg_inv (implicit_matrix (getcol (alpha init) 0)
                            (at1 (t init) 0)) ;;
         Ok init).
Proof.
move=> HNT; rewrite /Evol06.run /Evol06.run_upto HNT subnn /=.
rewrite /Evol06.compute_evolution_operator /evol06_implicit_matrix.
by case: (linalg_inv _).
Qed.

End Evol06Steps.

(** ** Arrays made of blocks *)

Section BlockArrays.

Variable R : fieldType.

(** An assignment to an empty slice changes nothing. *)
Lemma setslice_empty (m n : nat) (A : 'M[R]_(m, n)) (r0 c0 w : nat)
    (B : 'M[R]_(0, w)) :
  setslice A r0 c0 B = A.
Proof.
apply/matrixP => i j; rewrite mxE addn0.
by case: (leqP r0 i) => //= Hi; rewrite ltnNge Hi.
Qed.

Lemma getslice_getslice (h w h' w' m n : nat) (A : 'M[R]_(m, n))
    (r0 c0 r1 c1 : nat) :
  (r1 + h' <= h)%N -> (c1 + w' <= w)%N ->
  getslice h' w' (getslice h w A r0 c0) r1 c1
  = getslice h' w' A (r0 + r1) (c0 + c1).
Proof.
move=> Hr Hc; apply/matrixP => i j; rewrite !mxE at2_getslice !addnA.
have -> : (r1 + i < h)%N by apply: leq_trans Hr; rewrite ltn_add2l.
by have -> : (c1 + j < w)%N by apply: leq_trans Hc; rewrite ltn_add2l.
Qed.

(** Rows [r0 : r0 + h] and columns [c0 : c0 + c'] of a product, the inner
    dimension cut in [q] blocks of width [w]. *)
Lemma getslice_mulmx_inner (m q w c h c' : nat) (A : 'M[R]_(m, q * w))
    (B : 'M[R]_(q * w, c)) (r0 c0 : nat) :
  (r0 + h <= m)%N -> (c0 + c' <= c)%N ->
  getslice h c' (A *m B) r0 c0 =
  \sum_(0 <= j < q)
     getslice h w A r0 (j * w) *m getslice w c' B (j * w) c0.
Proof.
move=> Hr Hc; apply/matrixP => a b; rewrite mxE summxE.
have Ha : (r0 + a < m)%N by apply: leq_trans Hr; rewrite ltn_add2l.
have Hb : (c0 + b < c)%N by apply: leq_trans Hc; rewrite ltn_add2l.
rewrite at2_mulmx // sum_nat_blocks; apply: eq_bigr => j _.
rewrite mxE big_mkord; apply: eq_bigr => l _.
by rewrite !mxE.
Qed.

(** A sum with one non-zero term. *)
Lemma sum_nat_delta (V : nmodType) (q i : nat) (X : nat -> V) :
  (i < q)%N ->
  \sum_(0 <= k < q) (if k == i then X k else 0) = X i.
Proof. by move=> Hi; rewrite -big_mkcond big_nat1_eq /= Hi. Qed.

(** Position [(i h + a, j w + b)] determines the block and the offset. *)
Lemma block_index_eq (w i j a b : nat) :
  (a < w)%N -> (b < w)%N ->
  (i * w + a == j * w + b)%N = (i == j) && (a == b).
Proof.
move=> Ha Hb; apply/eqP/andP => [H|[/eqP -> /eqP ->]] //.
have Hw : (0 < w)%N by apply: leq_ltn_trans Ha.
have Hd := congr1 (divn^~ w) H; have Hm := congr1 (modn^~ w) H.
rewrite /= !divnMDl // !divn_small // !addn0 in Hd.
rewrite /= !modnMDl !modn_small // in Hm.
by rewrite Hd Hm.
Qed.

(** The blocks of an identity matrix. *)
Lemma getblock_identity (p w i j : nat) :
  (i < p)%N -> (j < p)%N ->
  getslice w w (1%:M : 'M[R]_(p * w)) (i * w) (j * w)
  = if i == j then 1%:M else 0.
Proof.
move=> Hi Hj; apply/matrixP => a b; rewrite mxE.
have Ha : (i * w + a < p * w)%N.
  by apply: leq_trans (block_in_range w Hi); rewrite ltn_add2l.
have Hb : (j * w + b < p * w)%N.
  by apply: leq_trans (block_in_range w Hj); rewrite ltn_add2l.
rewrite at2_scalar_mx // block_index_eq //.
by case: (i == j); rewrite !mxE.
Qed.

(** Two arrays with the same blocks are equal. *)
Lemma eq_by_blocks (p q h w : nat) (A B : 'M[R]_(p * h, q * w)) :
  (forall i j, (i < p)%N -> (j < q)%N ->
     getslice h w A (i * h) (j * w) = getslice h w B (i * h) (j * w)) ->
  A = B.
Proof.
move=> H; apply/matrixP => r c.
have Hh : (0 < h)%N.
  have : (0 < p * h)%N by apply: leq_ltn_trans (ltn_ord r).
  by rewrite muln_gt0 => /andP [].
have Hw : (0 < w)%N.
  have : (0 < q * w)%N by apply: leq_ltn_trans (ltn_ord c).
  by rewrite muln_gt0 => /andP [].
have Hi : (r %/ h < p)%N by rewrite ltn_divLR.
have Hj : (c %/ w < q)%N by rewrite ltn_divLR.
have Ha : (r %% h < h)%N by rewrite ltn_pmod.
have Hb : (c %% w < w)%N by rewrite ltn_pmod.
have /matrixP /(_ (Ordinal Ha) (Ordinal Hb)) := H _ _ Hi Hj.
by rewrite !mxE /= -!divn_eq !at2_ord.
Qed.

(** Lines 64-66 and 226-228: a loop that writes the same block along the
    diagonal, after [n] iterations. *)
Lemma blockdiag_loop_blocks (p h w : nat) (B : 'M[R]_(h, w)) (n i j : nat) :
  (n <= p)%N -> (i < p)%N -> (j < p)%N ->
  getslice h w
    (foldl (fun A k => setslice A (k * h) (k * w) B)
           (zeros R (p * h) (p * w)) (range n)) (i * h) (j * w)
  = if (i == j) && (i < n)%N then B else 0.
Proof.
elim: n => [|n IH] Hn Hi Hj.
  by rewrite /= getslice_zeros ltn0 andbF.
rewrite range_rcons foldl_rcons.
have [Hin|Hin] := boolP ((i == n) && (j == n)).
  have /andP [/eqP Ei /eqP Ej] := Hin.
  by rewrite Ei Ej getblock_setblock // eqxx ltnSn.
rewrite getblock_setblock_other; first by rewrite -negb_and.
rewrite IH ?(ltnW Hn) // [in RHS]ltnS [in RHS]leq_eqVlt.
case Eij: (i == j) => //=.
by move: Hin; rewrite -(eqP Eij) andbb => /negbTE ->.
Qed.

(** The same for a stacked vector. *)
Lemma stack_loop_blocks (p h : nat) (b : 'cV[R]_h) (n i : nat) :
  (n <= p)%N -> (i < p)%N ->
  getrange h
    (foldl (fun v k => setrange v (k * h) b) (zeros R (p * h) 1) (range n))
    (i * h)
  = if (i < n)%N then b else 0.
Proof.
rewrite /getrange /setrange.
elim: n => [|n IH] Hn Hi; first by rewrite /= getslice_zeros.
rewrite range_rcons foldl_rcons [in RHS]ltnS [in RHS]leq_eqVlt.
case: eqP => [->|/eqP Hne] /=.
  by rewrite getslice_setslice // block_in_range.
rewrite getslice_setslice_disjoint ?IH ?(ltnW Hn) //.
by have /orP [] := block_rows_disjoint h Hne => ->; rewrite ?orbT.
Qed.

End BlockArrays.

(** A block-diagonal array times an array, by blocks. *)
Section BlockDiagonal.

Variable R : fieldType.
Variables (p h w : nat) (D : 'M[R]_(p * h, p * w)) (B : 'M[R]_(h, w)).

Hypothesis HD : forall i j, (i < p)%N -> (j < p)%N ->
  getslice h w D (i * h) (j * w) = if i == j then B else 0.

Lemma blockdiag_mul_rows (c c' : nat) (X : 'M[R]_(p * w, c)) (i c0 : nat) :
  (i < p)%N -> (c0 + c' <= c)%N ->
  getslice h c' (D *m X) (i * h) c0 = B *m getslice w c' X (i * w) c0.
Proof.
move=> Hi Hc; rewrite getslice_mulmx_inner ?block_in_range //.
rewrite -[RHS](sum_nat_delta (fun j => B *m getslice w c' X (j * w) c0) Hi).
apply: eq_big_nat => j /andP [_ Hj].
by rewrite HD // eq_sym; case: (j == i); rewrite ?mul0mx.
Qed.

Lemma blockdiag_mul_cols (m h' : nat) (X : 'M[R]_(m, p * h)) (r0 j : nat) :
  (j < p)%N -> (r0 + h' <= m)%N ->
  getslice h' w (X *m D) r0 (j * w) = getslice h' h X r0 (j * h) *m B.
Proof.
move=> Hj Hr; rewrite getslice_mulmx_inner ?block_in_range //.
rewrite -[RHS](sum_nat_delta (fun k => getslice h' h X r0 (k * h) *m B) Hj).
apply: eq_big_nat => k /andP [_ Hk].
by rewrite HD //; case: (k == j); rewrite ?mulmx0.
Qed.

End BlockDiagonal.

(** ** The stacked matrices of [state_iden_12_main.py] *)

Section StackedExtras.

Variable R : fieldType.
Variables (N N_eta Ne_eta eta_p : nat).

Local Notation Nc_eta := (StateIden12.Nc_eta N_eta Ne_eta).
Local Notation Nx := (StateIden12.Nx N N_eta Ne_eta eta_p).

Variable U_eta : 'M[R]_(N_eta, Nc_eta).
Variable UT_eta : 'M[R]_(Nc_eta, N_eta).
Variable eta_A : nat -> 'M[R]_N_eta.
Variable Gamma_eta_w : 'M[R]_N_eta.
Variable eta_prior : 'cV[R]_N_eta.
Variable Gamma_eta_prior : 'M[R]_N_eta.

Local Notation A_eta := (StateIden12.A_eta eta_p eta_A).
Local Notation B_eta := (StateIden12.B_eta eta_p eta_A).
Local Notation U_eta_p := (StateIden12.U_eta_p eta_p U_eta).
Local Notation UT_eta_p := (StateIden12.UT_eta_p eta_p UT_eta).
Local Notation eta_tilde_prior := (StateIden12.eta_tilde_prior eta_p eta_prior).
Local Notation Gamma_eta_tilde_prior :=
  (StateIden12.Gamma_eta_tilde_prior eta_p Gamma_eta_prior).
Local Notation Gamma_eta_tilde_w :=
  (StateIden12.Gamma_eta_tilde_w eta_p Gamma_eta_w).
Local Notation eta_tilde_c_prior :=
  (StateIden12.eta_tilde_c_prior eta_p UT_eta eta_prior).
Local Notation Gamma_eta_tilde_c_prior :=
  (StateIden12.Gamma_eta_tilde_c_prior eta_p U_eta UT_eta Gamma_eta_prior).
Local Notation Gamma_eta_tilde_c_w :=
  (StateIden12.Gamma_eta_tilde_c_w eta_p U_eta UT_eta Gamma_eta_w).

Lemma U_eta_p_blocks (i j : nat) :
  (i < eta_p)%N -> (j < eta_p)%N ->
  getslice N_eta Nc_eta U_eta_p (i * N_eta) (j * Nc_eta)
  = if i == j then U_eta else 0.
Proof.
by move=> Hi Hj; rewrite /StateIden12.U_eta_p blockdiag_loop_blocks // Hi andbT.
Qed.

Lemma UT_eta_p_blocks (i j : nat) :
  (i < eta_p)%N -> (j < eta_p)%N ->
  getslice Nc_eta N_eta UT_eta_p (i * Nc_eta) (j * N_eta)
  = if i == j then UT_eta else 0.
Proof.
by move=> Hi Hj; rewrite /StateIden12.UT_eta_p blockdiag_loop_blocks // Hi andbT.
Qed.

(** Block [(i, j)] of a reduced matrix [UT_eta_p G U_eta_p] is the
    reduction of block [(i, j)] of [G]. *)
Lemma reduced_block (G : 'M[R]_(eta_p * N_eta)) (i j : nat) :
  (i < eta_p)%N -> (j < eta_p)%N ->
  getslice Nc_eta Nc_eta (UT_eta_p *m (G *m U_eta_p))
    (i * Nc_eta) (j * Nc_eta)
  = UT_eta *m (getslice N_eta N_eta G (i * N_eta) (j * N_eta) *m U_eta).
Proof.
move=> Hi Hj.
rewrite (blockdiag_mul_rows UT_eta_p_blocks) ?block_in_range //.
by rewrite (blockdiag_mul_cols U_eta_p_blocks) ?block_in_range.
Qed.

(** X6.  Lines 62-66.  The stacked continuity matrices are block diagonal
    with [U_eta] and [UT_eta] on the diagonal, and reducing after expanding
    is the identity on the whole parameter stack when it is on one lag. *)
Theorem stacked_continuity_round_trip :
  UT_eta *m U_eta = 1%:M ->
  [/\ forall i j, (i < eta_p)%N -> (j < eta_p)%N ->
        getslice N_eta Nc_eta U_eta_p (i * N_eta) (j * Nc_eta)
        = if i == j then U_eta else 0,
      forall i j, (i < eta_p)%N -> (j < eta_p)%N ->
        getslice Nc_eta N_eta UT_eta_p (i * Nc_eta) (j * N_eta)
        = if i == j then UT_eta else 0,
      UT_eta_p *m U_eta_p = 1%:M
    & forall (c : nat) (v : 'M[R]_(eta_p * Nc_eta, c)),
        UT_eta_p *m (U_eta_p *m v) = v].
Proof.
move=> HU.
have H1 : UT_eta_p *m U_eta_p = 1%:M.
  apply: eq_by_blocks => i j Hi Hj.
  rewrite (blockdiag_mul_rows UT_eta_p_blocks) ?block_in_range //.
  rewrite U_eta_p_blocks // getblock_identity //.
  by case: (i == j); rewrite ?mulmx0 ?HU.
split=> [||//|c v]; [exact: U_eta_p_blocks|exact: UT_eta_p_blocks|].
by rewrite mulmxA H1 mul1mx.
Qed.

(** X7.  Lines 80-83.  [B_eta] applied to a parameter stack is its current
    lag plus the autoregression of [A_eta] on the stack: the sum
    [eta_k + eta_(k+1)] of the Crank-Nicolson average. *)
Theorem B_eta_sums_current_and_next :
  (0 < eta_p)%N ->
  forall (c : nat) (v : 'M[R]_(eta_p * N_eta, c)),
    B_eta *m v = getslice N_eta c v 0 0 + getslice N_eta c (A_eta *m v) 0 0.
Proof.
move=> Hp c v; rewrite A_eta_top // -[LHS]getslice_full.
rewrite getslice_mulmx_blocks ?add0n //.
rewrite [RHS]addrC.
rewrite -[X in _ = _ + X](sum_nat_delta
          (fun j => getslice N_eta c v (j * N_eta) 0) Hp).
rewrite -big_split; apply: eq_big_nat => j /andP [_ Hj] /=.
rewrite B_eta_blocks //; case: (altP (j =P 0%N)) => [->|_]; rewrite ?addr0 //.
by rewrite mulmxDl mul1mx.
Qed.

(** X8.  Lines 201-203.  The reduced process noise of the parameter stack
    acts on the current lag only: its block [(0, 0)] is the reduction of
    [Gamma_eta_w] and every other block is zero. *)
Theorem process_noise_on_current_lag (i j : nat) :
  (i < eta_p)%N -> (j < eta_p)%N ->
  getslice Nc_eta Nc_eta Gamma_eta_tilde_c_w (i * Nc_eta) (j * Nc_eta)
  = if (i == 0)%N && (j == 0)%N then UT_eta *m (Gamma_eta_w *m U_eta) else 0.
Proof.
move=> Hi Hj; rewrite /StateIden12.Gamma_eta_tilde_c_w reduced_block //.
rewrite /StateIden12.Gamma_eta_tilde_w.
have [/andP [/eqP Ei /eqP Ej]|Hne] := boolP ((i == 0)%N && (j == 0)%N).
  move: Hi Hj; rewrite {}Ei {}Ej => Hp _.
  by rewrite !mul0n getslice_setslice // add0n leq_pmull.
rewrite (@getblock_setblock_other _ _ _ N_eta N_eta _ _ 0 0) -?negb_and //.
by rewrite getslice_zeros mul0mx mulmx0.
Qed.

(** X9.  Lines 224-231.  The prior of the parameter stack repeats the prior
    of one lag: every lag has the reduced mean [UT_eta eta_prior] and the
    reduced covariance [UT_eta Gamma_eta_prior U_eta], and distinct lags
    are uncorrelated. *)
Theorem prior_repeats_over_lags (i j : nat) :
  (i < eta_p)%N -> (j < eta_p)%N ->
  getrange Nc_eta eta_tilde_c_prior (i * Nc_eta) = UT_eta *m eta_prior
  /\ getslice Nc_eta Nc_eta Gamma_eta_tilde_c_prior (i * Nc_eta) (j * Nc_eta)
     = if i == j then UT_eta *m (Gamma_eta_prior *m U_eta) else 0.
Proof.
move=> Hi Hj; split.
  rewrite /StateIden12.eta_tilde_c_prior /getrange.
  rewrite (blockdiag_mul_rows UT_eta_p_blocks) //.
  by rewrite -/(getrange _ _ _) /StateIden12.eta_tilde_prior
       stack_loop_blocks // Hi.
rewrite /StateIden12.Gamma_eta_tilde_c_prior reduced_block //.
rewrite /StateIden12.Gamma_eta_tilde_prior blockdiag_loop_blocks // Hi andbT.
by case: (i == j); rewrite ?mul0mx ?mulmx0.
Qed.

(** The reduced transition [UT_eta_p A_eta U_eta_p] of the parameter
    stack, by lags. *)
Lemma reduced_shift (c : nat) (v : 'M[R]_(eta_p * Nc_eta, c)) (i : nat) :
  UT_eta *m U_eta = 1%:M -> (0 < i)%N -> (i < eta_p)%N ->
  getslice Nc_eta c (UT_eta_p *m (A_eta *m (U_eta_p *m v))) (i * Nc_eta) 0
  = getslice Nc_eta c v ((i - 1) * Nc_eta) 0.
Proof.
move=> HU Hi0 Hi.
have Hi1 : (i - 1 < eta_p)%N by rewrite (leq_ltn_trans (leq_subr _ _) Hi).
rewrite (blockdiag_mul_rows UT_eta_p_blocks) // A_eta_shift //.
by rewrite (blockdiag_mul_rows U_eta_p_blocks) // mulmxA HU mul1mx.
Qed.

Lemma reduced_top (c : nat) (v : 'M[R]_(eta_p * Nc_eta, c)) :
  (0 < eta_p)%N ->
  getslice Nc_eta c (UT_eta_p *m (A_eta *m (U_eta_p *m v))) 0 0
  = UT_eta
    *m \sum_(0 <= j < eta_p)
          eta_A j *m (U_eta *m getslice Nc_eta c v (j * Nc_eta) 0).
Proof.
move=> Hp.
have := @blockdiag_mul_rows _ _ _ _ _ _ UT_eta_p_blocks c c
          (A_eta *m (U_eta_p *m v)) 0 0 Hp (leqnn c).
rewrite !mul0n => ->; rewrite A_eta_top //.
rewrite (@eq_big_nat _ _ _ _ _ _
           (fun j => eta_A j *m (U_eta *m getslice Nc_eta c v (j * Nc_eta) 0)))
        // => j /andP [_ Hj].
by rewrite (blockdiag_mul_rows U_eta_p_blocks).
Qed.

End StackedExtras.

(** ** The joint linearizer and the observation model *)

Lemma col_mx_getrange (R : fieldType) (n1 n2 : nat) (v : 'cV[R]_(n1 + n2)) :
  v = col_mx (getrange n1 v 0) (getrange n2 v n1).
Proof.
apply/matrixP => i j; rewrite mxE.
by case: (splitP i) => k Hk; rewrite !mxE ?add0n -Hk at2_ord.
Qed.

Section JointExtras.

Variable R : fieldType.
Variables (N N_eta Ne_eta eta_p : nat) (dt : R).

Local Notation Nc_eta := (StateIden12.Nc_eta N_eta Ne_eta).
Local Notation Nx := (StateIden12.Nx N N_eta Ne_eta eta_p).

Variable U_eta : 'M[R]_(N_eta, Nc_eta).
Variable UT_eta : 'M[R]_(Nc_eta, N_eta).
Variable eta_A : nat -> 'M[R]_N_eta.
Variable F_alpha_eval : 'cV[R]_(N + N_eta) -> R -> 'cV[R]_N.
Variable dF_alpha_d_alpha : 'cV[R]_(N + N_eta) -> R -> 'M[R]_N.
Variable dF_alpha_d_eta : 'cV[R]_(N + N_eta) -> R -> 'M[R]_(N, N_eta).

Local Notation A_eta := (StateIden12.A_eta eta_p eta_A).
Local Notation U_eta_p := (StateIden12.U_eta_p eta_p U_eta).
Local Notation UT_eta_p := (StateIden12.UT_eta_p eta_p UT_eta).
Local Notation x_star_of :=
  (@StateIden12.x_star_of R N N_eta Ne_eta eta_p U_eta).
Local Notation Jacobians :=
  (@StateIden12.compute_evolution_operator_Jacobians R N N_eta Ne_eta eta_p
     U_eta dF_alpha_d_alpha dF_alpha_d_eta).
Local Notation joint_operator :=
  (@StateIden12.compute_evolution_operator R N N_eta Ne_eta eta_p dt
     U_eta UT_eta eta_A F_alpha_eval).

(** The parameter stack of a prediction [F_evolution y + b_evolution]. *)
Lemma joint_prediction_stack (x : 'cV[R]_Nx) (t_star : R)
    (J_alpha : 'M[R]_N) (J_eta : 'M[R]_(N, N_eta))
    (F_evolution : 'M[R]_Nx) (b_evolution : 'cV[R]_Nx) (y : 'cV[R]_Nx) :
  joint_operator x t_star J_alpha J_eta = Ok (F_evolution, b_evolution) ->
  getrange (eta_p * Nc_eta) (F_evolution *m y + b_evolution) N
  = UT_eta_p *m (A_eta *m (U_eta_p *m getrange (eta_p * Nc_eta) y N)).
Proof.
move=> Hop; have HA := joint_operator_Ok Hop; move: Hop.
rewrite (joint_operator_unit U_eta UT_eta eta_A F_alpha_eval x t_star J_eta HA).
move=> [<- <-].
by rewrite /getrange getslice_add -!/(getrange _ _ _) joint_F_mul_eta
     joint_b_eta addr0 -!mulmxA.
Qed.

(** Lag [i] of a joint state is rows [N + i Nc_eta ..] of it. *)
Lemma lag_of_stack (v : 'cV[R]_Nx) (i : nat) :
  (i < eta_p)%N ->
  getslice Nc_eta 1 (getrange (eta_p * Nc_eta) v N) (i * Nc_eta) 0
  = getrange Nc_eta v (N + i * Nc_eta).
Proof.
by move=> Hi; rewrite /getrange getslice_getslice ?block_in_range.
Qed.

(** X10.  Lines 118-149.  One prediction of the filter shifts the lags of
    the reduced parameter stack: lag [i >= 1] of
    [F_evolution y + b_evolution] is lag [i - 1] of [y], and the new
    current lag is the reduced autoregression of the expanded lags. *)
Theorem prediction_shifts_parameter_lags :
  UT_eta *m U_eta = 1%:M ->
  forall (x : 'cV[R]_Nx) (t_star : R) (J_alpha : 'M[R]_N)
         (J_eta : 'M[R]_(N, N_eta)) (F_evolution : 'M[R]_Nx)
         (b_evolution : 'cV[R]_Nx),
    joint_operator x t_star J_alpha J_eta = Ok (F_evolution, b_evolution) ->
    forall y : 'cV[R]_Nx,
      (forall i, (0 < i)%N -> (i < eta_p)%N ->
         getrange Nc_eta (F_evolution *m y + b_evolution) (N + i * Nc_eta)
         = getrange Nc_eta y (N + (i - 1) * Nc_eta))
      /\ ((0 < eta_p)%N ->
          getrange Nc_eta (F_evolution *m y + b_evolution) N
          = UT_eta
            *m \sum_(0 <= j < eta_p)
                  eta_A j *m (U_eta *m getrange Nc_eta y (N + j * Nc_eta))).
Proof.
move=> HU x t_star J_alpha J_eta F_evolution b_evolution Hop y.
have Hstack := joint_prediction_stack y Hop.
split=> [i Hi0 Hi|Hp].
  have Hi1 : (i - 1 < eta_p)%N by rewrite (leq_ltn_trans (leq_subr _ _) Hi).
  by rewrite -!lag_of_stack // Hstack reduced_shift.
have := lag_of_stack (F_evolution *m y + b_evolution) Hp.
rewrite mul0n addn0 => <-; rewrite Hstack reduced_top //.
rewrite (@eq_big_nat _ _ _ _ _ _
           (fun j => eta_A j
                     *m (U_eta *m getrange Nc_eta y (N + j * Nc_eta)))) //.
by move=> j /andP [_ Hj]; rewrite lag_of_stack.
Qed.

(** X11.  Lines 101-115.  The Jacobians are evaluated at the unconstrained
    state [[alpha; U_eta eta_c]] read from the first [N + Nc_eta] entries
    of the joint state; the assignments of lines 106 and 111 write empty
    slices, and the older lags do not enter. *)
Theorem jacobians_at_expanded_state :
  (0 < eta_p)%N ->
  forall (x : 'cV[R]_Nx) (t_star : R),
    let x_star := col_mx (getrange N x 0) (U_eta *m getrange Nc_eta x N) in
    Jacobians x t_star
    = (dF_alpha_d_alpha x_star t_star, dF_alpha_d_eta x_star t_star).
Proof.
move=> Hp x t_star x_star.
have E : x_star_of x = x_star.
  by rewrite [LHS]col_mx_getrange x_star_alpha x_star_eta.
rewrite -E /StateIden12.compute_evolution_operator_Jacobians.
by rewrite /StateIden12.x_star_of /setrange !setslice_empty.
Qed.

End JointExtras.

Section ObservationFacts.

Variable R : fieldType.
Variables (N N_eta Ne_eta eta_p NT M : nat).

Local Notation Nc_eta := (StateIden12.Nc_eta N_eta Ne_eta).
Local Notation Nx := (StateIden12.Nx N N_eta Ne_eta eta_p).

Variable H_alpha : 'M[R]_(M, N).
Variable Y : 'M[R]_(M, NT).
Variables sigma_Y_multiplier sigma_v : R.

Local Notation H := (StateIden12Obs.H N_eta Ne_eta eta_p H_alpha).
Local Notation Gamma_v :=
  (StateIden12Obs.Gamma_v Y sigma_Y_multiplier sigma_v).

(** X12.  Lines 170-179.  The observation operator reads the [alpha] block
    only: applied to a joint state, or to the columns of a joint
    covariance, it is [H_alpha] applied to the first [N] rows, and its
    parameter columns are zero. *)
Theorem observation_reads_alpha_only :
  getslice M (eta_p * Nc_eta) H 0 N = 0
  /\ forall (c : nat) (X : 'M[R]_(Nx, c)),
       H *m X = H_alpha *m getslice N c X 0 0.
Proof.
have H0 : getslice M (eta_p * Nc_eta) H 0 N = 0.
  rewrite /StateIden12Obs.H getslice_setslice_disjoint ?getslice_zeros //.
  by rewrite add0n leqnn !orbT.
split=> // c X; rewrite -[LHS]getslice_full.
rewrite (@getslice_mulmx_split _ _ N (eta_p * Nc_eta)) ?add0n // H0.
rewrite mul0mx addr0 /StateIden12Obs.H getslice_setslice ?add0n //.
exact: leq_addr.
Qed.

(** A loop that writes entry [k] of a 3-D array at iteration [k]. *)
Lemma setmx_loop (m n : nat) (f : nat -> 'M[R]_(m, n))
    (G0 : seq 'M[R]_(m, n)) (n0 k : nat) :
  getmx (foldl (fun G k => setmx G k (f k)) G0 (range n0)) k
  = if (k < n0)%N then f k else getmx G0 k.
Proof.
elim: n0 => [|n0 IH] //; rewrite range_rcons foldl_rcons getmx_setmx IH.
by rewrite [in RHS]ltnS [in RHS]leq_eqVlt; case: eqP => [->|].
Qed.

(** X13.  Lines 184-188.  Every observation-noise covariance is diagonal,
    with entries [sigma_Y^2 Y[i, k] + sigma_v^2]. *)
Theorem observation_noise_diagonal (k : nat) :
  (k < NT)%N ->
  forall i j : 'I_M,
    getmx Gamma_v k i j
    = if i == j then sigma_Y_multiplier ^+ 2 * at2 Y i k + sigma_v ^+ 2
      else 0.
Proof.
move=> Hk i j; rewrite /StateIden12Obs.Gamma_v.
rewrite (setmx_loop
           (fun k => sigma_Y_multiplier ^+ 2 *: diag_mx (getcol Y k)^T
                     + sigma_v ^+ 2 *: (1%:M : 'M[R]_M))) Hk.
rewrite !mxE add0n addn0.
by case: (i == j); rewrite ?mulr0n ?mulr1n ?mulr0 ?mulr1 ?addr0.
Qed.

End ObservationFacts.

(** ** The filter loop and the returned arrays *)

Section FilterExtras.

Variable R : fieldType.
Variables (N N_eta Ne_eta eta_p NT M : nat) (dt : R).

Local Notation Nc_eta := (StateIden12.Nc_eta N_eta Ne_eta).
Local Notation Nx := (StateIden12.Nx N N_eta Ne_eta eta_p).

Variable U_eta : 'M[R]_(N_eta, Nc_eta).
Variable UT_eta : 'M[R]_(Nc_eta, N_eta).
Variable eta_A : nat -> 'M[R]_N_eta.
Variable F_alpha_eval : 'cV[R]_(N + N_eta) -> R -> 'cV[R]_N.
Variable dF_alpha_d_alpha : 'cV[R]_(N + N_eta) -> R -> 'M[R]_N.
Variable dF_alpha_d_eta : 'cV[R]_(N + N_eta) -> R -> 'M[R]_(N, N_eta).
Variable Y : 'M[R]_(M, NT).
Variable Gamma_alpha_w : 'M[R]_N.
Variable Gamma_eta_w : 'M[R]_N_eta.
Variable alpha_prior : 'cV[R]_N.
Variable Gamma_alpha_prior : 'M[R]_N.
Variable eta_prior : 'cV[R]_N_eta.
Variable Gamma_eta_prior : 'M[R]_N_eta.

Local Notation Kalman_filter := (StateIden12.Kalman_filter R N N_eta Ne_eta eta_p).
Local Notation state := (StateIden12.state R N N_eta Ne_eta eta_p NT).

Variable predict :
  Kalman_filter -> 'cV[R]_Nx -> 'M[R]_Nx -> nat -> result ('cV[R]_Nx * 'M[R]_Nx).
Variable update :
  Kalman_filter -> 'cV[R]_Nx -> 'M[R]_Nx -> 'cV[R]_M -> nat ->
  result ('cV[R]_Nx * 'M[R]_Nx).

Local Notation U_eta_p := (StateIden12.U_eta_p eta_p U_eta).
Local Notation UT_eta_p := (StateIden12.UT_eta_p eta_p UT_eta).
Local Notation Gamma_tilde_c_w :=
  (@StateIden12.Gamma_tilde_c_w R N N_eta Ne_eta eta_p U_eta UT_eta
     Gamma_alpha_w Gamma_eta_w).
Local Notation x_tilde_c_prior :=
  (@StateIden12.x_tilde_c_prior R N N_eta Ne_eta eta_p UT_eta alpha_prior
     eta_prior).
Local Notation Gamma_tilde_c_prior :=
  (@StateIden12.Gamma_tilde_c_prior R N N_eta Ne_eta eta_p U_eta UT_eta
     Gamma_alpha_prior Gamma_eta_prior).
Local Notation step :=
  (@StateIden12.step R N N_eta Ne_eta eta_p NT M dt U_eta UT_eta eta_A
     F_alpha_eval dF_alpha_d_alpha dF_alpha_d_eta Y predict update).
Local Notation init :=
  (@StateIden12.init R N N_eta Ne_eta eta_p NT U_eta UT_eta Gamma_alpha_w
     Gamma_eta_w alpha_prior Gamma_alpha_prior eta_prior Gamma_eta_prior).
Local Notation run_upto :=
  (@StateIden12.run_upto R N N_eta Ne_eta eta_p NT M dt U_eta UT_eta eta_A
     F_alpha_eval dF_alpha_d_alpha dF_alpha_d_eta Y Gamma_alpha_w Gamma_eta_w
     alpha_prior Gamma_alpha_prior eta_prior Gamma_eta_prior predict update).
Local Notation run :=
  (@StateIden12.run R N N_eta Ne_eta eta_p NT M dt U_eta UT_eta eta_A
     F_alpha_eval dF_alpha_d_alpha dF_alpha_d_eta Y Gamma_alpha_w Gamma_eta_w
     alpha_prior Gamma_alpha_prior eta_prior Gamma_eta_prior predict update).
Local Notation eta_term :=
  (@eta_induced_covariance R N N_eta Ne_eta eta_p dt U_eta UT_eta
     dF_alpha_d_alpha dF_alpha_d_eta).

Local Notation x_tilde_c := (@StateIden12.x_tilde_c R N N_eta Ne_eta eta_p NT).
Local Notation Gamma_tilde_c :=
  (@StateIden12.Gamma_tilde_c R N N_eta Ne_eta eta_p NT).
Local Notation x_tilde_c_predict :=
  (@StateIden12.x_tilde_c_predict R N N_eta Ne_eta eta_p NT).
Local Notation Gamma_tilde_c_predict :=
  (@StateIden12.Gamma_tilde_c_predict R N N_eta Ne_eta eta_p NT).
Local Notation F := (@StateIden12.F R N N_eta Ne_eta eta_p NT).
Local Notation b := (@StateIden12.b R N N_eta Ne_eta eta_p NT).
Local Notation model := (@StateIden12.model R N N_eta Ne_eta eta_p NT).
Local Notation Gamma_w := (@StateIden12.Gamma_w R N N_eta Ne_eta eta_p).

Lemma getmx_zeros3 (m n k : nat) : getmx (zeros3 R NT m n) k = 0.
Proof. by rewrite /getmx /zeros3 nth_nseq; case: ifP. Qed.

(** What the first [n] iterations leave: index [0] holds the prior, and
    the operators of index [n] and beyond are not written yet. *)
Definition filter_ends (n : nat) (st : state) : Prop :=
  [/\ getcol (x_tilde_c st) 0 = x_tilde_c_prior,
      getmx (Gamma_tilde_c st) 0 = Gamma_tilde_c_prior,
      getcol (x_tilde_c_predict st) 0 = x_tilde_c_prior,
      getmx (Gamma_tilde_c_predict st) 0 = Gamma_tilde_c_prior
    & forall k, (n <= k)%N ->
        getmx (F st) k = 0 /\ getcol (b st) k = 0].

Lemma run_upto_ends (n : nat) (st : state) :
  (0 < NT)%N -> run_upto n = Ok st -> filter_ends n st.
Proof.
move=> HNT; elim: n st => [|n IH] st.
  case=> <-; rewrite /StateIden12.init.
  split=> [||||k _];
    cbn [StateIden12.x_tilde_c StateIden12.Gamma_tilde_c
         StateIden12.x_tilde_c_predict StateIden12.Gamma_tilde_c_predict
         StateIden12.F StateIden12.b];
    rewrite ?getcol_setcol ?getmx_setmx //.
  by rewrite getmx_zeros3 /getcol getslice_zeros.
rewrite run_upto_S => Hst; have [st0 Hst0 Hstep] := bind_Ok_inv Hst.
have [H1 H2 H3 H4 H5] := IH _ Hst0.
have Hspec := step_Ok Hstep.
have [/(_ 0 (leq0n n)) [E1 E2 E3 E4 _] _] := step_frame Hspec.
split; rewrite ?E1 ?E2 ?E3 ?E4 // => k Hk.
have [_ [F_k [b_k [_ -> ->]]] _ _ _ _ _] := Hspec.
have Hne : k != n by rewrite neq_ltn Hk orbT.
rewrite getmx_setmx (negbTE Hne) getcol_setcol_other //.
exact: H5 (ltnW Hk).
Qed.

(** X14.  Lines 242-255 and 272-279.  In a run that returned, index [0] of
    the filtered and of the predicted arrays still holds the prior, which
    no iteration overwrites, and the last operator [F[NT - 1]],
    [b[:, NT - 1]] is never written: it is zero. *)
Theorem filter_keeps_prior_and_last_operator (st : state) :
  (0 < NT)%N -> run = Ok st ->
  [/\ getcol (x_tilde_c st) 0 = x_tilde_c_prior,
      getmx (Gamma_tilde_c st) 0 = Gamma_tilde_c_prior,
      getcol (x_tilde_c_predict st) 0 = x_tilde_c_prior,
      getmx (Gamma_tilde_c_predict st) 0 = Gamma_tilde_c_prior
    & getmx (F st) (NT - 1) = 0 /\ getcol (b st) (NT - 1) = 0].
Proof.
move=> HNT /(run_upto_ends HNT) [H1 H2 H3 H4 H5].
by split=> //; exact: H5 (leqnn _).
Qed.

(** The term an iteration adds to the process noise is symmetric. *)
Lemma eta_induced_covariance_sym (G : 'M[R]_Nx) (x : 'cV[R]_Nx) (t_star : R) :
  UT_eta = U_eta^T -> G^T = G ->
  (eta_term G x t_star)^T = eta_term G x t_star.
Proof.
move=> HUT HG; rewrite /eta_induced_covariance; cbv zeta.
have trZ (a : R) (A : 'M[R]_N) : (a *: A)^T = a *: A^T by rewrite linearZ.
rewrite trZ HUT !trmx_mul !trmxK trmx_getslice HG !mulmxA.
reflexivity.
Qed.

Lemma Gamma_tilde_c_w_sym :
  UT_eta = U_eta^T -> Gamma_alpha_w^T = Gamma_alpha_w ->
  Gamma_eta_w^T = Gamma_eta_w ->
  Gamma_tilde_c_w^T = Gamma_tilde_c_w.
Proof.
move=> HUT Ha He; rewrite /StateIden12.Gamma_tilde_c_w; cbv zeta.
rewrite !trmx_setslice /zeros trmx0 Ha.
rewrite /StateIden12.Gamma_eta_tilde_c_w !trmx_mul (trmx_U_eta_p eta_p HUT).
have -> : UT_eta_p^T = U_eta_p by rewrite -(trmx_U_eta_p eta_p HUT) trmxK.
by rewrite /StateIden12.Gamma_eta_tilde_w trmx_setslice /zeros trmx0 He mulmxA.
Qed.

(** X15.  Lines 152-164, 201-208 and 276.  The process noise of the filter
    stays symmetric: the matrix built before the loop is symmetric when
    [Gamma_alpha_w] and [Gamma_eta_w] are, and every iteration adds a
    symmetric term to its [alpha] block. *)
Theorem process_noise_stays_symmetric (n : nat) (st : state) :
  UT_eta = U_eta^T -> Gamma_alpha_w^T = Gamma_alpha_w ->
  Gamma_eta_w^T = Gamma_eta_w ->
  run_upto n = Ok st ->
  (Gamma_w (model st))^T = Gamma_w (model st).
Proof.
move=> HUT Ha He; elim: n st => [|n IH] st.
  case=> <-; rewrite /StateIden12.init.
  cbn [StateIden12.model StateIden12.Gamma_w].
  exact: Gamma_tilde_c_w_sym.
rewrite run_upto_S => Hst; have [st0 Hst0 Hstep] := bind_Ok_inv Hst.
have HG := IH _ Hst0.
have [_ _ _ -> _ _ _] := step_Ok Hstep.
have trD (A B : 'M[R]_N) : (A + B)^T = A^T + B^T by rewrite linearD.
by rewrite trmx_setslice HG trD trmx_getslice HG eta_induced_covariance_sym.
Qed.

End FilterExtras.

Section ReturnedArrays.

Variable R : fieldType.
Variables (N N_eta Ne_eta eta_p NT : nat).

Local Notation Nc_eta := (StateIden12.Nc_eta N_eta Ne_eta).
Local Notation Nx := (StateIden12.Nx N N_eta Ne_eta eta_p).

Variable U_eta : 'M[R]_(N_eta, Nc_eta).
Variable UT_eta : 'M[R]_(Nc_eta, N_eta).

Local Notation loop := (x_Gamma_loop U_eta UT_eta).

(** The blocks of [Gamma[k]] between [alpha] and [eta] are never
    written. *)
Lemma x_Gamma_loop_cross (x_c : 'M[R]_(N + Nc_eta, NT))
    (Gamma_c : seq 'M[R]_(N + Nc_eta)) (n k : nat) :
  getslice N N_eta (getmx (loop x_c Gamma_c n).2 k) 0 N = 0
  /\ getslice N_eta N (getmx (loop x_c Gamma_c n).2 k) N 0 = 0.
Proof.
elim: n => [|n IH].
  by rewrite /x_Gamma_loop /= getmx_zeros3 !getslice_zeros.
rewrite /x_Gamma_loop range_rcons foldl_rcons -/(loop x_c Gamma_c n).
case E: (loop x_c Gamma_c n) IH => [x Gamma] IH.
rewrite /snd in IH; cbv zeta beta; rewrite /snd.
case: (altP (k =P n)) => [Ek|Hne]; last first.
  by rewrite !getmx_setmx (negbTE Hne).
rewrite Ek in IH *; rewrite !getmx_setmx !eqxx.
by rewrite !getslice_setslice_disjoint ?add0n ?leqnn ?orbT.
Qed.

(** X16.  Lines 291-308.  The returned [alpha] and its covariance are the
    [alpha] block of the filtered state and covariance, and the returned
    [Gamma[k]] has zero blocks between [alpha] and [eta]: the
    cross-covariance estimated by the filter is not carried over. *)
Theorem returned_covariance_block_diagonal
    (x_tilde_c : 'M[R]_(Nx, NT)) (Gamma_tilde_c : seq 'M[R]_Nx) (k : nat) :
  (k < NT)%N ->
  let x_c := (StateIden12.x_c_Gamma_c x_tilde_c Gamma_tilde_c).1 in
  let Gamma_c := (StateIden12.x_c_Gamma_c x_tilde_c Gamma_tilde_c).2 in
  let x := (StateIden12.x_Gamma U_eta UT_eta x_c Gamma_c).1 in
  let Gamma := (StateIden12.x_Gamma U_eta UT_eta x_c Gamma_c).2 in
  [/\ getslice N 1 x 0 k = getslice N 1 x_tilde_c 0 k,
      getslice N N (getmx Gamma k) 0 0
        = getslice N N (getmx Gamma_tilde_c k) 0 0,
      getslice N N_eta (getmx Gamma k) 0 N = 0
    & getslice N_eta N (getmx Gamma k) N 0 = 0].
Proof.
move=> Hk x_c Gamma_c x Gamma.
have [H1 _ H3 _] :=
  x_Gamma_loop_expanded U_eta UT_eta x_c Gamma_c (leqnn NT) Hk.
have [H1' _ H3' _] :=
  x_c_Gamma_c_loop_current x_tilde_c Gamma_tilde_c (leqnn NT) Hk.
have [H5 H6] := x_Gamma_loop_cross x_c Gamma_c NT k.
rewrite /x /Gamma !x_Gamma_loop_NT; split=> //.
  by rewrite H1 /x_c x_c_Gamma_c_loop_NT H1'.
by rewrite H3 /Gamma_c x_c_Gamma_c_loop_NT H3'.
Qed.

Lemma getmx_Gamma_eta_of (Gamma : seq 'M[R]_(N + N_eta)) (k : nat) :
  getmx (StateIden12.Gamma_eta_of Gamma) k
  = getslice N_eta N_eta (getmx Gamma k) N N.
Proof.
rewrite /getmx /StateIden12.Gamma_eta_of.
case: (ltnP k (size Gamma)) => Hk; first exact: nth_map.
by rewrite !nth_default ?size_map // -[0 in RHS]/(zeros R _ _) getslice_zeros.
Qed.

(** X17.  Lines 291-316.  Every column of the returned [eta] is in the
    range of [U_eta]; when [UT_eta U_eta = I] the projection [U_eta UT_eta]
    fixes it, and applied on both sides it leaves the returned covariance
    of [eta] unchanged, whatever the filter estimated. *)
Theorem returned_eta_in_range_of_U
    (x_tilde_c : 'M[R]_(Nx, NT)) (Gamma_tilde_c : seq 'M[R]_Nx) (k : nat) :
  UT_eta *m U_eta = 1%:M ->
  (k < NT)%N ->
  let x_c := (StateIden12.x_c_Gamma_c x_tilde_c Gamma_tilde_c).1 in
  let Gamma_c := (StateIden12.x_c_Gamma_c x_tilde_c Gamma_tilde_c).2 in
  let x := (StateIden12.x_Gamma U_eta UT_eta x_c Gamma_c).1 in
  let Gamma := (StateIden12.x_Gamma U_eta UT_eta x_c Gamma_c).2 in
  let eta := StateIden12.eta_of x in
  let Gamma_eta := StateIden12.Gamma_eta_of Gamma in
  [/\ exists v : 'cV[R]_Nc_eta, getcol eta k = U_eta *m v,
      U_eta *m UT_eta *m getcol eta k = getcol eta k
    & U_eta *m UT_eta *m getmx Gamma_eta k *m (U_eta *m UT_eta)
      = getmx Gamma_eta k].
Proof.
move=> HU Hk x_c Gamma_c x Gamma eta Gamma_eta.
have [_ H2 _ H4] :=
  x_Gamma_loop_expanded U_eta UT_eta x_c Gamma_c (leqnn NT) Hk.
have Hcol : getcol eta k = U_eta *m getslice Nc_eta 1 x_c N k.
  rewrite /getcol /eta /StateIden12.eta_of.
  rewrite getslice_getslice ?addn1 ?leqnn //.
  by rewrite addn0 add0n /x x_Gamma_loop_NT H2.
split; first by exists (getslice Nc_eta 1 x_c N k).
  by rewrite Hcol -!mulmxA (mulmxA UT_eta U_eta) HU mul1mx.
rewrite /Gamma_eta getmx_Gamma_eta_of /Gamma x_Gamma_loop_NT H4.
rewrite -!mulmxA (mulmxA UT_eta U_eta) HU mul1mx.
by rewrite (mulmxA UT_eta U_eta) HU mul1mx.
Qed.

End ReturnedArrays.

Section StoredOperators.

Variable R : fieldType.
Variables (N N_eta Ne_eta eta_p NT M : nat) (dt : R).

Local Notation Nc_eta := (StateIden12.Nc_eta N_eta Ne_eta).
Local Notation Nx := (StateIden12.Nx N N_eta Ne_eta eta_p).

Variable U_eta : 'M[R]_(N_eta, Nc_eta).
Variable UT_eta : 'M[R]_(Nc_eta, N_eta).
Variable eta_A : nat -> 'M[R]_N_eta.
Variable F_alpha_eval : 'cV[R]_(N + N_eta) -> R -> 'cV[R]_N.
Variable dF_alpha_d_alpha : 'cV[R]_(N + N_eta) -> R -> 'M[R]_N.
Variable dF_alpha_d_eta : 'cV[R]_(N + N_eta) -> R -> 'M[R]_(N, N_eta).
Variable Y : 'M[R]_(M, NT).
Variable Gamma_alpha_w : 'M[R]_N.
Variable Gamma_eta_w : 'M[R]_N_eta.
Variable alpha_prior : 'cV[R]_N.
Variable Gamma_alpha_prior : 'M[R]_N.
Variable eta_prior : 'cV[R]_N_eta.
Variable Gamma_eta_prior : 'M[R]_N_eta.

Local Notation Kalman_filter := (StateIden12.Kalman_filter R N N_eta Ne_eta eta_p).
Local Notation state := (StateIden12.state R N N_eta Ne_eta eta_p NT).

Variable predict :
  Kalman_filter -> 'cV[R]_Nx -> 'M[R]_Nx -> nat -> result ('cV[R]_Nx * 'M[R]_Nx).
Variable update :
  Kalman_filter -> 'cV[R]_Nx -> 'M[R]_Nx -> 'cV[R]_M -> nat ->
  result ('cV[R]_Nx * 'M[R]_Nx).

Local Notation A_eta := (StateIden12.A_eta eta_p eta_A).
Local Notation U_eta_p := (StateIden12.U_eta_p eta_p U_eta).
Local Notation UT_eta_p := (StateIden12.UT_eta_p eta_p UT_eta).
Local Notation run :=
  (@StateIden12.run R N N_eta Ne_eta eta_p NT M dt U_eta UT_eta eta_A
     F_alpha_eval dF_alpha_d_alpha dF_alpha_d_eta Y Gamma_alpha_w Gamma_eta_w
     alpha_prior Gamma_alpha_prior eta_prior Gamma_eta_prior predict update).
Local Notation F := (@StateIden12.F R N N_eta Ne_eta eta_p NT).
Local Notation b := (@StateIden12.b R N N_eta Ne_eta eta_p NT).

(** X18.  Lines 118-149 and 272-274.  In a run that returned, the parameter
    rows of every stored operator [F[k]] are the same matrix
    [UT_eta_p A_eta U_eta_p] beside a zero block, and the parameter
    entries of every stored [b[:, k]] are zero: the parameter dynamics does
    not depend on the step nor on the state linearised at. *)
Theorem stored_parameter_dynamics_constant (st : state) (k : nat) :
  run = Ok st -> (k + 1 < NT)%N ->
  [/\ getslice (eta_p * Nc_eta) (eta_p * Nc_eta) (getmx (F st) k) N N
        = UT_eta_p *m (A_eta *m U_eta_p),
      getslice (eta_p * Nc_eta) N (getmx (F st) k) N 0 = 0
    & getrange (eta_p * Nc_eta) (getcol (b st) k) N = 0].
Proof.
move=> Hrun Hk; have [_ Hop _] := run_steps Hrun Hk.
have HA := joint_operator_Ok Hop; move: Hop.
rewrite (joint_operator_unit U_eta UT_eta eta_A F_alpha_eval _ _ _ HA).
move=> [<- <-].
by rewrite joint_F_eta_eta joint_F_eta_alpha joint_b_eta.
Qed.

End StoredOperators.

Lemma stored_parameter_dynamics_constant_witness :
  exists st,
    Example.filter_run_upto 1 = Ok st
    /\ getrange (1 * StateIden12.Nc_eta 1 1)
         (getcol (StateIden12.b st) 0) 1 = 0.
Proof.
have [st Hst] := example_filter_total 1.
have [_ _ H] := stored_parameter_dynamics_constant Hst (erefl (0 + 1 < 2)%N).
by exists st.
Defined.

(** ** The further properties at the instance *)

(** Two filtered trajectories of two time steps, for one and for four
    parameter coefficients. *)
Module ExampleArrays.

Definition x_tilde_c : 'M[rat]_(StateIden12.Nx 1 1 1 1, 2) := const_mx 1.
Definition Gamma_tilde_c : seq 'M[rat]_(StateIden12.Nx 1 1 1 1) :=
  [:: 1%:M; 1%:M].
Definition x_tilde_c4 : 'M[rat]_(StateIden12.Nx 1 4 4 1, 2) := const_mx 1.
Definition Gamma_tilde_c4 : seq 'M[rat]_(StateIden12.Nx 1 4 4 1) :=
  [:: 1%:M; 1%:M].

End ExampleArrays.

Lemma example_two_neq0 : 2%:R != 0 :> rat.
Proof. by []. Qed.

Lemma example_reduce_expand : Example.UT_eta *m Example.U_eta = 1%:M.
Proof. by rewrite /Example.UT_eta mul1mx. Qed.

Lemma evol06_step_trapezoid_witness :
  exists st,
    Evol06.run 2 Example.dt Example.F_eval Example.J_F_eval_d_alpha
      Example.alpha_0 = Ok st
    /\ getcol (Evol06.alpha st) (0 + 1) - getcol (Evol06.alpha st) 0
       = Example.dt
         *: Example.F_eval (getcol (Evol06.alpha st) 0) (0%:R * Example.dt)
         + (Example.dt / 2%:R)
           *: (Example.J_F_eval_d_alpha (getcol (Evol06.alpha st) 0)
                 (0%:R * Example.dt)
               *m (getcol (Evol06.alpha st) (0 + 1)
                   - getcol (Evol06.alpha st) 0)).
Proof.
have [st Hst] := example_evol_total 1.
exists st; split; first exact: Hst.
exact: (@evol06_step_trapezoid _ _ _ _ _ _ _ st 0 example_two_neq0 Hst
          (erefl _)).
Defined.

Lemma evol06_steady_state_witness :
  exists st,
    Evol06.run 2 Example.dt Example.F_eval Example.J_F_eval_d_alpha 0 = Ok st
    /\ forall k, (k < 2)%N -> getcol (Evol06.alpha st) k = 0.
Proof.
have [st Hst] :
    exists st,
      Evol06.run 2 Example.dt Example.F_eval Example.J_F_eval_d_alpha 0
      = Ok st.
  by apply: evol06_run_upto_total => a s; exact: example_unit.
exists st; split; first exact: Hst.
apply: (evol06_steady_state example_two_neq0 _ Hst) => s.
by rewrite /Example.F_eval oppr0.
Defined.

Lemma evol06_linear_model_witness :
  exists st,
    [/\ Evol06.run 2 Example.dt Example.F_eval Example.J_F_eval_d_alpha
          Example.alpha_0 = Ok st,
        forall a s F_evolution b_evolution,
          Evol06.compute_evolution_operator Example.dt Example.F_eval
            Example.J_F_eval_d_alpha a s = Ok (F_evolution, b_evolution) ->
          b_evolution = 0
      & forall k, (k < 2)%N ->
          getcol (Evol06.alpha st) k
          = iter k (mulmx (invmx (1%:M - (Example.dt / 2%:R) *: (- 1%:M))
                           *m (1%:M + (Example.dt / 2%:R) *: (- 1%:M))))
              Example.alpha_0].
Proof.
have HF (a : 'cV[rat]_1) (s : rat) : Example.F_eval a s = (- 1%:M) *m a.
  by rewrite /Example.F_eval mulNmx mul1mx.
have HJ (a : 'cV[rat]_1) (s : rat) :
    Example.J_F_eval_d_alpha a s = - 1%:M by [].
have [st Hst] := example_evol_total 1.
have [Hop Hcol] := evol06_linear_model HF HJ Hst.
exists st; split=> // a s F_evolution b_evolution H.
by have [] := Hop a s F_evolution b_evolution H.
Defined.

Lemma evol06_line_125_redundant_witness :
  Evol06.run_upto 2 Example.dt Example.F_eval Example.J_F_eval_d_alpha
    Example.alpha_0 1
  = for_range
      (@Evol06.step rat 1 2 Example.dt Example.F_eval
         Example.J_F_eval_d_alpha)
      (range 1) (Evol06.init 2 Example.alpha_0).
Proof.
exact: (@evol06_line_125_redundant _ _ 2 Example.dt Example.F_eval
          Example.J_F_eval_d_alpha Example.alpha_0 1 (ltn0Sn 0)).
Defined.

Lemma evol06_single_time_step_witness :
  Evol06.run 1 Example.dt Example.F_eval Example.J_F_eval_d_alpha
    Example.alpha_0
  = (_ <- linalg_inv
            (evol06_implicit_matrix Example.dt Example.J_F_eval_d_alpha
               (getcol (Evol06.alpha (Evol06.init 1 Example.alpha_0)) 0)
               (at1 (Evol06.t (Evol06.init 1 Example.alpha_0)) 0)) ;;
     Ok (Evol06.init 1 Example.alpha_0)).
Proof.
exact: (@evol06_single_time_step _ _ 1 Example.dt Example.F_eval
          Example.J_F_eval_d_alpha Example.alpha_0 (erefl _)).
Defined.

Lemma stacked_continuity_round_trip_witness :
  Example.U4^T *m Example.U4 = 1%:M
  /\ StateIden12.UT_eta_p 2 Example.U4^T *m StateIden12.U_eta_p 2 Example.U4
     = 1%:M.
Proof.
have [_ HU _] := example_contract.
have [_ _ H _] :=
  @stacked_continuity_round_trip _ _ _ 2 Example.U4 Example.U4^T HU.
by split.
Defined.

Lemma B_eta_sums_current_and_next_witness :
  StateIden12.B_eta 2 (fun _ => (1%:M : 'M[rat]_1))
    *m (const_mx 1 : 'cV[rat]_(2 * 1))
  = getslice 1 1 (const_mx 1 : 'cV[rat]_(2 * 1)) 0 0
    + getslice 1 1
        (StateIden12.A_eta 2 (fun _ => (1%:M : 'M[rat]_1))
         *m (const_mx 1 : 'cV[rat]_(2 * 1))) 0 0.
Proof.
exact: (@B_eta_sums_current_and_next _ _ 2 (fun _ => 1%:M) (ltn0Sn 1)).
Defined.

Lemma process_noise_on_current_lag_witness :
  getslice (StateIden12.Nc_eta 1 1) (StateIden12.Nc_eta 1 1)
    (StateIden12.Gamma_eta_tilde_c_w 2 Example.U_eta Example.UT_eta
       Example.Gamma_eta_w)
    (0 * StateIden12.Nc_eta 1 1) (1 * StateIden12.Nc_eta 1 1)
  = 0.
Proof.
exact: (@process_noise_on_current_lag _ _ _ 2 Example.U_eta Example.UT_eta
          Example.Gamma_eta_w 0 1 (erefl _) (erefl _)).
Defined.

Lemma prior_repeats_over_lags_witness :
  getrange (StateIden12.Nc_eta 1 1)
    (StateIden12.eta_tilde_c_prior 2 Example.UT_eta Example.eta_prior)
    (1 * StateIden12.Nc_eta 1 1)
  = Example.UT_eta *m Example.eta_prior
  /\ getslice (StateIden12.Nc_eta 1 1) (StateIden12.Nc_eta 1 1)
       (StateIden12.Gamma_eta_tilde_c_prior 2 Example.U_eta Example.UT_eta
          Example.Gamma_eta_prior)
       (1 * StateIden12.Nc_eta 1 1) (0 * StateIden12.Nc_eta 1 1)
     = 0.
Proof.
exact: (@prior_repeats_over_lags _ _ _ 2 Example.U_eta Example.UT_eta
          Example.eta_prior Example.Gamma_eta_prior 1 0 (erefl _) (erefl _)).
Defined.

Lemma prediction_shifts_parameter_lags_witness :
  exists F_evolution b_evolution,
    @StateIden12.compute_evolution_operator rat 1 1 1 2 Example.dt
      Example.U_eta Example.UT_eta Example.eta_A Example.F_alpha_eval
      0 0 (- 1%:M) 0
    = Ok (F_evolution, b_evolution)
    /\ forall y : 'cV[rat]_(StateIden12.Nx 1 1 1 2),
         getrange (StateIden12.Nc_eta 1 1) (F_evolution *m y + b_evolution)
           (1 + 1 * StateIden12.Nc_eta 1 1)
         = getrange (StateIden12.Nc_eta 1 1) y
             (1 + (1 - 1) * StateIden12.Nc_eta 1 1).
Proof.
have Hop :=
  @joint_operator_unit rat 1 1 1 2 Example.dt Example.U_eta Example.UT_eta
    Example.eta_A Example.F_alpha_eval 0 0 (- 1%:M) 0
    (example_unit (erefl _)).
eexists; eexists; split; first exact: Hop.
move=> y.
have [H _] := prediction_shifts_parameter_lags example_reduce_expand Hop y.
exact: H 1%N (erefl _) (erefl _).
Defined.

Lemma jacobians_at_expanded_state_witness :
  @StateIden12.compute_evolution_operator_Jacobians rat 1 1 1 1
    Example.U_eta Example.dF_alpha_d_alpha Example.dF_alpha_d_eta 0 0
  = (Example.dF_alpha_d_alpha
       (col_mx (getrange 1 (0 : 'cV[rat]_(StateIden12.Nx 1 1 1 1)) 0)
          (Example.U_eta
           *m getrange (StateIden12.Nc_eta 1 1)
                (0 : 'cV[rat]_(StateIden12.Nx 1 1 1 1)) 1)) 0,
     Example.dF_alpha_d_eta
       (col_mx (getrange 1 (0 : 'cV[rat]_(StateIden12.Nx 1 1 1 1)) 0)
          (Example.U_eta
           *m getrange (StateIden12.Nc_eta 1 1)
                (0 : 'cV[rat]_(StateIden12.Nx 1 1 1 1)) 1)) 0).
Proof.
exact: (@jacobians_at_expanded_state _ _ _ _ _ Example.U_eta
          Example.dF_alpha_d_alpha Example.dF_alpha_d_eta (ltn0Sn 0) 0 0).
Defined.

Lemma observation_noise_diagonal_witness :
  getmx (StateIden12Obs.Gamma_v Example.Y 1 1) 1 (ord0 : 'I_1) (ord0 : 'I_1)
  = if (ord0 : 'I_1) == (ord0 : 'I_1)
    then 1 ^+ 2 * at2 Example.Y (ord0 : 'I_1) 1 + 1 ^+ 2
    else 0.
Proof.
exact: (@observation_noise_diagonal _ _ _ Example.Y 1 1 1 (erefl _) ord0 ord0).
Defined.

Lemma filter_keeps_prior_and_last_operator_witness :
  exists st,
    Example.filter_run_upto 1 = Ok st
    /\ getcol (StateIden12.x_tilde_c st) 0
       = StateIden12.x_tilde_c_prior 1 Example.UT_eta Example.alpha_prior
           Example.eta_prior
    /\ getmx (StateIden12.F st) (2 - 1) = 0.
Proof.
have [st Hst] := example_filter_total 1.
have [H1 _ _ _ [H5 _]] :=
  filter_keeps_prior_and_last_operator (erefl (0 < 2)%N) Hst.
by exists st.
Defined.

Lemma process_noise_stays_symmetric_witness :
  exists st,
    Example.filter_run_upto 1 = Ok st
    /\ (StateIden12.Gamma_w (StateIden12.model st))^T
       = StateIden12.Gamma_w (StateIden12.model st).
Proof.
have [st Hst] := example_filter_total 1.
exists st; split; first exact: Hst.
apply: (process_noise_stays_symmetric example_transpose _ _ Hst).
  exact: trmx1.
exact: trmx1.
Defined.

Lemma returned_covariance_block_diagonal_witness :
  getslice 1 1
    (getmx
       (StateIden12.x_Gamma Example.U_eta Example.UT_eta
          (StateIden12.x_c_Gamma_c ExampleArrays.x_tilde_c ExampleArrays.Gamma_tilde_c).1
          (StateIden12.x_c_Gamma_c ExampleArrays.x_tilde_c ExampleArrays.Gamma_tilde_c).2).2
       1) 0 1
  = 0.
Proof.
have [_ _ H _] :=
  @returned_covariance_block_diagonal _ _ _ _ _ _ Example.U_eta
    Example.UT_eta ExampleArrays.x_tilde_c ExampleArrays.Gamma_tilde_c 1 (erefl _).
exact: H.
Defined.

Lemma returned_eta_in_range_of_U_witness :
  Example.U4 *m Example.U4^T
  *m getcol
       (StateIden12.eta_of
          (StateIden12.x_Gamma Example.U4 Example.U4^T
             (StateIden12.x_c_Gamma_c ExampleArrays.x_tilde_c4
                ExampleArrays.Gamma_tilde_c4).1
             (StateIden12.x_c_Gamma_c ExampleArrays.x_tilde_c4
                ExampleArrays.Gamma_tilde_c4).2).1)
       0
  = getcol
      (StateIden12.eta_of
         (StateIden12.x_Gamma Example.U4 Example.U4^T
            (StateIden12.x_c_Gamma_c ExampleArrays.x_tilde_c4
               ExampleArrays.Gamma_tilde_c4).1
            (StateIden12.x_c_Gamma_c ExampleArrays.x_tilde_c4
               ExampleArrays.Gamma_tilde_c4).2).1)
      0.
Proof.
have [_ HU _] := example_contract.
have [_ H _] :=
  @returned_eta_in_range_of_U _ _ _ _ _ _ _ _ ExampleArrays.x_tilde_c4
    ExampleArrays.Gamma_tilde_c4 0 HU (erefl _).
exact: H.
Defined.

(* ===================================================================== *)
(** * Part VI: the coupled operator, the filter recursion and the inversion *)
(* ===================================================================== *)

(** Columns [c0 : c0 + c'] of rows [r0 : r0 + h] of a product. *)
Lemma getslice_mulmx_cols (R : fieldType) (m n c h c' : nat)
    (A : 'M[R]_(m, n)) (B : 'M[R]_(n, c)) (r0 c0 : nat) :
  (r0 + h <= m)%N -> (c0 + c' <= c)%N ->
  getslice h c' (A *m B) r0 c0 = getslice h n A r0 0 *m getslice n c' B 0 c0.
Proof.
move=> Hr Hc; apply/matrixP => a b; rewrite !mxE.
have Ha : (r0 + a < m)%N by apply: leq_trans Hr; rewrite ltn_add2l.
have Hb : (c0 + b < c)%N by apply: leq_trans Hc; rewrite ltn_add2l.
rewrite at2_mulmx // big_mkord; apply: eq_bigr => l _.
by rewrite !mxE !add0n.
Qed.

(** Lines 101-115: both Jacobians are evaluated at [[alpha; U_eta eta_c]],
    read from the first [N + Nc_eta] entries of the joint state. *)
Lemma Jacobians_expanded (R : fieldType) (N N_eta Ne_eta eta_p : nat)
    (U_eta : 'M[R]_(N_eta, StateIden12.Nc_eta N_eta Ne_eta))
    (dF_alpha_d_alpha : 'cV[R]_(N + N_eta) -> R -> 'M[R]_N)
    (dF_alpha_d_eta : 'cV[R]_(N + N_eta) -> R -> 'M[R]_(N, N_eta))
    (x : 'cV[R]_(StateIden12.Nx N N_eta Ne_eta eta_p)) (t_star : R) :
  (0 < eta_p)%N ->
  let x_star :=
    col_mx (getrange N x 0)
      (U_eta *m getrange (StateIden12.Nc_eta N_eta Ne_eta) x N) in
  StateIden12.compute_evolution_operator_Jacobians U_eta dF_alpha_d_alpha
    dF_alpha_d_eta x t_star
  = (dF_alpha_d_alpha x_star t_star, dF_alpha_d_eta x_star t_star)
  /\ StateIden12.x_star_of U_eta x = x_star.
Proof.
move=> Hp x_star.
have E : StateIden12.x_star_of U_eta x = x_star.
  by rewrite [LHS]col_mx_getrange x_star_alpha x_star_eta.
split=> //; rewrite -E /StateIden12.compute_evolution_operator_Jacobians.
by rewrite /StateIden12.x_star_of /setrange !setslice_empty.
Qed.

Section JointRun.

Variable R : fieldType.
Variables (N NT : nat) (dt : R).

(** [evol_06.py]. *)
Variable F_eval : 'cV[R]_N -> R -> 'cV[R]_N.
Variable J_F_eval_d_alpha : 'cV[R]_N -> R -> 'M[R]_N.
Variable alpha_0 : 'cV[R]_N.

(** [state_iden_12_main.py]. *)
Variables (N_eta Ne_eta eta_p M : nat).

Local Notation Nc_eta := (StateIden12.Nc_eta N_eta Ne_eta).
Local Notation Nx := (StateIden12.Nx N N_eta Ne_eta eta_p).

Variable U_eta : 'M[R]_(N_eta, Nc_eta).
Variable UT_eta : 'M[R]_(Nc_eta, N_eta).
Variable eta_A : nat -> 'M[R]_N_eta.
Variable F_alpha_eval : 'cV[R]_(N + N_eta) -> R -> 'cV[R]_N.
Variable dF_alpha_d_alpha : 'cV[R]_(N + N_eta) -> R -> 'M[R]_N.
Variable dF_alpha_d_eta : 'cV[R]_(N + N_eta) -> R -> 'M[R]_(N, N_eta).
Variable Y : 'M[R]_(M, NT).
Variable Gamma_alpha_w : 'M[R]_N.
Variable Gamma_eta_w : 'M[R]_N_eta.
Variable alpha_prior : 'cV[R]_N.
Variable Gamma_alpha_prior : 'M[R]_N.
Variable eta_prior : 'cV[R]_N_eta.
Variable Gamma_eta_prior : 'M[R]_N_eta.

Local Notation Kalman_filter := (StateIden12.Kalman_filter R N N_eta Ne_eta eta_p).
Local Notation state := (StateIden12.state R N N_eta Ne_eta eta_p NT).

Variable predict :
  Kalman_filter -> 'cV[R]_Nx -> 'M[R]_Nx -> nat -> result ('cV[R]_Nx * 'M[R]_Nx).
Variable update :
  Kalman_filter -> 'cV[R]_Nx -> 'M[R]_Nx -> 'cV[R]_M -> nat ->
  result ('cV[R]_Nx * 'M[R]_Nx).

Local Notation evol_operator :=
  (Evol06.compute_evolution_operator dt F_eval J_F_eval_d_alpha).
Local Notation evol_run_upto :=
  (@Evol06.run_upto R N NT dt F_eval J_F_eval_d_alpha alpha_0).
Local Notation evol_run :=
  (@Evol06.run R N NT dt F_eval J_F_eval_d_alpha alpha_0).

Local Notation A_eta := (StateIden12.A_eta eta_p eta_A).
Local Notation B_eta := (StateIden12.B_eta eta_p eta_A).
Local Notation U_eta_p := (StateIden12.U_eta_p eta_p U_eta).
Local Notation UT_eta_p := (StateIden12.UT_eta_p eta_p UT_eta).
Local Notation x_star_of :=
  (@StateIden12.x_star_of R N N_eta Ne_eta eta_p U_eta).
Local Notation Jacobians :=
  (@StateIden12.compute_evolution_operator_Jacobians R N N_eta Ne_eta eta_p
     U_eta dF_alpha_d_alpha dF_alpha_d_eta).
Local Notation joint_operator :=
  (@StateIden12.compute_evolution_operator R N N_eta Ne_eta eta_p dt
     U_eta UT_eta eta_A F_alpha_eval).
Local Notation alpha_covariance :=
  (@StateIden12.compute_evolution_operator_alpha_covariance R N N_eta Ne_eta
     eta_p dt U_eta UT_eta).
Local Notation Gamma_tilde_c_w :=
  (@StateIden12.Gamma_tilde_c_w R N N_eta Ne_eta eta_p U_eta UT_eta
     Gamma_alpha_w Gamma_eta_w).
Local Notation x_tilde_c_prior :=
  (@StateIden12.x_tilde_c_prior R N N_eta Ne_eta eta_p UT_eta alpha_prior
     eta_prior).
Local Notation Gamma_tilde_c_prior :=
  (@StateIden12.Gamma_tilde_c_prior R N N_eta Ne_eta eta_p U_eta UT_eta
     Gamma_alpha_prior Gamma_eta_prior).
Local Notation eta_tilde_prior := (StateIden12.eta_tilde_prior eta_p eta_prior).
Local Notation Gamma_eta_tilde_prior :=
  (StateIden12.Gamma_eta_tilde_prior eta_p Gamma_eta_prior).
Local Notation Gamma_eta_tilde_w :=
  (StateIden12.Gamma_eta_tilde_w eta_p Gamma_eta_w).
Local Notation filter_step :=
  (@StateIden12.step R N N_eta Ne_eta eta_p NT M dt U_eta UT_eta eta_A
     F_alpha_eval dF_alpha_d_alpha dF_alpha_d_eta Y predict update).
Local Notation filter_run_upto :=
  (@StateIden12.run_upto R N N_eta Ne_eta eta_p NT M dt U_eta UT_eta eta_A
     F_alpha_eval dF_alpha_d_alpha dF_alpha_d_eta Y Gamma_alpha_w Gamma_eta_w
     alpha_prior Gamma_alpha_prior eta_prior Gamma_eta_prior predict update).
Local Notation filter_run :=
  (@StateIden12.run R N N_eta Ne_eta eta_p NT M dt U_eta UT_eta eta_A
     F_alpha_eval dF_alpha_d_alpha dF_alpha_d_eta Y Gamma_alpha_w Gamma_eta_w
     alpha_prior Gamma_alpha_prior eta_prior Gamma_eta_prior predict update).
Local Notation filter_step_done :=
  (@step_done R N N_eta Ne_eta eta_p NT M dt U_eta UT_eta eta_A F_alpha_eval
     dF_alpha_d_alpha dF_alpha_d_eta Y predict update).
Local Notation x_tilde_c := (@StateIden12.x_tilde_c R N N_eta Ne_eta eta_p NT).
Local Notation filter_t := (@StateIden12.t R N N_eta Ne_eta eta_p NT).
Local Notation model := (@StateIden12.model R N N_eta Ne_eta eta_p NT).
Local Notation Gamma_w := (@StateIden12.Gamma_w R N N_eta Ne_eta eta_p).

Variable mean_epsilon : 'cV[R]_Nx.
Variable Gamma_epsilon : 'M[R]_Nx.

Local Notation F := (@StateIden12.F R N N_eta Ne_eta eta_p NT).
Local Notation b := (@StateIden12.b R N N_eta Ne_eta eta_p NT).
Local Notation x_tilde_c_predict :=
  (@StateIden12.x_tilde_c_predict R N N_eta Ne_eta eta_p NT).
Local Notation Gamma_tilde_c :=
  (@StateIden12.Gamma_tilde_c R N N_eta Ne_eta eta_p NT).
Local Notation Gamma_tilde_c_predict :=
  (@StateIden12.Gamma_tilde_c_predict R N N_eta Ne_eta eta_p NT).

(** C2.  The joint evolution matrix.  Its [alpha]-[eta] block is
    [Mi (dt/2) J_eta B_eta U_eta_p]: beside lag [j] of the parameter stack
    it holds [Mi (dt/2) J_eta (eta_A[j] + [j = 0] I) U_eta], the
    autoregressive coefficients of lines 80-83 expanded by the continuity
    matrix of lines 62-66.  Its parameter rows are [UT_eta_p A_eta U_eta_p]
    beside a zero block: block [(i, j)] is [UT_eta eta_A[j] U_eta] on the
    top block-row, [UT_eta U_eta] on the block sub-diagonal and zero
    elsewhere.  So one product with it propagates the [alpha] block and the
    parameter block together. *)
Theorem joint_evolution_matrix_blocks :
  forall (x : 'cV[R]_Nx) (t_star : R) (J_alpha : 'M[R]_N)
         (J_eta : 'M[R]_(N, N_eta)),
    1%:M - (dt / 2%:R) *: J_alpha \in unitmx ->
    exists (Mi : 'M[R]_N) (F_evolution : 'M[R]_Nx) (b_evolution : 'cV[R]_Nx),
      [/\ Mi *m (1%:M - (dt / 2%:R) *: J_alpha) = 1%:M
          /\ joint_operator x t_star J_alpha J_eta
             = Ok (F_evolution, b_evolution),
          getslice N (eta_p * Nc_eta) F_evolution 0 N
            = Mi *m ((dt / 2%:R) *: J_eta) *m B_eta *m U_eta_p
          /\ (forall j, (j < eta_p)%N ->
                getslice N Nc_eta F_evolution 0 (N + j * Nc_eta)
                = Mi *m ((dt / 2%:R) *: J_eta)
                  *m (if j == 0%N then eta_A 0 + 1%:M else eta_A j)
                  *m U_eta),
          getslice (eta_p * Nc_eta) (eta_p * Nc_eta) F_evolution N N
            = UT_eta_p *m (A_eta *m U_eta_p)
          /\ (forall i j, (i < eta_p)%N -> (j < eta_p)%N ->
                getslice Nc_eta Nc_eta F_evolution
                  (N + i * Nc_eta) (N + j * Nc_eta)
                = UT_eta
                  *m ((if i == 0%N then eta_A j
                       else if i == j.+1 then 1%:M else 0) *m U_eta)),
          getslice (eta_p * Nc_eta) N F_evolution N 0 = 0
        & forall y : 'cV[R]_Nx,
            getrange N (F_evolution *m y) 0
              = Mi *m (1%:M + (dt / 2%:R) *: J_alpha) *m getrange N y 0
                + Mi *m ((dt / 2%:R) *: J_eta) *m B_eta *m U_eta_p
                  *m getrange (eta_p * Nc_eta) y N
            /\ getrange (eta_p * Nc_eta) (F_evolution *m y) N
              = UT_eta_p *m (A_eta *m U_eta_p)
                *m getrange (eta_p * Nc_eta) y N].
Proof.
move=> x t_star J_alpha J_eta HA.
exists (invmx (1%:M - (dt / 2%:R) *: J_alpha)).
rewrite (joint_operator_unit U_eta UT_eta eta_A F_alpha_eval x t_star J_eta HA).
eexists; eexists; split; [split; [exact: mulVmx|reflexivity]| | | |].
- split=> [|j Hj]; first exact: joint_F_alpha_eta.
  rewrite -(@getslice_getslice _ N (eta_p * Nc_eta) N Nc_eta _ _ _
              0 N 0 (j * Nc_eta) (leqnn _) (block_in_range Nc_eta Hj)).
  rewrite joint_F_alpha_eta.
  rewrite (blockdiag_mul_cols (@U_eta_p_blocks _ _ _ eta_p U_eta)) ?leqnn //.
  rewrite getslice_mulmx_cols ?leqnn ?block_in_range // getslice_full.
  by rewrite B_eta_blocks // -!mulmxA.
- split=> [|i j Hi Hj]; first exact: joint_F_eta_eta.
  rewrite -(@getslice_getslice _ (eta_p * Nc_eta) (eta_p * Nc_eta)
              Nc_eta Nc_eta _ _ _ N N (i * Nc_eta) (j * Nc_eta)
              (block_in_range Nc_eta Hi) (block_in_range Nc_eta Hj)).
  rewrite joint_F_eta_eta reduced_block //.
  by have := A_eta_blocks eta_A Hi Hj; rewrite /block_eta => ->.
- exact: joint_F_eta_alpha.
- by move=> y; rewrite joint_F_mul_alpha joint_F_mul_eta.
Qed.

(** C3.  The operator of step [k] is the linearisation at the current
    state.  In a run of [evol_06.py] that returned, for every step [k]
    the next column is [F alpha_k + b] with [(F, b)] the Crank-Nicolson
    pair of the Jacobian at [(alpha_k, k dt)]: one affine map per step, no
    iteration on [alpha_(k+1)].  In a run of the filter that returned, the
    Jacobians of step [k] are those at [[alpha_k; U_eta eta_c_k]], read
    from the filtered column [x_tilde_c[:, k]], and at time [k dt]; [F[k]]
    and [b[:, k]] are the joint operator built from them; the predicted
    state of index [k + 1] is [F[k] x_tilde_c[:, k] + b[:, k]] (plus the
    fixed correction of the filter), and the filtered state of index
    [k + 1] is the update of that prediction. *)
Theorem linearised_at_current_state :
  (forall st : Evol06.state R N NT,
     evol_run = Ok st ->
     forall k, (k + 1 < NT)%N ->
       let alpha_k := getcol (Evol06.alpha st) k in
       let t_k := k%:R * dt in
       let J_k := J_F_eval_d_alpha alpha_k t_k in
       exists Mi : 'M[R]_N,
         [/\ Mi *m (1%:M - (dt / 2%:R) *: J_k) = 1%:M,
             (1%:M - (dt / 2%:R) *: J_k) *m Mi = 1%:M,
             at1 (Evol06.t st) k = t_k
           & getcol (Evol06.alpha st) (k + 1)
             = Mi *m (1%:M + (dt / 2%:R) *: J_k) *m alpha_k
               + Mi *m (dt *: (F_eval alpha_k t_k - J_k *m alpha_k))])
  /\
  (forall st : state,
     (0 < eta_p)%N ->
     predict_contract mean_epsilon Gamma_epsilon predict ->
     filter_run = Ok st ->
     forall k, (k + 1 < NT)%N ->
       let x_k := getcol (x_tilde_c st) k in
       let t_k := k%:R * dt in
       let alpha_k := getrange N x_k 0 in
       let eta_k := U_eta *m getrange Nc_eta x_k N in
       let x_star := col_mx alpha_k eta_k in
       let J_alpha := dF_alpha_d_alpha x_star t_k in
       let J_eta := dF_alpha_d_eta x_star t_k in
       let bias :=
         F_alpha_eval x_star t_k - J_alpha *m alpha_k - J_eta *m eta_k in
       exists Mi : 'M[R]_N,
         [/\ Mi *m (1%:M - (dt / 2%:R) *: J_alpha) = 1%:M
             /\ (1%:M - (dt / 2%:R) *: J_alpha) *m Mi = 1%:M,
             at1 (filter_t st) k = t_k
             /\ joint_operator x_k t_k J_alpha J_eta
                = Ok (getmx (F st) k, getcol (b st) k),
             getslice N N (getmx (F st) k) 0 0
               = Mi *m (1%:M + (dt / 2%:R) *: J_alpha)
             /\ getrange N (getcol (b st) k) 0 = Mi *m (dt *: bias),
             getcol (x_tilde_c_predict st) (k + 1)
               = getmx (F st) k *m x_k + getcol (b st) k + mean_epsilon
           & exists m : Kalman_filter,
               update m (getcol (x_tilde_c_predict st) (k + 1))
                 (getmx (Gamma_tilde_c_predict st) (k + 1))
                 (getcol Y (k + 1)) k
               = Ok (getcol (x_tilde_c st) (k + 1),
                     getmx (Gamma_tilde_c st) (k + 1))]).
Proof.
split=> [st Hrun k Hk|st Hp Hpred Hrun k Hk].
  have HkNT : (k.+1 < NT)%N by rewrite -addn1.
  have HNT : (NT - 1 < NT)%N by rewrite subn1 ltn_predL (leq_trans _ HkNT).
  have [Ht Hsteps] := evol06_run_upto_inv HNT Hrun.
  have Hk1 : (k < NT - 1)%N by rewrite subn1 -ltnS prednK // (leq_trans _ HkNT).
  have [F_evolution [b_evolution [Hop Hnext]]] := Hsteps k Hk1.
  have HA := evol06_operator_Ok Hop.
  move: Hop; rewrite (evol06_operator_unit F_eval HA) => -[HF Hb].
  exists (invmx (evol06_implicit_matrix dt J_F_eval_d_alpha
                   (getcol (Evol06.alpha st) k) (k%:R * dt))).
  split; [exact: mulVmx|exact: mulmxV|exact: Ht (ltnW Hk1)|].
  by rewrite Hnext -HF -Hb.
move=> x_k t_k alpha_k eta_k x_star J_alpha J_eta bias.
have HkNT : (k.+1 < NT)%N by rewrite -addn1.
have HNT : (NT - 1 < NT)%N by rewrite subn1 ltn_predL (leq_trans _ HkNT).
have Hk1 : (k < NT - 1)%N by rewrite subn1 -ltnS prednK // (leq_trans _ HkNT).
have [Ht Hdone _ _] := run_upto_inv HNT Hrun.
have [HJ Hstar] :=
  Jacobians_expanded U_eta dF_alpha_d_alpha dF_alpha_d_eta x_k t_k Hp.
have [] := Hdone k Hk1.
rewrite /joint_implicit_matrix HJ -/x_k -/t_k -/alpha_k -/eta_k -/x_star.
rewrite -/J_alpha -/J_eta [(_, _).1]/= [(_, _).2]/= => HA Hop [m [HmF Hmb Hmp Hmu]].
exists (invmx (1%:M - (dt / 2%:R) *: J_alpha)); split.
- by split; [exact: mulVmx|exact: mulmxV].
- by split=> //; exact: Ht (ltnW Hk1).
- move: Hop.
  rewrite (joint_operator_unit U_eta UT_eta eta_A F_alpha_eval x_k t_k J_eta HA).
  case=> <- <-; split; first exact: joint_F_alpha_alpha.
  rewrite joint_b_alpha /joint_bias x_star_alpha x_star_eta //.
  by rewrite Hstar.
- by move: Hmp; rewrite Hpred HmF Hmb => -[<- _].
- by exists m.
Qed.


(** C8.  The process noise of the filter accumulates.  Iteration [n] of
    the loop ([n + 1 < NT]) writes into the [alpha] block of
    [model.Gamma_w] the block left by iteration [n - 1] plus
    [(dt^2/4) Mi (J_eta Gamma_eta J_eta^T) Mi^T], and leaves the other
    blocks; after [n] iterations the block is the base [Gamma_alpha_w]
    plus the sum of the [n] terms. *)
Theorem process_noise_accumulates :
  forall (n : nat) (st : state),
    filter_run_upto n = Ok st ->
    ((n + 1 < NT)%N ->
     forall st' : state,
       filter_step st n = Ok st' ->
       let x_n := getcol (x_tilde_c st) n in
       let t_n := n%:R * dt in
       let J_eta := (Jacobians x_n t_n).2 in
       let Mi := invmx (1%:M - (dt / 2%:R) *: (Jacobians x_n t_n).1) in
       let Gamma_eta :=
         U_eta *m (getslice Nc_eta Nc_eta (Gamma_w (model st)) N N
                   *m UT_eta) in
       [/\ at1 (filter_t st) n = t_n,
           getslice N N (Gamma_w (model st')) 0 0
           = getslice N N (Gamma_w (model st)) 0 0
             + (dt ^+ 2 / 4%:R)
               *: (Mi *m (J_eta *m (Gamma_eta *m J_eta^T) *m Mi^T))
         & getslice (eta_p * Nc_eta) (eta_p * Nc_eta)
             (Gamma_w (model st')) N N
           = getslice (eta_p * Nc_eta) (eta_p * Nc_eta)
               (Gamma_w (model st)) N N])
    /\ ((n < NT)%N ->
        getslice N N (Gamma_w (model st)) 0 0
        = Gamma_alpha_w
          + \sum_(0 <= k < n)
              eta_induced_covariance dt U_eta UT_eta dF_alpha_d_alpha
                dF_alpha_d_eta Gamma_tilde_c_w
                (getcol (x_tilde_c st) k) (k%:R * dt)).
Proof.
move=> n st Hrun; split=> [Hn st' Hstep x_n t_n J_eta Mi Gamma_eta|Hn].
  have Hn' : (n < NT)%N by apply: leq_trans Hn; rewrite addn1.
  have [Ht _ _ _] := run_upto_inv Hn' Hrun.
  have [_ _ Hkeep] := step_other_blocks Hstep.
  split=> //; first exact: Ht (leqnn n).
  by rewrite (step_alpha_block Hstep) (Ht n (leqnn n)).
exact: run_upto_alpha_block Hn Hrun.
Qed.

End JointRun.

Section ClockAndInputs.

Variable R : fieldType.
Variables (N NT : nat) (dt : R).
Variables F_eval F_eval' : 'cV[R]_N -> R -> 'cV[R]_N.
Variables J_F_eval_d_alpha J_F_eval_d_alpha' : 'cV[R]_N -> R -> 'M[R]_N.
Variable alpha_0 : 'cV[R]_N.

Variables (N_eta Ne_eta eta_p M : nat).

Local Notation Nc_eta := (StateIden12.Nc_eta N_eta Ne_eta).
Local Notation Nx := (StateIden12.Nx N N_eta Ne_eta eta_p).

Variable U_eta : 'M[R]_(N_eta, Nc_eta).
Variable UT_eta : 'M[R]_(Nc_eta, N_eta).
Variable eta_A : nat -> 'M[R]_N_eta.
Variables F_alpha_eval F_alpha_eval' : 'cV[R]_(N + N_eta) -> R -> 'cV[R]_N.
Variables dF_alpha_d_alpha dF_alpha_d_alpha' :
  'cV[R]_(N + N_eta) -> R -> 'M[R]_N.
Variables dF_alpha_d_eta dF_alpha_d_eta' :
  'cV[R]_(N + N_eta) -> R -> 'M[R]_(N, N_eta).
Variable Y : 'M[R]_(M, NT).
Variable Gamma_alpha_w : 'M[R]_N.
Variable Gamma_eta_w : 'M[R]_N_eta.
Variable alpha_prior : 'cV[R]_N.
Variable Gamma_alpha_prior : 'M[R]_N.
Variable eta_prior : 'cV[R]_N_eta.
Variable Gamma_eta_prior : 'M[R]_N_eta.

Local Notation Kalman_filter := (StateIden12.Kalman_filter R N N_eta Ne_eta eta_p).

Variables predict predict' :
  Kalman_filter -> 'cV[R]_Nx -> 'M[R]_Nx -> nat -> result ('cV[R]_Nx * 'M[R]_Nx).
Variables update update' :
  Kalman_filter -> 'cV[R]_Nx -> 'M[R]_Nx -> 'cV[R]_M -> nat ->
  result ('cV[R]_Nx * 'M[R]_Nx).

Variable round3 : R -> R.

Local Notation evol_main F J :=
  (Evol06.main NT dt F J alpha_0 round3).
Local Notation filter_main F_eval dF_a dF_e pred upd :=
  (@StateIden12.main R N N_eta Ne_eta eta_p NT M dt U_eta UT_eta eta_A
     F_eval dF_a dF_e Y Gamma_alpha_w Gamma_eta_w alpha_prior
     Gamma_alpha_prior eta_prior Gamma_eta_prior pred upd round3).
Local Notation x_tilde_c := (@StateIden12.x_tilde_c R N N_eta Ne_eta eta_p NT).




End ClockAndInputs.

(* ===================================================================== *)
(** * Part VII: an instance with a coupled parameter                      *)
(* ===================================================================== *)

(** One size coefficient driven by one rate coefficient,
    [d alpha / dt = eta], over the rationals: [eval([alpha; eta], t) = eta]
    with Jacobians [0] in [alpha] and [I] in [eta], time step [dt = 2],
    three time steps, one element, and a VAR(2) model of the parameter
    with both coefficient matrices the identity. *)
Module Coupled.

Definition dt : rat := 2%:R.
Definition NT : nat := 3.

Definition U_eta : 'M[rat]_(1, StateIden12.Nc_eta 1 1) := 1%:M.
Definition UT_eta : 'M[rat]_(StateIden12.Nc_eta 1 1, 1) := 1%:M.
Definition eta_A : nat -> 'M[rat]_1 := fun _ => 1%:M.

Definition F_alpha_eval : 'cV[rat]_(1 + 1) -> rat -> 'cV[rat]_1 :=
  fun x _ => getrange 1 x 1.
Definition dF_alpha_d_alpha : 'cV[rat]_(1 + 1) -> rat -> 'M[rat]_1 :=
  fun _ _ => 0.
Definition dF_alpha_d_eta : 'cV[rat]_(1 + 1) -> rat -> 'M[rat]_(1, 1) :=
  fun _ _ => 1%:M.

Definition Y : 'M[rat]_(1, NT) := 0.
Definition Gamma_alpha_w : 'M[rat]_1 := 1%:M.
Definition Gamma_eta_w : 'M[rat]_1 := 1%:M.
Definition alpha_prior : 'cV[rat]_1 := 1%:M.
Definition Gamma_alpha_prior : 'M[rat]_1 := 1%:M.
Definition eta_prior : 'cV[rat]_1 := 1%:M.
Definition Gamma_eta_prior : 'M[rat]_1 := 1%:M.

(** A filter whose prediction is [F x + b], [F Gamma F^T + Gamma_w] and
    whose update keeps the prediction. *)
Definition predict (m : StateIden12.Kalman_filter rat 1 1 1 2)
    (x : 'cV[rat]_(StateIden12.Nx 1 1 1 2))
    (G : 'M[rat]_(StateIden12.Nx 1 1 1 2)) (k : nat)
    : result ('cV[rat]_(StateIden12.Nx 1 1 1 2)
              * 'M[rat]_(StateIden12.Nx 1 1 1 2)) :=
  Ok (StateIden12.model_F m *m x + StateIden12.additive_evolution_vector m,
      StateIden12.model_F m *m G *m (StateIden12.model_F m)^T
      + StateIden12.Gamma_w m).

Definition update (m : StateIden12.Kalman_filter rat 1 1 1 2)
    (x : 'cV[rat]_(StateIden12.Nx 1 1 1 2))
    (G : 'M[rat]_(StateIden12.Nx 1 1 1 2)) (y : 'cV[rat]_1) (k : nat)
    : result ('cV[rat]_(StateIden12.Nx 1 1 1 2)
              * 'M[rat]_(StateIden12.Nx 1 1 1 2)) :=
  Ok (x, G).

Definition filter_step (st : StateIden12.state rat 1 1 1 2 NT) (k : nat)
    : result (StateIden12.state rat 1 1 1 2 NT) :=
  @StateIden12.step rat 1 1 1 2 NT 1 dt U_eta UT_eta eta_A F_alpha_eval
    dF_alpha_d_alpha dF_alpha_d_eta Y predict update st k.

Definition filter_run_upto (n : nat)
    : result (StateIden12.state rat 1 1 1 2 NT) :=
  @StateIden12.run_upto rat 1 1 1 2 NT 1 dt U_eta UT_eta eta_A F_alpha_eval
    dF_alpha_d_alpha dF_alpha_d_eta Y Gamma_alpha_w Gamma_eta_w alpha_prior
    Gamma_alpha_prior eta_prior Gamma_eta_prior predict update n.

Definition filter_run : result (StateIden12.state rat 1 1 1 2 NT) :=
  @StateIden12.run rat 1 1 1 2 NT 1 dt U_eta UT_eta eta_A F_alpha_eval
    dF_alpha_d_alpha dF_alpha_d_eta Y Gamma_alpha_w Gamma_eta_w alpha_prior
    Gamma_alpha_prior eta_prior Gamma_eta_prior predict update.

Definition Gamma_tilde_c_w : 'M[rat]_(StateIden12.Nx 1 1 1 2) :=
  @StateIden12.Gamma_tilde_c_w rat 1 1 1 2 U_eta UT_eta Gamma_alpha_w
    Gamma_eta_w.

(** Two clocks. *)
Definition clock : nat -> rat := fun i => i%:R.

End Coupled.

Section CoupledFacts.

Lemma coupled_unit (J : 'M[rat]_1) :
  J = 0 -> 1%:M - (Coupled.dt / 2%:R) *: J \in unitmx.
Proof. by move=> ->; rewrite scaler0 subr0 unitmx1. Qed.

Lemma coupled_invmx :
  invmx (1%:M - (Coupled.dt / 2%:R) *: (0 : 'M[rat]_1)) = 1%:M.
Proof. by rewrite scaler0 subr0 invmx1. Qed.

Lemma coupled_filter_total (n : nat) :
  exists st, Coupled.filter_run_upto n = Ok st.
Proof.
apply: run_upto_total => [x s|m x G k|m x G y k].
- exact: coupled_unit.
- by eexists.
- by eexists.
Qed.

Lemma coupled_predict_contract : predict_contract 0 0 Coupled.predict.
Proof. by move=> m x G k; rewrite /Coupled.predict !addr0. Qed.

(** The process noise of the current lag of the parameter, in the reduced
    coordinates. *)
Lemma coupled_noise_eta_block :
  getslice 1 1 Coupled.Gamma_tilde_c_w 1 1 = 1%:M.
Proof.
rewrite -(@getslice_getslice _ (2 * StateIden12.Nc_eta 1 1)
            (2 * StateIden12.Nc_eta 1 1) (StateIden12.Nc_eta 1 1)
            (StateIden12.Nc_eta 1 1) _ _ _ 1 1
            (0 * StateIden12.Nc_eta 1 1) (0 * StateIden12.Nc_eta 1 1)) //.
rewrite /Coupled.Gamma_tilde_c_w noise_cov_eta.
rewrite (@reduced_block _ 1 1 2 Coupled.U_eta Coupled.UT_eta _ 0 0) //.
rewrite /StateIden12.Gamma_eta_tilde_w getslice_setslice //.
by rewrite /Coupled.UT_eta /Coupled.U_eta /Coupled.Gamma_eta_w !mulmx1.
Qed.

(** The term an iteration adds to the [alpha] block of the process
    noise. *)
Lemma coupled_noise_term (G : 'M[rat]_(StateIden12.Nx 1 1 1 2))
    (x : 'cV[rat]_(StateIden12.Nx 1 1 1 2)) (t_star : rat) :
  getslice 1 1 G 1 1 = 1%:M ->
  eta_induced_covariance Coupled.dt Coupled.U_eta Coupled.UT_eta
    Coupled.dF_alpha_d_alpha Coupled.dF_alpha_d_eta G x t_star
  = 1%:M.
Proof.
move=> HG; rewrite /eta_induced_covariance /joint_implicit_matrix.
cbv zeta.
have -> :
    (StateIden12.compute_evolution_operator_Jacobians Coupled.U_eta
       Coupled.dF_alpha_d_alpha Coupled.dF_alpha_d_eta x t_star).1 = 0.
  by [].
have -> :
    (StateIden12.compute_evolution_operator_Jacobians Coupled.U_eta
       Coupled.dF_alpha_d_alpha Coupled.dF_alpha_d_eta x t_star).2 = 1%:M.
  by [].
rewrite coupled_invmx HG /Coupled.U_eta /Coupled.UT_eta trmx1 !mulmx1.
by rewrite /Coupled.dt -natrX -[4%:R]/((2 ^ 2)%:R) divff ?scale1r.
Qed.

End CoupledFacts.

(** ** The theorems at the instances *)

Lemma joint_evolution_matrix_blocks_witness :
  exists (F_evolution : 'M[rat]_(StateIden12.Nx 1 1 1 2))
         (b_evolution : 'cV[rat]_(StateIden12.Nx 1 1 1 2)),
    [/\ StateIden12.compute_evolution_operator Coupled.dt Coupled.U_eta
          Coupled.UT_eta Coupled.eta_A Coupled.F_alpha_eval
          (0 : 'cV[rat]_(StateIden12.Nx 1 1 1 2)) 0 0 1%:M
        = Ok (F_evolution, b_evolution),
        getslice 1 1 F_evolution 0 (1 + 0 * 1) = 1%:M + 1%:M,
        getslice 1 1 F_evolution 0 (1 + 1 * 1) = 1%:M,
        getslice 1 1 F_evolution (1 + 0 * 1) (1 + 1 * 1) = 1%:M
      & getslice 1 1 F_evolution (1 + 1 * 1) (1 + 0 * 1) = 1%:M
        /\ getslice 1 1 F_evolution (1 + 1 * 1) (1 + 1 * 1) = 0].
Proof.
have [Mi [F_evolution [b_evolution [[HMi Hop] [_ Hae] [_ Hee] _ _]]]] :=
  @joint_evolution_matrix_blocks rat 1 Coupled.dt 1 1 2 Coupled.U_eta
    Coupled.UT_eta Coupled.eta_A Coupled.F_alpha_eval
    (0 : 'cV[rat]_(StateIden12.Nx 1 1 1 2)) 0 0 1%:M (coupled_unit (erefl _)).
have EMi : Mi = 1%:M by move: HMi; rewrite scaler0 subr0 mulmx1.
have Edt : Coupled.dt / 2%:R = 1 by rewrite /Coupled.dt divff.
exists F_evolution, b_evolution; split=> //.
- rewrite (Hae 0%N (erefl _)) EMi Edt scale1r /Coupled.eta_A /Coupled.U_eta.
  by rewrite !mul1mx mulmx1.
- rewrite (Hae 1%N (erefl _)) EMi Edt scale1r /Coupled.eta_A /Coupled.U_eta.
  by rewrite !mul1mx.
- rewrite (Hee 0%N 1%N (erefl _) (erefl _)) /Coupled.eta_A /Coupled.U_eta.
  by rewrite /Coupled.UT_eta !mul1mx.
- split.
    rewrite (Hee 1%N 0%N (erefl _) (erefl _)) /Coupled.U_eta /Coupled.UT_eta.
    by rewrite !mul1mx.
  by rewrite (Hee 1%N 1%N (erefl _) (erefl _)) mul0mx mulmx0.
Defined.

Lemma linearised_at_current_state_witness :
  (exists st,
     Example.evol_run_upto 1 = Ok st
     /\ exists Mi : 'M[rat]_1,
          getcol (Evol06.alpha st) (0 + 1)
          = Mi *m (1%:M + (Example.dt / 2%:R) *: (- 1%:M))
            *m getcol (Evol06.alpha st) 0
            + Mi *m (Example.dt
                     *: (Example.F_eval (getcol (Evol06.alpha st) 0)
                           (0%:R * Example.dt)
                         - (- 1%:M) *m getcol (Evol06.alpha st) 0)))
  /\ (exists st,
        [/\ Coupled.filter_run = Ok st,
            StateIden12.compute_evolution_operator Coupled.dt Coupled.U_eta
              Coupled.UT_eta Coupled.eta_A Coupled.F_alpha_eval
              (getcol (StateIden12.x_tilde_c st) 1) (1%:R * Coupled.dt)
              0 1%:M
            = Ok (getmx (StateIden12.F st) 1, getcol (StateIden12.b st) 1)
          & getcol (StateIden12.x_tilde_c_predict st) (1 + 1)
            = getmx (StateIden12.F st) 1
              *m getcol (StateIden12.x_tilde_c st) 1
              + getcol (StateIden12.b st) 1]).
Proof.
split.
  have [H1 _] :=
    linearised_at_current_state Example.dt Example.F_eval
      Example.J_F_eval_d_alpha Example.alpha_0 Example.U_eta Example.UT_eta
      Example.eta_A Example.F_alpha_eval Example.dF_alpha_d_alpha
      Example.dF_alpha_d_eta Example.Y Example.Gamma_alpha_w
      Example.Gamma_eta_w Example.alpha_prior Example.Gamma_alpha_prior
      Example.eta_prior Example.Gamma_eta_prior Example.predict
      Example.update 0 0.
  have [st Hst] := example_evol_total 1.
  exists st; split=> //.
  have [Mi [_ _ _ H]] := H1 st Hst 0 (erefl _).
  by exists Mi.
have [_ H2] :=
  @linearised_at_current_state rat 1 Coupled.NT Coupled.dt Example.F_eval
    Example.J_F_eval_d_alpha Example.alpha_0 1 1 2 1 Coupled.U_eta
    Coupled.UT_eta Coupled.eta_A Coupled.F_alpha_eval
    Coupled.dF_alpha_d_alpha Coupled.dF_alpha_d_eta Coupled.Y
    Coupled.Gamma_alpha_w Coupled.Gamma_eta_w Coupled.alpha_prior
    Coupled.Gamma_alpha_prior Coupled.eta_prior Coupled.Gamma_eta_prior
    Coupled.predict Coupled.update 0 0.
have [st Hst] := coupled_filter_total 2.
exists st.
have [Mi [_ [_ Hop] _ Hpred _]] :=
  H2 st (erefl _) coupled_predict_contract Hst 1%N (erefl _).
by split=> //; rewrite Hpred addr0.
Defined.


Lemma process_noise_accumulates_witness :
  exists st st',
    [/\ Coupled.filter_run_upto 1 = Ok st,
        Coupled.filter_step st 1 = Ok st',
        getslice 1 1 (StateIden12.Gamma_w (StateIden12.model st)) 0 0
        = Coupled.Gamma_alpha_w + 1%:M
      & getslice 1 1 (StateIden12.Gamma_w (StateIden12.model st')) 0 0
        = getslice 1 1 (StateIden12.Gamma_w (StateIden12.model st)) 0 0
          + 1%:M].
Proof.
have [st2 Hst2] := coupled_filter_total 2.
have := Hst2; rewrite /Coupled.filter_run_upto run_upto_S => H.
have [st Hst Hstep] := bind_Ok_inv H.
exists st, st2.
have [Hrec Hsum] := process_noise_accumulates Hst.
have [_ Hblock _] := Hrec (erefl _) st2 Hstep.
have [_ _ HGeta _] := run_upto_inv (erefl (1 < Coupled.NT)%N) Hst.
split=> //.
- rewrite (Hsum (erefl _)) big_nat1.
  by rewrite (coupled_noise_term _ _ coupled_noise_eta_block).
- rewrite Hblock; congr (_ + _).
  apply: (@coupled_noise_term
            (StateIden12.Gamma_w (StateIden12.model st))
            (getcol (StateIden12.x_tilde_c st) 1) (1%:R * Coupled.dt)).
  by rewrite [LHS]HGeta; exact: coupled_noise_eta_block.
Defined.


(* ===================================================================== *)
(** * Part VIII: a singular matrix that the binary64 inversion accepts    *)
(* ===================================================================== *)

Section Binary64Facts.



End Binary64Facts.

